(** * PatraSaar: the retrieval-augmented generation core

    A shallow embedding of the TypeScript sources
    [src/lib/documents/processor.ts], [src/lib/embeddings/index.ts] and
    [src/lib/rag/pipeline.ts] (with the parts of [src/lib/vector/index.ts]
    and [src/lib/llm/index.ts] the pipeline calls), followed by the
    properties of the design document that concern them.

    JavaScript strings are sequences of UTF-16 code units; they are modelled
    as lists of code units ([N]).  JavaScript numbers used as lengths, offsets
    and indices are modelled as [Z]; the components of an embedding as
    IEEE 754 binary64 values (the primitive floats); the similarity scores
    the vector index returns as exact rationals. *)

From Stdlib Require Import String Ascii.
From Stdlib Require Import List NArith ZArith QArith Qminmax Lia Bool.
From Stdlib Require Import DecimalString.
From Stdlib Require Floats.
Import ListNotations.

Set Implicit Arguments.

(* ================================================================== *)
(** ** JavaScript strings *)
(* ================================================================== *)

Module Js.

Definition jsstring := list N.

(** An ASCII literal as a JavaScript string. *)
Fixpoint js (s : string) : jsstring :=
  match s with
  | EmptyString => []
  | String c r => N_of_ascii c :: js r
  end.

Arguments js s%_string.

(** ["\n"] *)
Definition newline : string := String (ascii_of_nat 10) EmptyString.

Definition jslength (s : jsstring) : Z := Z.of_nat (length s).

Fixpoint eqb (a b : jsstring) : bool :=
  match a, b with
  | [], [] => true
  | x :: a', y :: b' => N.eqb x y && eqb a' b'
  | _, _ => false
  end.

(** Character classes of ECMAScript regular expressions (non-unicode mode). *)

Definition in_range (lo hi c : N) : bool := (N.leb lo c && N.leb c hi)%bool.

(** [\s]: WhiteSpace and LineTerminator code units; also what [trim] strips. *)
Definition is_space (c : N) : bool :=
  (in_range 9 13 c || N.eqb c 32 || N.eqb c 160 || N.eqb c 5760
   || in_range 8192 8202 c || N.eqb c 8232 || N.eqb c 8233 || N.eqb c 8239
   || N.eqb c 8287 || N.eqb c 12288 || N.eqb c 65279)%bool.

(** Line terminators: the positions after which [^] matches under flag [m]. *)
Definition is_line_terminator (c : N) : bool :=
  (N.eqb c 10 || N.eqb c 13 || N.eqb c 8232 || N.eqb c 8233)%bool.

Definition is_digit (c : N) : bool := in_range 48 57 c.
Definition is_upper (c : N) : bool := in_range 65 90 c.
Definition is_lower (c : N) : bool := in_range 97 122 c.
Definition is_alpha (c : N) : bool := (is_upper c || is_lower c)%bool.
(** [\w] *)
Definition is_word (c : N) : bool :=
  (is_alpha c || is_digit c || N.eqb c 95)%bool.

(** [toLowerCase] on one code unit, for the ASCII letters.  Under flag [i]
    without flag [u] a code unit above 127 never matches an ASCII letter,
    so ASCII folding is all that case-insensitive matching of ASCII
    patterns needs. *)
Definition ascii_lower (c : N) : N := if is_upper c then (c + 32)%N else c.

(** [String.prototype.toLowerCase], as far as its result can reach ASCII:
    the ASCII capitals, the Kelvin sign (to [k]) and the dotted capital I
    (to [i] and a combining dot) are folded; any other code unit is left
    as it is.  The callers compare the result against ASCII tags or delete
    everything outside [[a-z0-9\s]], and no other code unit has a lower
    case inside ASCII, so they decide the same as with the full mapping. *)
Definition lower_unit (c : N) : jsstring :=
  if is_upper c then [(c + 32)%N]
  else if N.eqb c 8490 then [107%N]
  else if N.eqb c 304 then [105%N; 775%N]
  else [c].

Definition toLowerCase (s : jsstring) : jsstring := flat_map lower_unit s.

(** Longest prefix whose code units satisfy [p], and the rest. *)
Fixpoint span (p : N -> bool) (s : jsstring) : jsstring * jsstring :=
  match s with
  | [] => ([], [])
  | c :: t => if p c then let (a, b) := span p t in (c :: a, b) else ([], s)
  end.

Fixpoint dropWhile (p : N -> bool) (s : jsstring) : jsstring :=
  match s with
  | [] => []
  | c :: t => if p c then dropWhile p t else s
  end.

Definition is_nil (s : jsstring) : bool :=
  match s with [] => true | _ => false end.

(** A literal pattern at the head of [s]; gives the rest. *)
Fixpoint lit (w s : jsstring) : option jsstring :=
  match w, s with
  | [], _ => Some s
  | x :: w', c :: s' => if N.eqb x c then lit w' s' else None
  | _ :: _, [] => None
  end.

(** The same under flag [i]. *)
Fixpoint lit_ci (w s : jsstring) : option jsstring :=
  match w, s with
  | [], _ => Some s
  | x :: w', c :: s' =>
      if N.eqb (ascii_lower x) (ascii_lower c) then lit_ci w' s' else None
  | _ :: _, [] => None
  end.

(** [String.prototype.trim] *)
Definition trimStart (s : jsstring) : jsstring := dropWhile is_space s.
Definition trimEnd (s : jsstring) : jsstring := rev (dropWhile is_space (rev s)).
Definition trim (s : jsstring) : jsstring := trimEnd (trimStart s).

(** [s.slice(a, b)] for integer arguments; negative arguments count from
    the end, as in ECMAScript. *)
Definition clamp_index (len i : Z) : Z :=
  if (i <? 0)%Z then Z.max (len + i) 0 else Z.min i len.

Definition slice (s : jsstring) (a b : Z) : jsstring :=
  let len := jslength s in
  let from := clamp_index len a in
  let to := clamp_index len b in
  firstn (Z.to_nat (to - from)) (skipn (Z.to_nat from) s).

(** [s.slice(a)] *)
Definition slice_from (s : jsstring) (a : Z) : jsstring :=
  slice s a (jslength s).

(** [s.split(sep)] for a non-empty separator string. *)
Fixpoint split_go (sep : jsstring) (skip : nat) (cur : jsstring) (s : jsstring)
  : list jsstring :=
  match s with
  | [] => [rev cur]
  | c :: t =>
      match skip with
      | S k => split_go sep k cur t
      | O =>
          match lit sep s with
          | Some _ => rev cur :: split_go sep (pred (length sep)) [] t
          | None => split_go sep 0 (c :: cur) t
          end
      end
  end.

Definition split (sep s : jsstring) : list jsstring := split_go sep 0 [] s.

(** [s.split(/\s+/)] *)
Fixpoint split_ws_go (in_ws : bool) (cur : jsstring) (s : jsstring)
  : list jsstring :=
  match s with
  | [] => [rev cur]
  | c :: t =>
      if is_space c then
        if in_ws then split_ws_go true cur t
        else rev cur :: split_ws_go true [] t
      else split_ws_go false (c :: cur) t
  end.

Definition split_ws (s : jsstring) : list jsstring := split_ws_go false [] s.

(** [words.join(sep)] *)
Fixpoint join (sep : jsstring) (l : list jsstring) : jsstring :=
  match l with
  | [] => []
  | [x] => x
  | x :: r => x ++ sep ++ join sep r
  end.

(** [s.replace(re, ...)] for a global regular expression none of whose
    matches is empty.  [m] is the match attempt at one position: it gives
    the replacement text and the number of code units the match consumed. *)
Fixpoint replace_go (m : jsstring -> option (jsstring * nat)) (skip : nat)
  (s : jsstring) : jsstring :=
  match s with
  | [] => []
  | c :: t =>
      match skip with
      | S k => replace_go m k t
      | O =>
          match m s with
          | Some (out, consumed) => out ++ replace_go m (pred consumed) t
          | None => c :: replace_go m 0 t
          end
      end
  end.

Definition replace_all (m : jsstring -> option (jsstring * nat)) (s : jsstring)
  : jsstring := replace_go m 0 s.

(** [s.includes(w)] *)
Fixpoint includes (s w : jsstring) : bool :=
  match lit w s with
  | Some _ => true
  | None => match s with [] => false | _ :: t => includes t w end
  end.

(** A match attempt [p] tried at every position where [^] holds under
    flag [m]: the start of the string and after each line terminator.
    The leftmost success is the match. *)
Fixpoint search_m {R : Type} (p : jsstring -> option R) (at_start : bool)
  (s : jsstring) : option R :=
  match (if at_start then p s else None) with
  | Some r => Some r
  | None =>
      match s with
      | [] => None
      | c :: t => search_m p (is_line_terminator c) t
      end
  end.

End Js.

Import Js.

(** A computation that either returns or throws [new Error(message)]. *)
Inductive Result (A : Type) : Type :=
| Ok (a : A)
| Throw (message : jsstring).
Arguments Ok {A} a.
Arguments Throw {A} message.

(* ================================================================== *)
(** ** src/lib/documents/processor.ts *)
(* ================================================================== *)

Module Processor.

Record ProcessedMetadata := {
  title : option jsstring;
  author : option jsstring;
  creationDate : option jsstring
}.

Record ProcessedDocument := {
  text : jsstring;
  pages : Z;
  doc_metadata : ProcessedMetadata
}.

Record ChunkMetadata := {
  section : option jsstring;
  clauseNumber : option jsstring;
  pageNumber : option Z;
  startChar : Z;
  endChar : Z
}.

(** [id] is the result of one [uuidv4()] call.  The random value is not
    modelled: an identifier is the ordinal of the call that produced it. *)
Record DocumentChunk := {
  id : nat;
  content : jsstring;
  chunkIndex : Z;
  metadata : ChunkMetadata
}.

(** The element type of the array built by [identifySections]. *)
Record SectionSpan := {
  sec_start : Z;
  sec_end : Z;
  sec_title : option jsstring;
  sec_clauseNumber : option jsstring
}.

(** *** SECTION_PATTERNS

    Each pattern is given as its match attempt at one position; the result
    is capture group 1 ([match[1]], [None] when the pattern has no group). *)

Definition Capture := option jsstring.

(** the tail [\s+(\d+...)] shared by the keyword patterns: one or more
    white-space code units, then what [body] captures. *)
Definition after_spaces (body : jsstring -> option Capture) (s : jsstring)
  : option Capture :=
  let (ws, r) := span is_space s in
  if is_nil ws then None else body r.

(** [\d+] as the whole capture *)
Definition digits (s : jsstring) : option Capture :=
  let (ds, _) := span is_digit s in
  if is_nil ds then None else Some (Some ds).

(** [/^Section\s+(\d+[A-Za-z]?)/im] *)
Definition pat_section (s : jsstring) : option Capture :=
  match lit_ci (js "Section") s with
  | None => None
  | Some r =>
      after_spaces (fun r1 =>
        let (ds, r2) := span is_digit r1 in
        if is_nil ds then None
        else match r2 with
             | c :: _ => if is_alpha c then Some (Some (ds ++ [c]))
                         else Some (Some ds)
             | [] => Some (Some ds)
             end) r
  end.

(** [/^Article\s+(\d+)/im] *)
Definition pat_article (s : jsstring) : option Capture :=
  match lit_ci (js "Article") s with
  | None => None
  | Some r => after_spaces digits r
  end.

(** [/^Clause\s+(\d+(?:\.\d+)?)/im] *)
Definition pat_clause (s : jsstring) : option Capture :=
  match lit_ci (js "Clause") s with
  | None => None
  | Some r =>
      after_spaces (fun r1 =>
        let (ds, r2) := span is_digit r1 in
        if is_nil ds then None
        else match r2 with
             | 46%N :: r3 =>
                 let (ds2, _) := span is_digit r3 in
                 if is_nil ds2 then Some (Some ds)
                 else Some (Some (ds ++ 46%N :: ds2))
             | _ => Some (Some ds)
             end) r
  end.

(** [/^Rule\s+(\d+)/im] *)
Definition pat_rule (s : jsstring) : option Capture :=
  match lit_ci (js "Rule") s with
  | None => None
  | Some r => after_spaces digits r
  end.

(** [[IVXLCDM]] *)
Definition is_roman (c : N) : bool :=
  existsb (N.eqb c) (js "IVXLCDM").

(** [[IVXLCDM]] under flag [i] *)
Definition is_roman_ci (c : N) : bool :=
  (is_roman c || existsb (N.eqb c) (js "ivxlcdm"))%bool.

(** [/^Order\s+([IVXLCDM]+|\d+)/im] *)
Definition pat_order (s : jsstring) : option Capture :=
  match lit_ci (js "Order") s with
  | None => None
  | Some r =>
      after_spaces (fun r1 =>
        let (rs, _) := span is_roman_ci r1 in
        if is_nil rs then digits r1 else Some (Some rs)) r
  end.

(** [/^(?:^\d+)\.\s+([A-Z][^.]+)/m] *)
Definition pat_numbered (s : jsstring) : option Capture :=
  let (ds, r) := span is_digit s in
  if is_nil ds then None
  else match r with
       | 46%N :: r1 =>
           after_spaces (fun r2 =>
             match r2 with
             | c :: r3 =>
                 if is_upper c then
                   let (body, _) := span (fun d => negb (N.eqb d 46)) r3 in
                   if is_nil body then None else Some (Some (c :: body))
                 else None
             | [] => None
             end) r1
       | _ => None
       end.

(** [/^(?:^[IVXLCDM]+)\.\s+/m] *)
Definition pat_roman (s : jsstring) : option Capture :=
  let (rs, r) := span is_roman s in
  if is_nil rs then None
  else match r with
       | 46%N :: r1 =>
           let (ws, _) := span is_space r1 in
           if is_nil ws then None else Some None
       | _ => None
       end.

(** [/^(?:\([a-z]\)|\([ivx]+\))/m] *)
Definition pat_subitem (s : jsstring) : option Capture :=
  match s with
  | 40%N :: r =>
      let first :=
        match r with
        | c :: 41%N :: _ => is_lower c
        | _ => false
        end in
      if first then Some None
      else
        let (xs, r1) := span (fun c => existsb (N.eqb c) (js "ivx")) r in
        if is_nil xs then None
        else match r1 with 41%N :: _ => Some None | _ => None end
  | _ => None
  end.

Definition SECTION_PATTERNS : list (jsstring -> option Capture) :=
  [ pat_section; pat_article; pat_clause; pat_rule; pat_order;
    pat_numbered; pat_roman; pat_subitem ].

(** [line.match(pattern)]: every pattern starts with [^] and carries
    flag [m]. *)
Definition line_match (pattern : jsstring -> option Capture) (line : jsstring)
  : option Capture :=
  search_m pattern true line.

(** The inner [for (const pattern of SECTION_PATTERNS)] loop: the capture
    of the first pattern that matches the line. *)
Fixpoint first_pattern (patterns : list (jsstring -> option Capture))
  (line : jsstring) : option Capture :=
  match patterns with
  | [] => None
  | pattern :: rest =>
      match line_match pattern line with
      | Some m => Some m
      | None => first_pattern rest line
      end
  end.

Definition maxChunkSize : Z := 500.
Definition chunkOverlap : Z := 50.

(** [Math.ceil(text.length / 4)] *)
Definition estimateTokens (text : jsstring) : Z := (jslength text + 3) / 4.

(** [sections[sections.length - 1].end = currentPos] *)
Fixpoint close_previous (currentPos : Z) (sections : list SectionSpan)
  : list SectionSpan :=
  match sections with
  | [] => []
  | [last] =>
      [ {| sec_start := sec_start last; sec_end := currentPos;
           sec_title := sec_title last;
           sec_clauseNumber := sec_clauseNumber last |} ]
  | first :: rest => first :: close_previous currentPos rest
  end.

Fixpoint identifySections_loop (text : jsstring) (lines : list jsstring)
  (sections : list SectionSpan) (currentPos : Z) : list SectionSpan :=
  match lines with
  | [] => sections
  | line :: rest =>
      let sections' :=
        match first_pattern SECTION_PATTERNS line with
        | Some m =>
            close_previous currentPos sections ++
            [ {| sec_start := currentPos; sec_end := jslength text;
                 sec_title := Some (slice (trim line) 0 100);
                 sec_clauseNumber := m |} ]
        | None => sections
        end in
      identifySections_loop text rest sections' (currentPos + jslength line + 1)
  end.

Definition identifySections (text : jsstring) : list SectionSpan :=
  identifySections_loop text (split (js newline) text) [] 0.

(** [/([.!?])\s+/g] replaced by ["$1|||"] *)
Definition sentence_end (s : jsstring) : option (jsstring * nat) :=
  match s with
  | c :: t =>
      if existsb (N.eqb c) (js ".!?") then
        let (ws, _) := span is_space t in
        if is_nil ws then None else Some (c :: js "|||", S (length ws))
      else None
  | [] => None
  end.

(** [/\|\|\|([A-Z])/g] replaced by ["|||$1"] *)
Definition marker_capital (s : jsstring) : option (jsstring * nat) :=
  match lit (js "|||") s with
  | Some (c :: _) =>
      if is_upper c then Some (js "|||" ++ [c], 4%nat) else None
  | _ => None
  end.

Definition splitIntoSentences (text : jsstring) : list jsstring :=
  filter (fun s => (0 <? jslength s)%Z)
    (map trim
       (split (js "|||")
          (replace_all marker_capital (replace_all sentence_end text)))).

Definition getOverlapText (text : jsstring) : jsstring :=
  let words := split_ws text in
  let overlapWords :=
    skipn (Z.to_nat (Z.max 0 (Z.of_nat (length words) - chunkOverlap))) words in
  join (js " ") overlapWords ++ js " ".

(** The state of the loops of [splitLargeSection] and
    [slidingWindowChunk]. *)
Record Window := {
  chunks : list DocumentChunk;
  currentChunk : jsstring;
  chunkStart : Z;
  currentStart : Z
}.

(** [chunks.push(...)] guarded by [if (currentChunk.trim())] *)
Definition push_if_text (st : Window) (chunk : DocumentChunk)
  : list DocumentChunk :=
  if is_nil (trim (currentChunk st)) then chunks st else chunks st ++ [chunk].

(** One iteration of the loop of [splitLargeSection].  [fresh] is the
    ordinal of the next [uuidv4()] call when the function is entered. *)
Definition splitLargeSection_step (section : SectionSpan) (fresh : nat)
  (st : Window) (sentence : jsstring) : Window :=
  let potentialChunk := currentChunk st ++ sentence ++ js " " in
  if (estimateTokens potentialChunk >? maxChunkSize)%Z then
    let chunks' :=
      push_if_text st
        {| id := fresh + length (chunks st);
           content := trim (currentChunk st);
           chunkIndex := 0;
           metadata :=
             {| section := sec_title section;
                clauseNumber := sec_clauseNumber section;
                pageNumber := None;
                startChar := chunkStart st;
                endChar := chunkStart st + jslength (currentChunk st) |} |} in
    let overlapText := getOverlapText (currentChunk st) in
    let currentChunk' := overlapText ++ sentence ++ js " " in
    {| chunks := chunks';
       currentChunk := currentChunk';
       chunkStart :=
         chunkStart st
         + (jslength currentChunk' - jslength overlapText
            - jslength sentence - 1);
       currentStart := currentStart st |}
  else
    {| chunks := chunks st;
       currentChunk := potentialChunk;
       chunkStart := chunkStart st;
       currentStart := currentStart st |}.

Definition splitLargeSection (sectionText : jsstring) (section : SectionSpan)
  (fresh : nat) : list DocumentChunk :=
  let sentences := splitIntoSentences sectionText in
  let st :=
    fold_left (splitLargeSection_step section fresh) sentences
      {| chunks := []; currentChunk := []; chunkStart := sec_start section;
         currentStart := 0 |} in
  push_if_text st
    {| id := fresh + length (chunks st);
       content := trim (currentChunk st);
       chunkIndex := 0;
       metadata :=
         {| section := sec_title section;
            clauseNumber := sec_clauseNumber section;
            pageNumber := None;
            startChar := chunkStart st;
            endChar := sec_start section + jslength sectionText |} |}.

(** One iteration of the loop of [slidingWindowChunk]. *)
Definition slidingWindowChunk_step (fresh : nat) (st : Window)
  (sentence : jsstring) : Window :=
  let potentialChunk := currentChunk st ++ sentence ++ js " " in
  if (estimateTokens potentialChunk >? maxChunkSize)%Z then
    let chunks' :=
      push_if_text st
        {| id := fresh + length (chunks st);
           content := trim (currentChunk st);
           chunkIndex := Z.of_nat (length (chunks st));
           metadata :=
             {| section := None;
                clauseNumber := None;
                pageNumber := None;
                startChar := chunkStart st;
                endChar := chunkStart st + jslength (currentChunk st) |} |} in
    let overlapText := getOverlapText (currentChunk st) in
    {| chunks := chunks';
       currentChunk := overlapText ++ sentence ++ js " ";
       chunkStart := currentStart st - jslength overlapText;
       currentStart := currentStart st + jslength sentence + 1 |}
  else
    {| chunks := chunks st;
       currentChunk := potentialChunk;
       chunkStart := chunkStart st;
       currentStart := currentStart st + jslength sentence + 1 |}.

Definition slidingWindowChunk (text : jsstring) (fresh : nat)
  : list DocumentChunk :=
  let sentences := splitIntoSentences text in
  let st :=
    fold_left (slidingWindowChunk_step fresh) sentences
      {| chunks := []; currentChunk := []; chunkStart := 0;
         currentStart := 0 |} in
  push_if_text st
    {| id := fresh + length (chunks st);
       content := trim (currentChunk st);
       chunkIndex := Z.of_nat (length (chunks st));
       metadata :=
         {| section := None;
            clauseNumber := None;
            pageNumber := None;
            startChar := chunkStart st;
            endChar := jslength text |} |}.

(** [chunks.push({ ...subChunk, chunkIndex: chunks.length })] *)
Definition push_reindexed (chunks : list DocumentChunk)
  (subChunk : DocumentChunk) : list DocumentChunk :=
  chunks ++
  [ {| id := id subChunk;
       content := content subChunk;
       chunkIndex := Z.of_nat (length chunks);
       metadata := metadata subChunk |} ].

(** The body of the [for] loop of [chunkDocument] over the sections. *)
Definition chunkDocument_step (text : jsstring) (fresh : nat)
  (chunks : list DocumentChunk) (section : SectionSpan)
  : list DocumentChunk :=
  let sectionText := slice text (sec_start section) (sec_end section) in
  if (estimateTokens sectionText <=? maxChunkSize)%Z then
    chunks ++
    [ {| id := fresh + length chunks;
         content := trim sectionText;
         chunkIndex := Z.of_nat (length chunks);
         metadata :=
           {| section := sec_title section;
              clauseNumber := sec_clauseNumber section;
              pageNumber := None;
              startChar := sec_start section;
              endChar := sec_end section |} |} ]
  else
    fold_left push_reindexed
      (splitLargeSection sectionText section (fresh + length chunks)) chunks.

(** [fresh] is the ordinal of the next [uuidv4()] call when the function
    is entered; every chunk draws one identifier. *)
Definition chunkDocument (text : jsstring) (fresh : nat)
  : list DocumentChunk :=
  let sections := identifySections text in
  if (length sections =? 0)%nat then slidingWindowChunk text fresh
  else fold_left (chunkDocument_step text fresh) sections [].

(** *** normalizeText *)

(** [/\bl\b/g] replaced by ["I"]: a lone lower-case l, with no word
    character on either side.  [prev_word] tells whether the code unit
    before the current one is a word character. *)
Fixpoint replace_lone_l (prev_word : bool) (s : jsstring) : jsstring :=
  match s with
  | [] => []
  | c :: t =>
      let next_word := match t with [] => false | d :: _ => is_word d end in
      if (N.eqb c 108 && negb prev_word && negb next_word)%bool
      then 73%N :: replace_lone_l true t
      else c :: replace_lone_l (is_word c) t
  end.

(** [/\s+/g] replaced by [" "] *)
Definition space_run (s : jsstring) : option (jsstring * nat) :=
  let (ws, _) := span is_space s in
  if is_nil ws then None else Some (js " ", length ws).

(** a one-code-unit pattern replaced by [out] *)
Definition one_char (c : N) (out : jsstring) (s : jsstring)
  : option (jsstring * nat) :=
  match s with
  | d :: _ => if N.eqb d c then Some (out, 1%nat) else None
  | [] => None
  end.

Definition normalizeText (text : jsstring) : jsstring :=
  trim
    (replace_all (one_char 8230 (js "..."))
       (replace_all (one_char 8211 (js "-"))
          (replace_all (one_char 39 [39%N])
             (replace_all (one_char 34 [34%N])
                (replace_all space_run
                   (replace_lone_l false text)))))).

(** *** extractText *)

Definition Buffer := list Byte.byte.

(** [buffer.toString('latin1')] *)
Definition latin1 (buffer : Buffer) : jsstring := map Byte.to_N buffer.

(** every match of a global regular expression, as the [while] loop over
    [regex.exec(content)] visits them; [m] is the match attempt at one
    position, giving capture group 1 and the length of the match. *)
Fixpoint exec_all (m : jsstring -> option (jsstring * nat)) (skip : nat)
  (s : jsstring) : list jsstring :=
  match s with
  | [] => []
  | _ :: t =>
      match skip with
      | S k => exec_all m k t
      | O =>
          match m s with
          | Some (g, consumed) => g :: exec_all m (pred consumed) t
          | None => exec_all m 0 t
          end
      end
  end.

(** [/\(([^)]+)\)/g] *)
Definition parenthesised (s : jsstring) : option (jsstring * nat) :=
  match s with
  | 40%N :: t =>
      let (body, r) := span (fun c => negb (N.eqb c 41)) t in
      if is_nil body then None
      else match r with
           | 41%N :: _ => Some (body, (length body + 2)%nat)
           | _ => None
           end
  | _ => None
  end.

(** [/^[\x20-\x7E\s]+$/.test(text) && text.length > 2] *)
Definition printable_run (text : jsstring) : bool :=
  (negb (is_nil text)
   && forallb (fun c => in_range 32 126 c || is_space c) text
   && (2 <? jslength text)%Z)%bool.

Definition extractTextFromPDFBuffer (buffer : Buffer) : jsstring :=
  let content := latin1 buffer in
  let textMatches := filter printable_run (exec_all parenthesised 0 content) in
  trim (replace_all space_run (join (js " ") textMatches)).

Section Extraction.

(** The parsers of the npm packages [pdf-parse] and [mammoth], and UTF-8
    decoding, are collaborators outside the repository. *)
Record PDFData := {
  pdf_text : jsstring;
  numpages : Z;
  info_Title : option jsstring;
  info_Author : option jsstring;
  info_CreationDate : option jsstring
}.

Variable pdfParse : Buffer -> Result PDFData.
Variable extractRawText : Buffer -> Result jsstring.
Variable utf8 : Buffer -> jsstring.

Definition extractFromPDF (buffer : Buffer) : Result ProcessedDocument :=
  match pdfParse buffer with
  | Ok data =>
      Ok {| text := pdf_text data;
            pages := numpages data;
            doc_metadata :=
              {| title := info_Title data;
                 author := info_Author data;
                 creationDate := info_CreationDate data |} |}
  | Throw _ =>
      let textContent := extractTextFromPDFBuffer buffer in
      if (negb (is_nil textContent) && (50 <? jslength textContent)%Z)%bool
      then
        Ok {| text := textContent;
              pages := 1;
              doc_metadata :=
                {| title := None; author := None; creationDate := None |} |}
      else
        Throw (js "Failed to extract text from PDF. Try uploading a TXT or DOCX file instead.")
  end.

Definition extractFromDOCX (buffer : Buffer) : Result ProcessedDocument :=
  match extractRawText buffer with
  | Ok value =>
      Ok {| text := value;
            pages := 1;
            doc_metadata :=
              {| title := None; author := None; creationDate := None |} |}
  | Throw _ => Throw (js "Failed to extract text from DOCX")
  end.

Definition extractText (buffer : Buffer) (fileType filename : jsstring)
  : Result ProcessedDocument :=
  let tag := toLowerCase fileType in
  if (eqb tag (js "pdf") || eqb tag (js "application/pdf"))%bool then
    extractFromPDF buffer
  else if (eqb tag (js "docx")
           || eqb tag (js "application/vnd.openxmlformats-officedocument.wordprocessingml.document"))%bool
  then extractFromDOCX buffer
  else if (eqb tag (js "txt") || eqb tag (js "text/plain"))%bool then
    Ok {| text := utf8 buffer;
          pages := 1;
          doc_metadata :=
            {| title := Some filename; author := None;
               creationDate := None |} |}
  else Throw (js "Unsupported file type: " ++ fileType).

End Extraction.

End Processor.

(* ================================================================== *)
(** ** src/lib/embeddings/index.ts *)
(* ================================================================== *)

Module Embeddings.

Definition EMBEDDING_DIMENSION : nat := 384.

(** ECMAScript [ToInt32] *)
Definition to_int32 (z : Z) : Z := ((z + 2 ^ 31) mod 2 ^ 32 - 2 ^ 31)%Z.

(** [a << k] and [a ^ b] on numbers *)
Definition shl (a k : Z) : Z := to_int32 (Z.shiftl (to_int32 a) k).
Definition bitxor (a b : Z) : Z := to_int32 (Z.lxor (to_int32 a) (to_int32 b)).

(** [hash = ((hash << 5) + hash) ^ str.charCodeAt(i)] *)
Definition stringHash_step (hash : Z) (c : N) : Z :=
  bitxor (shl hash 5 + hash) (Z.of_N c).

Definition stringHash (str : jsstring) : Z :=
  fold_left stringHash_step str 5381%Z.

(** [text.toLowerCase().replace(/[^a-z0-9\s]/g, "")
         .split(/\s+/).filter((w) => w.length > 0)] *)
Definition keep (c : N) : bool := (is_lower c || is_digit c || is_space c)%bool.

Definition tokenize (text : jsstring) : list jsstring :=
  filter (fun w => (0 <? jslength w)%Z)
    (split_ws (filter keep (toLowerCase text))).

(** [wordFreq.set(word, (wordFreq.get(word) || 0) + 1)] on a [Map], which
    iterates in the order in which the keys were first inserted. *)
Fixpoint bump (word : jsstring) (wordFreq : list (jsstring * Z))
  : list (jsstring * Z) :=
  match wordFreq with
  | [] => [(word, 1%Z)]
  | (w, freq) :: rest =>
      if eqb w word then (w, (freq + 1)%Z) :: rest
      else (w, freq) :: bump word rest
  end.

Definition wordFreq (words : list jsstring) : list (jsstring * Z) :=
  fold_left (fun m word => bump word m) words [].

(** [Math.abs(hash) % EMBEDDING_DIMENSION] *)
Definition index_of (hash : Z) : nat :=
  Z.to_nat (Z.abs hash mod Z.of_nat EMBEDDING_DIMENSION).

(** [word + h] for the loop counter [h] *)
Definition salted (word : jsstring) (h : N) : jsstring := word ++ [(48 + h)%N].

(** [words[i] + "_" + words[i + 1]] for [i] from [0] to [words.length - 2] *)
Fixpoint bigrams (words : list jsstring) : list jsstring :=
  match words with
  | a :: ((b :: _) as rest) => (a ++ js "_" ++ b) :: bigrams rest
  | _ => []
  end.

(** *** The arithmetic

    The components of an embedding are JavaScript numbers: IEEE 754
    binary64 values.  They are the primitive floats, whose [+], [*], [/]
    and [sqrt] round to nearest, ties to even, as the operators of
    ECMAScript and [Math.sqrt] do. *)

Section Numbers.

Import PrimFloat.
Local Open Scope float_scope.

(** An integer as a number.  Every integer below [2^53] in absolute
    value is a binary64 value and is converted without rounding; the
    frequencies and array lengths converted here are below [2^32], the
    bound on the length of an array. *)
Fixpoint number_of_pos (p : positive) : float :=
  match p with
  | xH => 1
  | xO q => 2 * number_of_pos q
  | xI q => 2 * number_of_pos q + 1
  end.

Definition number (z : Z) : float :=
  match z with
  | Z0 => 0
  | Zpos p => number_of_pos p
  | Zneg p => - number_of_pos p
  end.

(** [embedding[idx] += v]; [idx] is below the length of the array at every
    call, so the array never grows. *)
Fixpoint add_at (embedding : list float) (idx : nat) (v : float)
  : list float :=
  match embedding, idx with
  | [], _ => []
  | x :: rest, O => (x + v) :: rest
  | x :: rest, S k => x :: add_at rest k v
  end.

(** the body of [for (let h = 0; h < 3; h++)] *)
Definition hash_word (tf : float) (word : jsstring) (embedding : list float)
  (h : N) : list float :=
  let hash := stringHash (salted word h) in
  let idx := index_of hash in
  let sign : float := if (hash >? 0)%Z then 1 else (-1) in
  add_at embedding idx (sign * tf).

(** the body of [for (const [word, freq] of wordFreq)] *)
Definition add_word (len : Z) (embedding : list float) (entry : jsstring * Z)
  : list float :=
  let (word, freq) := entry in
  let tf := number freq / number len in
  fold_left (hash_word tf word) [0%N; 1%N; 2%N] embedding.

Definition add_bigram (len : Z) (embedding : list float) (bigram : jsstring)
  : list float :=
  add_at embedding (index_of (stringHash bigram)) (0.5 / number len).

(** The array after the word loop and the bigram loop, before it is
    normalised. *)
Definition accumulate (words : list jsstring) : list float :=
  let len := Z.of_nat (length words) in
  let embedding := repeat 0 EMBEDDING_DIMENSION in
  let embedding := fold_left (add_word len) (wordFreq words) embedding in
  fold_left (add_bigram len) (bigrams words) embedding.

(** [embedding.reduce((sum, val) => sum + val * val, 0)] *)
Definition sum_squares (embedding : list float) : float :=
  fold_left (fun sum val => sum + val * val) embedding 0.

(** The Euclidean norm, evaluated as [hashEmbedding] evaluates its
    [magnitude]. *)
Definition norm (v : list float) : float := sqrt (sum_squares v).

Definition hashEmbedding (text : jsstring) : list float :=
  let words := tokenize text in
  if (length words =? 0)%nat then repeat 0 EMBEDDING_DIMENSION
  else
    let embedding := accumulate words in
    let magnitude := sqrt (sum_squares embedding) in
    if 0 <? magnitude
    then map (fun val => val / magnitude) embedding
    else embedding.

Definition embed (text : jsstring) : list float := hashEmbedding text.

Definition embedBatch (texts : list jsstring) : list (list float) :=
  map hashEmbedding texts.

End Numbers.

End Embeddings.

(* ================================================================== *)
(** ** src/lib/vector/index.ts, src/lib/llm/index.ts and
       src/lib/rag/pipeline.ts *)
(* ================================================================== *)

Module Rag.

Import Processor.

(** [VectorDocument["metadata"]] *)
Record VectorMetadata := {
  documentId : jsstring;
  userId : jsstring;
  vm_chunkIndex : Z;
  documentType : option jsstring;
  vm_section : option jsstring;
  vm_pageNumber : option Z;
  isCorpus : option bool
}.

Record SearchResult := {
  sr_id : nat;
  sr_content : jsstring;
  score : Q;
  sr_metadata : VectorMetadata
}.

Record Citation := {
  source : jsstring;
  cit_section : option jsstring;
  cit_content : jsstring;
  relevanceScore : Q
}.

Record RAGQueryResult := {
  answer : jsstring;
  citations : list Citation;
  confidence : Q;
  tokensUsed : Z;
  processingTimeMs : Z
}.

Inductive IngestionStatus := ingest_completed | ingest_failed.

Record DocumentIngestionResult := {
  ir_documentId : jsstring;
  chunksCreated : Z;
  status : IngestionStatus;
  error : option jsstring
}.

Inductive Role := system | user | assistant.

Record LLMMessage := { role : Role; msg_content : jsstring }.

Inductive LLMProvider := groq | gemini.

Record LLMResponse := {
  llm_content : jsstring;
  llm_tokensUsed : Z;
  provider : LLMProvider
}.

(** *** The tables of the metadata store (Supabase) *)

Inductive DocStatus := pending | processing | completed | failed.

Record DocumentRow := {
  doc_id : jsstring;
  doc_title : option jsstring;
  original_filename : jsstring;
  doc_status : DocStatus;
  raw_text : option jsstring;
  summary : option jsstring;
  processed_at : option Z
}.

Record ChunkRow := {
  chunk_id : nat;
  chunk_document_id : jsstring;
  chunk_index : Z;
  chunk_content : jsstring;
  chunk_metadata : ChunkMetadata;
  vector_id : nat
}.

Record QueryRow := {
  q_user_id : jsstring;
  q_document_id : option jsstring;
  query_text : jsstring;
  response_text : jsstring;
  q_citations : list Citation;
  confidence_score : Q;
  tokens_used : Z;
  processing_time_ms : Z
}.

Inductive UsageMetadata :=
| upload_usage (documentId : jsstring) (chunksCreated processingTimeMs : Z)
| query_usage (documentId : option jsstring) (queryLength resultsCount : Z).

Record UsageRow := {
  u_user_id : jsstring;
  action_type : jsstring;
  u_metadata : UsageMetadata
}.

(** The payload of a point of the Qdrant collection. *)
Record Payload := {
  p_content : option jsstring;
  p_documentId : option jsstring;
  p_userId : option jsstring;
  p_chunkIndex : option Z;
  p_documentType : option jsstring;
  p_section : option jsstring;
  p_pageNumber : option Z;
  p_isCorpus : option bool
}.

(** One element of the answer of the Qdrant client's [search]. *)
Record ScoredPoint := {
  sp_id : nat;
  sp_score : Q;
  sp_payload : option Payload
}.

Section Pipeline.

Variable Vec : Type.

Record VectorDocument := {
  vd_id : nat;
  vd_content : jsstring;
  embedding : Vec;
  vd_metadata : VectorMetadata
}.

Record Point := {
  pt_id : nat;
  pt_vector : Vec;
  pt_payload : Payload
}.

(** Everything the pipeline reads or writes outside its own variables. *)
Record World := {
  documents : list DocumentRow;
  document_chunks : list ChunkRow;
  queries : list QueryRow;
  usage_tracking : list UsageRow;
  (** every [update] issued on [documents], oldest first *)
  documents_updates : list (jsstring * DocStatus);
  (** the Qdrant collection, [None] before it is created *)
  collection : option (list Point);
  qdrant_requests : nat;
  (** the message lists sent to a generation provider, oldest first *)
  llm_calls : list (list LLMMessage);
  clock_reads : nat;
  uuid_calls : nat
}.

(** *** The environment: configuration and collaborators *)

Record Env := {
  (** the embedding service, used through [embed] and [embedBatch] only;
      the pipeline never looks inside a vector *)
  embedder : jsstring -> Vec;
  (** [NEXT_PUBLIC_SUPABASE_URL] and [SUPABASE_SERVICE_ROLE_KEY] are set *)
  has_supabase_env : bool;
  (** [QDRANT_URL] and [QDRANT_API_KEY] are set *)
  has_qdrant_client : bool;
  (** the [n]-th request to the Qdrant server fails with this error *)
  qdrant_fault_at : nat -> option jsstring;
  (** the ranking computed by the Qdrant server: the points of the
      collection, the query vector, the limit and the [must] conditions *)
  qdrant_ranking :
    list Point -> Vec -> Z -> list (jsstring * jsstring) -> list ScoredPoint;
  (** the Groq and Gemini clients, present when their API keys are set;
      Groq answers with [choices[0]?.message?.content] and
      [usage?.total_tokens], Gemini with [response.text()] *)
  groq_client :
    option (list LLMMessage -> Result (option jsstring * option Z));
  gemini_client : option (jsstring -> Result jsstring);
  (** the [n]-th reading of the clock *)
  clock_at : nat -> Z;
  system_prompt : jsstring;
  (** the parsers behind [documentProcessor.extractText] *)
  pdf_parser : Buffer -> Result PDFData;
  docx_parser : Buffer -> Result jsstring;
  utf8_decoder : Buffer -> jsstring
}.

Variable env : Env.

Local Abbreviation embed := (embedder env).
Local Abbreviation supabase_env := (has_supabase_env env).
Local Abbreviation qdrant_client := (has_qdrant_client env).
Local Abbreviation qdrant_fault := (qdrant_fault_at env).
Local Abbreviation qdrant_search := (qdrant_ranking env).
Local Abbreviation groqClient := (groq_client env).
Local Abbreviation geminiClient := (gemini_client env).
Local Abbreviation clock := (clock_at env).
Local Abbreviation LEGAL_SYSTEM_PROMPT := (system_prompt env).
Local Abbreviation pdfParse := (pdf_parser env).
Local Abbreviation extractRawText := (docx_parser env).
Local Abbreviation utf8 := (utf8_decoder env).

Definition embedBatch (texts : list jsstring) : list Vec := map embed texts.

(** *** Computations: state passing, with exceptions that keep the state *)

Definition M (A : Type) : Type := World -> Result A * World.

Definition ret {A} (a : A) : M A := fun w => (Ok a, w).
Definition throw {A} (message : jsstring) : M A := fun w => (Throw message, w).
Definition bind {A B} (m : M A) (k : A -> M B) : M B :=
  fun w =>
    match m w with
    | (Ok a, w') => k a w'
    | (Throw e, w') => (Throw e, w')
    end.
(** [try { m } catch (error) { handler(error.message) }] *)
Definition try_catch {A} (m : M A) (handler : jsstring -> M A) : M A :=
  fun w =>
    match m w with
    | (Ok a, w') => (Ok a, w')
    | (Throw e, w') => handler e w'
    end.
Definition lift {A} (r : Result A) : M A := fun w => (r, w).
Definition modify (f : World -> World) : M unit := fun w => (Ok tt, f w).
Definition get : M World := fun w => (Ok w, w).

Notation "x <- m ;; k" := (bind m (fun x => k))
  (at level 61, m at next level, right associativity).
Notation "m ;;; k" := (bind m (fun _ => k))
  (at level 61, right associativity).

(** [Date.now()] *)
Definition Date_now : M Z :=
  fun w =>
    (Ok (clock (clock_reads w)),
     {| documents := documents w; document_chunks := document_chunks w;
        queries := queries w; usage_tracking := usage_tracking w;
        documents_updates := documents_updates w;
        collection := collection w; qdrant_requests := qdrant_requests w;
        llm_calls := llm_calls w; clock_reads := S (clock_reads w);
        uuid_calls := uuid_calls w |}).

(** *** src/lib/supabase/server.ts *)

Definition createServiceClient : M unit :=
  if supabase_env then ret tt
  else throw (js "Missing Supabase environment variables").

Definition set_documents (f : list DocumentRow -> list DocumentRow)
  (log : list (jsstring * DocStatus)) (w : World) : World :=
  {| documents := f (documents w); document_chunks := document_chunks w;
     queries := queries w; usage_tracking := usage_tracking w;
     documents_updates := documents_updates w ++ log;
     collection := collection w; qdrant_requests := qdrant_requests w;
     llm_calls := llm_calls w; clock_reads := clock_reads w;
     uuid_calls := uuid_calls w |}.

Definition with_status (st : DocStatus) (row : DocumentRow) : DocumentRow :=
  {| doc_id := doc_id row; doc_title := doc_title row;
     original_filename := original_filename row;
     doc_status := st; raw_text := raw_text row;
     summary := summary row; processed_at := processed_at row |}.

(** the rows after [update({ status }).eq("id", documentId)] *)
Definition set_status (documentId : jsstring) (st : DocStatus)
  (rows : list DocumentRow) : list DocumentRow :=
  map (fun row =>
         if eqb (doc_id row) documentId then with_status st row else row) rows.

(** [supabase.from("documents").update({ status }).eq("id", documentId)] *)
Definition update_status (documentId : jsstring) (st : DocStatus) : M unit :=
  modify (set_documents (set_status documentId st) [(documentId, st)]).

(** [supabase.from("documents").update({ status: "completed", raw_text,
    summary, processed_at }).eq("id", documentId)] *)
Definition update_completed (documentId text summ : jsstring) (at_ : Z)
  : M unit :=
  modify (set_documents
    (map (fun row =>
       if eqb (doc_id row) documentId then
         {| doc_id := doc_id row; doc_title := doc_title row;
            original_filename := original_filename row;
            doc_status := completed; raw_text := Some text;
            summary := Some summ; processed_at := Some at_ |}
       else row))
    [(documentId, completed)]).

Definition insert_chunks (rows : list ChunkRow) : M unit :=
  modify (fun w =>
    {| documents := documents w;
       document_chunks := document_chunks w ++ rows;
       queries := queries w; usage_tracking := usage_tracking w;
       documents_updates := documents_updates w;
       collection := collection w; qdrant_requests := qdrant_requests w;
       llm_calls := llm_calls w; clock_reads := clock_reads w;
       uuid_calls := uuid_calls w |}).

Definition insert_query (row : QueryRow) : M unit :=
  modify (fun w =>
    {| documents := documents w; document_chunks := document_chunks w;
       queries := queries w ++ [row]; usage_tracking := usage_tracking w;
       documents_updates := documents_updates w;
       collection := collection w; qdrant_requests := qdrant_requests w;
       llm_calls := llm_calls w; clock_reads := clock_reads w;
       uuid_calls := uuid_calls w |}).

Definition insert_usage (row : UsageRow) : M unit :=
  modify (fun w =>
    {| documents := documents w; document_chunks := document_chunks w;
       queries := queries w; usage_tracking := usage_tracking w ++ [row];
       documents_updates := documents_updates w;
       collection := collection w; qdrant_requests := qdrant_requests w;
       llm_calls := llm_calls w; clock_reads := clock_reads w;
       uuid_calls := uuid_calls w |}).

(** [.select("title, original_filename").eq("id", documentId).single()]:
    [data] is the row when exactly one row has the identifier. *)
Definition select_single (documentId : jsstring) : M (option DocumentRow) :=
  w <- get ;;
  ret (match filter (fun row => eqb (doc_id row) documentId) (documents w) with
       | [row] => Some row
       | _ => None
       end).

(** *** src/lib/vector/index.ts *)

Definition set_collection (c : option (list Point)) (w : World) : World :=
  {| documents := documents w; document_chunks := document_chunks w;
     queries := queries w; usage_tracking := usage_tracking w;
     documents_updates := documents_updates w;
     collection := c; qdrant_requests := qdrant_requests w;
     llm_calls := llm_calls w; clock_reads := clock_reads w;
     uuid_calls := uuid_calls w |}.

(** one request to the Qdrant server *)
Definition qdrant_request : M unit :=
  fun w =>
    let w' :=
      {| documents := documents w; document_chunks := document_chunks w;
         queries := queries w; usage_tracking := usage_tracking w;
         documents_updates := documents_updates w;
         collection := collection w;
         qdrant_requests := S (qdrant_requests w);
         llm_calls := llm_calls w; clock_reads := clock_reads w;
         uuid_calls := uuid_calls w |} in
    match qdrant_fault (qdrant_requests w) with
    | Some e => (Throw e, w')
    | None => (Ok tt, w')
    end.

Definition initialize : M unit :=
  if negb qdrant_client then ret tt
  else
    qdrant_request ;;;            (* getCollections *)
    w <- get ;;
    match collection w with
    | Some _ => ret tt
    | None =>
        qdrant_request ;;;        (* createCollection *)
        modify (set_collection (Some []))
    end.

(** [{ content: doc.content, ...doc.metadata }] *)
Definition payload_of (doc : VectorDocument) : Payload :=
  let m := vd_metadata doc in
  {| p_content := Some (vd_content doc);
     p_documentId := Some (documentId m);
     p_userId := Some (userId m);
     p_chunkIndex := Some (vm_chunkIndex m);
     p_documentType := documentType m;
     p_section := vm_section m;
     p_pageNumber := vm_pageNumber m;
     p_isCorpus := isCorpus m |}.

(** the server's [upsert] of one point: a point with the same identifier
    is replaced *)
Fixpoint upsert_point (pt : Point) (points : list Point) : list Point :=
  match points with
  | [] => [pt]
  | q :: rest =>
      if Nat.eqb (pt_id q) (pt_id pt) then pt :: rest
      else q :: upsert_point pt rest
  end.

Definition upsertVectors (docs : list VectorDocument) : M unit :=
  if negb qdrant_client then throw (js "Qdrant client not configured")
  else
    initialize ;;;
    let points :=
      map (fun doc =>
             {| pt_id := vd_id doc; pt_vector := embedding doc;
                pt_payload := payload_of doc |}) docs in
    qdrant_request ;;;            (* upsert *)
    w <- get ;;
    modify (set_collection
      (Some (fold_left (fun acc pt => upsert_point pt acc) points
               (match collection w with Some c => c | None => [] end)))).

(** a string is truthy when it is not empty *)
Definition truthy (s : option jsstring) : option jsstring :=
  match s with
  | Some (c :: r) => Some (c :: r)
  | _ => None
  end.

Definition default {A} (d : A) (o : option A) : A :=
  match o with Some a => a | None => d end.

Record SearchFilter := {
  f_documentId : option jsstring;
  f_userId : option jsstring;
  f_documentType : option jsstring
}.

Definition filterConditions (filter : SearchFilter)
  : list (jsstring * jsstring) :=
  (match truthy (f_documentId filter) with
   | Some v => [(js "documentId", v)] | None => [] end) ++
  (match truthy (f_userId filter) with
   | Some v => [(js "userId", v)] | None => [] end) ++
  (match truthy (f_documentType filter) with
   | Some v => [(js "documentType", v)] | None => [] end).

(** [searchResult.map((result) => ({ ... }))] *)
Definition to_SearchResult (result : ScoredPoint) : SearchResult :=
  let field {A} (f : Payload -> option A) : option A :=
    match sp_payload result with Some p => f p | None => None end in
  {| sr_id := sp_id result;
     sr_content := default [] (field p_content);
     score := sp_score result;
     sr_metadata :=
       {| documentId := default [] (field p_documentId);
          userId := default [] (field p_userId);
          vm_chunkIndex := default 0%Z (field p_chunkIndex);
          documentType := field p_documentType;
          vm_section := field p_section;
          vm_pageNumber := field p_pageNumber;
          isCorpus := field p_isCorpus |} |}.

(** [vectorService.search(queryEmbedding, { limit, filter })] *)
Definition search (queryEmbedding : Vec) (limit : option Z)
  (filter : SearchFilter) : M (list SearchResult) :=
  if negb qdrant_client then throw (js "Qdrant client not configured")
  else
    initialize ;;;
    qdrant_request ;;;            (* search *)
    w <- get ;;
    ret (map to_SearchResult
           (qdrant_search (default [] (collection w)) queryEmbedding
              (default 5%Z limit) (filterConditions filter))).

(** *** src/lib/llm/index.ts *)

Definition record_llm_call (messages : list LLMMessage) : M unit :=
  modify (fun w =>
    {| documents := documents w; document_chunks := document_chunks w;
       queries := queries w; usage_tracking := usage_tracking w;
       documents_updates := documents_updates w;
       collection := collection w; qdrant_requests := qdrant_requests w;
       llm_calls := llm_calls w ++ [messages]; clock_reads := clock_reads w;
       uuid_calls := uuid_calls w |}).

Definition role_name (r : Role) : jsstring :=
  match r with
  | system => js "system"
  | user => js "user"
  | assistant => js "assistant"
  end.

Definition is_system (m : LLMMessage) : bool :=
  match role m with system => true | _ => false end.

(** the prompt [chatWithGemini] builds from the messages *)
Definition gemini_prompt (messages : list LLMMessage) : jsstring :=
  (match find is_system messages with
   | Some m => msg_content m ++ js newline ++ js newline
   | None => []
   end) ++
  join (js newline ++ js newline)
    (map (fun m => role_name (role m) ++ js ": " ++ msg_content m)
       (filter (fun m => negb (is_system m)) messages)).

(** [llmService.chat(messages)] with the default options *)
Definition chat (messages : list LLMMessage) : M LLMResponse :=
  match groqClient, geminiClient with
  | Some create, _ =>
      record_llm_call messages ;;;
      response <- lift (create messages) ;;
      ret {| llm_content := default [] (truthy (fst response));
             llm_tokensUsed := default 0%Z (snd response);
             provider := groq |}
  | None, Some generateContent =>
      record_llm_call messages ;;;
      text <- lift (generateContent (gemini_prompt messages)) ;;
      ret {| llm_content := text; llm_tokensUsed := 0; provider := gemini |}
  | None, None =>
      throw (js "No LLM provider configured. Set GROQ_API_KEY or GOOGLE_GEMINI_API_KEY")
  end.

Definition answerWithContext (context query : jsstring)
  (documentTitle : option jsstring) : M LLMResponse :=
  chat
    [ {| role := system; msg_content := LEGAL_SYSTEM_PROMPT |};
      {| role := user;
         msg_content :=
           (match truthy documentTitle with
            | Some t => js "Document: " ++ t ++ js newline ++ js newline
            | None => []
            end) ++
           js "Retrieved Legal Context:" ++ js newline ++ context ++
           js newline ++ js newline ++ js "User Question: " ++ query |} ].

(** *** src/lib/rag/pipeline.ts *)

Definition bump_uuid (n : nat) : M unit :=
  modify (fun w =>
    {| documents := documents w; document_chunks := document_chunks w;
       queries := queries w; usage_tracking := usage_tracking w;
       documents_updates := documents_updates w;
       collection := collection w; qdrant_requests := qdrant_requests w;
       llm_calls := llm_calls w; clock_reads := clock_reads w;
       uuid_calls := (uuid_calls w + n)%nat |}).

(** [array.map((x, i) => f x i)] *)
Fixpoint mapi_from {A B} (i : nat) (f : A -> nat -> B) (l : list A) : list B :=
  match l with
  | [] => []
  | x :: r => f x i :: mapi_from (S i) f r
  end.
Definition mapi {A B} (f : A -> nat -> B) (l : list A) : list B :=
  mapi_from 0 f l.

(** the body of the [try] block of [ingestDocument] *)
Definition ingest_body (documentId userId : jsstring) (fileBuffer : Buffer)
  (fileType filename : jsstring) (startTime : Z)
  : M DocumentIngestionResult :=
  update_status documentId processing ;;;
  processed <-
    lift (extractText pdfParse extractRawText utf8 fileBuffer fileType
            filename) ;;
  let normalizedText := normalizeText (text processed) in
  w <- get ;;
  let chunks := chunkDocument normalizedText (uuid_calls w) in
  bump_uuid (length chunks) ;;;
  if (length chunks =? 0)%nat then
    throw (js "No text could be extracted from document")
  else
    let chunkTexts := map content chunks in
    let embeddings := embedBatch chunkTexts in
    let chunkRecords :=
      mapi (fun chunk i =>
              {| chunk_id := id chunk;
                 chunk_document_id := documentId;
                 chunk_index := Z.of_nat i;
                 chunk_content := content chunk;
                 chunk_metadata := metadata chunk;
                 vector_id := id chunk |}) chunks in
    insert_chunks chunkRecords ;;;
    let vectorDocs :=
      mapi (fun chunk i =>
              {| vd_id := id chunk;
                 vd_content := content chunk;
                 embedding := nth i embeddings (embed []);
                 vd_metadata :=
                   {| documentId := documentId;
                      userId := userId;
                      vm_chunkIndex := Z.of_nat i;
                      documentType := None;
                      vm_section := section (metadata chunk);
                      vm_pageNumber := pageNumber (metadata chunk);
                      isCorpus := None |} |}) chunks in
    upsertVectors vectorDocs ;;;
    summaryResponse <-
      chat
        [ {| role := system;
             msg_content :=
               js "You are a legal document summarizer. Provide a concise 2-3 paragraph summary of the following legal document, highlighting key points, parties involved, and important dates or obligations." |};
          {| role := user;
             msg_content :=
               js "Summarize this legal document:" ++ js newline ++ js newline
               ++ slice normalizedText 0 8000
               ++ (if (8000 <? jslength normalizedText)%Z then js "..."
                   else []) |} ] ;;
    processedAt <- Date_now ;;
    update_completed documentId normalizedText (llm_content summaryResponse)
      processedAt ;;;
    endTime <- Date_now ;;
    insert_usage
      {| u_user_id := userId;
         action_type := js "document_upload";
         u_metadata :=
           upload_usage documentId (Z.of_nat (length chunks))
             (endTime - startTime) |} ;;;
    ret {| ir_documentId := documentId;
           chunksCreated := Z.of_nat (length chunks);
           status := ingest_completed;
           error := None |}.

Definition ingestDocument (documentId userId : jsstring) (fileBuffer : Buffer)
  (fileType filename : jsstring) : M DocumentIngestionResult :=
  startTime <- Date_now ;;
  createServiceClient ;;;
  try_catch
    (ingest_body documentId userId fileBuffer fileType filename startTime)
    (fun message =>
       update_status documentId failed ;;;
       ret {| ir_documentId := documentId;
              chunksCreated := 0;
              status := ingest_failed;
              error := Some message |}).

(** the decimal numeral of [i], as in a template literal *)
Definition decimal (i : nat) : jsstring :=
  js (NilEmpty.string_of_uint (Nat.to_uint i)).

Definition buildContext (results : list SearchResult) : jsstring :=
  join (js newline ++ js newline ++ js "---" ++ js newline ++ js newline)
    (mapi (fun r i =>
             let sectionInfo :=
               match truthy (vm_section (sr_metadata r)) with
               | Some sec => js " (" ++ sec ++ js ")"
               | None => []
               end in
             js "[Source " ++ decimal (i + 1) ++ sectionInfo ++ js "]:"
             ++ js newline ++ sr_content r) results).

Definition extractCitations (results : list SearchResult) : list Citation :=
  map (fun r =>
         {| source := documentId (sr_metadata r);
            cit_section := vm_section (sr_metadata r);
            cit_content :=
              slice (sr_content r) 0 200
              ++ (if (200 <? jslength (sr_content r))%Z then js "..." else []);
            relevanceScore := score r |}) results.

(** the answer of the zero-result path *)
Definition NO_RESULTS_ANSWER : jsstring :=
  js "I couldn't find relevant information to answer your question. Please try rephrasing or ensure you have uploaded relevant documents."
  ++ js newline ++ js newline ++ [9888%N; 65039%N]
  ++ js " This is for informational purposes only, not legal advice.".

Record QueryOptions := {
  opt_documentId : option jsstring;
  topK : option Z
}.

(** [searchResults.reduce((sum, r) => sum + r.score, 0)
       / searchResults.length] *)
Definition avgScore (searchResults : list SearchResult) : Q :=
  fold_left (fun sum r => sum + score r) searchResults 0
  / inject_Z (Z.of_nat (length searchResults)).

Definition query (userId queryText : jsstring) (options : QueryOptions)
  : M RAGQueryResult :=
  startTime <- Date_now ;;
  let documentId := opt_documentId options in
  let queryEmbedding := embed queryText in
  searchResults <-
    search queryEmbedding (Some (default 5%Z (topK options)))
      (match truthy documentId with
       | Some d =>
           {| f_documentId := Some d; f_userId := None;
              f_documentType := None |}
       | None =>
           {| f_documentId := None; f_userId := Some userId;
              f_documentType := None |}
       end) ;;
  if (length searchResults =? 0)%nat then
    endTime <- Date_now ;;
    ret {| answer := NO_RESULTS_ANSWER;
           citations := [];
           confidence := 0;
           tokensUsed := 0;
           processingTimeMs := endTime - startTime |}
  else
    let context := buildContext searchResults in
    let citations := extractCitations searchResults in
    documentTitle <-
      match truthy documentId with
      | Some d =>
          createServiceClient ;;;
          data <- select_single d ;;
          ret (match data with
               | Some row =>
                   match truthy (doc_title row) with
                   | Some t => Some t
                   | None => Some (original_filename row)
                   end
               | None => None
               end)
      | None => ret None
      end ;;
    llmResponse <- answerWithContext context queryText documentTitle ;;
    let confidence := Qmin (avgScore searchResults) 1 in
    createServiceClient ;;;
    storedAt <- Date_now ;;
    insert_query
      {| q_user_id := userId;
         q_document_id := truthy documentId;
         query_text := queryText;
         response_text := llm_content llmResponse;
         q_citations := citations;
         confidence_score := confidence;
         tokens_used := llm_tokensUsed llmResponse;
         processing_time_ms := storedAt - startTime |} ;;;
    insert_usage
      {| u_user_id := userId;
         action_type := js "query";
         u_metadata :=
           query_usage documentId (jslength queryText)
             (Z.of_nat (length searchResults)) |} ;;;
    endTime <- Date_now ;;
    ret {| answer := llm_content llmResponse;
           citations := citations;
           confidence := confidence;
           tokensUsed := llm_tokensUsed llmResponse;
           processingTimeMs := endTime - startTime |}.

End Pipeline.

End Rag.

(* ================================================================== *)
(** ** The properties of the design document, as predicates *)
(* ================================================================== *)

Module Spec.

Import Processor.

(** The chunking scenario of the design document. *)
Definition scenario_text : jsstring :=
  js "Section 1: Payment is due within 30 days. Section 2: Termination requires 30 days notice.".

(** The same two sentences, the second heading starting its own line. *)
Definition scenario_lines : jsstring :=
  js "Section 1: Payment is due within 30 days." ++ js newline
  ++ js "Section 2: Termination requires 30 days notice.".

(** [n] sections with the given clause numbers, each within the size
    limit, and as many chunks. *)
Definition sections_and_chunks (text : jsstring)
  (numbers : list (option jsstring)) : Prop :=
  map sec_clauseNumber (identifySections text) = numbers
  /\ Forall (fun s =>
               (estimateTokens (slice text (sec_start s) (sec_end s))
                <= maxChunkSize)%Z) (identifySections text)
  /\ length (chunkDocument text 0) = length numbers.

(** The sentences the chunker works on: those of the whole text, and
    those of the text of each section. *)
Definition sentence_of (text s : jsstring) : Prop :=
  In s (splitIntoSentences text)
  \/ exists sec, In sec (identifySections text)
       /\ In s (splitIntoSentences (slice text (sec_start sec) (sec_end sec))).

(** The size bound as the design document states it: a chunk is over the
    limit only when some sentence alone is. *)
Definition size_bound_as_stated (text : jsstring) : Prop :=
  forall c, In c (chunkDocument text 0) ->
    (estimateTokens (content c) <= maxChunkSize)%Z
    \/ exists s, sentence_of text s /\ (estimateTokens s > maxChunkSize)%Z.

(** The words [getOverlapText] carries over: the last 50 of the text. *)
Definition overlapWords (text : jsstring) : list jsstring :=
  skipn (Z.to_nat (Z.max 0 (Z.of_nat (length (split_ws text)) - chunkOverlap)))
    (split_ws text).

(** The buffer [currentChunk] of both loops after one more sentence: the
    sentence is appended when the buffer stays within the limit; when it
    would not, the buffer restarts with the overlap of the old one,
    followed by the sentence, and is not checked against the limit. *)
Definition next_buffer (currentChunk sentence : jsstring) : jsstring :=
  let potentialChunk := currentChunk ++ sentence ++ js " " in
  if (estimateTokens potentialChunk >? maxChunkSize)%Z
  then getOverlapText currentChunk ++ sentence ++ js " "
  else potentialChunk.

(** The buffer a loop holds when it has gone through [sentences]; both
    loops start with the empty buffer. *)
Definition buffer_after (sentences : list jsstring) : jsstring :=
  fold_left next_buffer sentences [].

(** The chunk [c] is a restarted buffer of a loop over [sentences]: the
    loop had gone through the sentences [before], the buffer it held then
    could not take [sentence], and [c] is the overlap of that buffer (its
    last words, at most 50) followed by [sentence], trimmed. *)
Definition restart_chunk (sentences : list jsstring) (c : DocumentChunk)
  : Prop :=
  exists before sentence after,
    sentences = before ++ sentence :: after
    /\ let previous := buffer_after before in
       (estimateTokens (previous ++ sentence ++ js " ") > maxChunkSize)%Z
       /\ (length (overlapWords previous) <= 50)%nat
       /\ content c
          = trim (join (js " ") (overlapWords previous) ++ js " "
                  ++ sentence ++ js " ").

(** The sentence lists of the loops [chunkDocument] runs on [text]: the
    sentences of the whole text when it has no section, and otherwise the
    sentences of each section that is over the limit. *)
Definition loop_of (text : jsstring) (sentences : list jsstring) : Prop :=
  (identifySections text = [] /\ sentences = splitIntoSentences text)
  \/ exists sec,
       In sec (identifySections text)
       /\ (estimateTokens (slice text (sec_start sec) (sec_end sec))
           > maxChunkSize)%Z
       /\ sentences
          = splitIntoSentences (slice text (sec_start sec) (sec_end sec)).

(** What a loop over [sentences] guarantees of a chunk: it is within the
    limit, or it is a restarted buffer of that loop. *)
Definition within_limit_or_restart (sentences : list jsstring)
  (c : DocumentChunk) : Prop :=
  (estimateTokens (content c) <= maxChunkSize)%Z \/ restart_chunk sentences c.

(** The invariant of both loops over [sentences], when they have gone
    through the sentences [done]: the buffer is the one [buffer_after]
    computes; it is within the limit or has just been restarted at the
    last sentence of [done]; and so is every chunk emitted so far. *)
Definition window_ok (sentences done : list jsstring) (st : Window) : Prop :=
  currentChunk st = buffer_after done
  /\ Forall (within_limit_or_restart sentences) (chunks st)
  /\ ((estimateTokens (currentChunk st) <= maxChunkSize)%Z
      \/ exists before sentence,
           done = before ++ [sentence]
           /\ (estimateTokens (buffer_after before ++ sentence ++ js " ")
               > maxChunkSize)%Z).

(** What the code guarantees of a chunk of a document: it is within the
    limit, or it is a restarted buffer of one of the loops run on the
    document: the overlap carried over from the buffer that loop held (at
    most 50 words) followed by the sentence that buffer could not take. *)
Definition chunk_ok (text : jsstring) (c : DocumentChunk) : Prop :=
  (estimateTokens (content c) <= maxChunkSize)%Z
  \/ exists sentences, loop_of text sentences /\ restart_chunk sentences c.

(** A chunk of 3007 code units that no loop over the text ["Hello."]
    emits. *)
Definition foreign_chunk : DocumentChunk :=
  {| id := 0; content := repeat 122%N 3000 ++ js " Hello."; chunkIndex := 0;
     metadata := {| section := None; clauseNumber := None;
                    pageNumber := None; startChar := 0; endChar := 0 |} |}.

(** [n] copies of [s] *)
Fixpoint times (n : nat) (s : jsstring) : jsstring :=
  match n with
  | O => []
  | S k => s ++ times k s
  end.

(** Two sentences, neither over the limit: fifty words of 39 code units
    (1999 code units, 500 estimated tokens) and a sentence of 100. *)
Definition long_words : jsstring :=
  times 49 (repeat 97%N 39 ++ js " ") ++ repeat 97%N 38 ++ js ".".
Definition short_sentence : jsstring := js "B" ++ repeat 98%N 98 ++ js ".".
Definition overlap_overflow_text : jsstring :=
  long_words ++ js " " ++ short_sentence.

(** A section of exactly 2000 code units, 500 estimated tokens. *)
Definition boundary_text : jsstring := js "Section 1 " ++ repeat 97%N 1990.

(** The file-type tags [extractText] sends to the PDF and to the DOCX
    extractor. *)
Definition is_pdf (fileType : jsstring) : bool :=
  (eqb (toLowerCase fileType) (js "pdf")
   || eqb (toLowerCase fileType) (js "application/pdf"))%bool.

Definition is_docx (fileType : jsstring) : bool :=
  (eqb (toLowerCase fileType) (js "docx")
   || eqb (toLowerCase fileType)
        (js "application/vnd.openxmlformats-officedocument.wordprocessingml.document"))%bool.

(** What a successful fallback returns. *)
Definition recovered (textContent : jsstring) : ProcessedDocument :=
  {| text := textContent; pages := 1;
     doc_metadata :=
       {| title := None; author := None; creationDate := None |} |}.

(** The fallback as the design document states it, for one input: when the
    primary parser of a structured format fails, extraction succeeds with
    the recovered text if that text has more than 50 code units, and fails
    otherwise. *)
Definition fallback_as_stated (pdfParse : Buffer -> Result PDFData)
  (extractRawText : Buffer -> Result jsstring) (utf8 : Buffer -> jsstring)
  (buffer : Buffer) (fileType filename : jsstring) : Prop :=
  let result := extractText pdfParse extractRawText utf8 buffer fileType
                  filename in
  let textContent := extractTextFromPDFBuffer buffer in
  ((is_pdf fileType = true /\ exists e, pdfParse buffer = Throw e)
   \/ (is_docx fileType = true /\ exists e, extractRawText buffer = Throw e)) ->
  ((50 < jslength textContent)%Z -> result = Ok (recovered textContent))
  /\ ((jslength textContent <= 50)%Z -> exists e, result = Throw e).

(** A byte stream that no parser accepts but that holds a parenthesised
    run of 58 printable characters. *)
Definition damaged_bytes : Buffer :=
  list_byte_of_string
    "%corrupt (This agreement is made between the two parties named here.) end".

Definition failing_pdfParse (_ : Buffer) : Result PDFData :=
  Throw (js "Invalid PDF structure").
Definition failing_extractRawText (_ : Buffer) : Result jsstring :=
  Throw (js "Can't find end of central directory").
Definition no_utf8 (_ : Buffer) : jsstring := [].

(** a string of white space only (or empty) *)
Definition blank (s : jsstring) : Prop := Forall (fun c => is_space c = true) s.

(** the code units [\s] matches *)
Definition space_units : list N :=
  [9; 10; 11; 12; 13; 32; 160; 5760; 8192; 8193; 8194; 8195; 8196; 8197;
   8198; 8199; 8200; 8201; 8202; 8232; 8233; 8239; 8287; 12288; 65279]%N.

(** Case analysis on [H : In c space_units]. *)
Ltac each_space_unit c H :=
  unfold space_units, In in H;
  repeat (destruct H as [H | H]; [subst c |]); [.. | destruct H].

Definition indices_from_zero (cs : list DocumentChunk) : Prop :=
  map chunkIndex cs = map Z.of_nat (seq 0 (length cs)).

(** *** The pipeline *)

Import Rag.

Section PipelineSpec.

Variable Vec : Type.
Variable env : Env Vec.

(** The world after one reading of the clock. *)
Definition tick (w : World Vec) : World Vec := snd (Date_now env w).

(** The metadata store (every table, and the log of status updates) is
    the same in two worlds. *)
Definition same_store (w w' : World Vec) : Prop :=
  documents w' = documents w
  /\ document_chunks w' = document_chunks w
  /\ queries w' = queries w
  /\ usage_tracking w' = usage_tracking w
  /\ documents_updates w' = documents_updates w.

(** Neither the metadata store nor the generation provider was touched
    between two worlds. *)
Definition quiet (w w' : World Vec) : Prop :=
  same_store w w' /\ llm_calls w' = llm_calls w.

(** The vector search [query] performs. *)
Definition search_of_query (userId queryText : jsstring)
  (options : QueryOptions) : M Vec (list SearchResult) :=
  search env (embedder env queryText) (Some (default 5%Z (topK options)))
    (match truthy (opt_documentId options) with
     | Some d =>
         {| f_documentId := Some d; f_userId := None;
            f_documentType := None |}
     | None =>
         {| f_documentId := None; f_userId := Some userId;
            f_documentType := None |}
     end).

(** The generation provider answers every request. *)
Definition llm_answers : Prop :=
  forall messages w, exists response,
    chat env messages w
    = (Ok response, snd (record_llm_call messages w)).

End PipelineSpec.

(** The arithmetic mean, as the design document words it. *)
Fixpoint total (scores : list Q) : Q :=
  match scores with
  | [] => 0
  | x :: rest => x + total rest
  end.

Definition mean (scores : list Q) : Q :=
  total scores / inject_Z (Z.of_nat (length scores)).

(** The content preview, as the design document words it: the content cut
    to at most 200 code units, with an ellipsis when something was cut. *)
Definition preview (content : jsstring) : jsstring :=
  if (length content <=? 200)%nat then content
  else firstn 200 content ++ js "...".

Definition citation_of (r : SearchResult) : Citation :=
  {| source := documentId (sr_metadata r);
     cit_section := vm_section (sr_metadata r);
     cit_content := preview (sr_content r);
     relevanceScore := score r |}.

(** The closing line the system prompt makes mandatory. *)
Definition DISCLAIMER : jsstring :=
  [9888%N; 65039%N]
  ++ js " This is for informational purposes only, not legal advice.".

Definition NOT_FOUND_PHRASE : jsstring :=
  js "I couldn't find relevant information".

(** [s] ends with [suffix] *)
Definition ends_with (s suffix : jsstring) : Prop :=
  exists before, s = before ++ suffix.

(** *** A concrete environment *)

(** No vectors are inspected: the embedding is the unit value.  Supabase
    and Qdrant are configured and reachable, Groq answers every request
    with the same text, and the clock advances by 10 ms at each reading. *)
Definition demo_env
  (ranking : list (Point unit) -> unit -> Z -> list (jsstring * jsstring)
             -> list ScoredPoint)
  (parser : Buffer -> Result PDFData) : Env unit :=
  {| embedder := fun _ => tt;
     has_supabase_env := true;
     has_qdrant_client := true;
     qdrant_fault_at := fun _ => None;
     qdrant_ranking := ranking;
     groq_client := Some (fun _ => Ok (Some (js "Payment is due in 30 days."),
                                       Some 128%Z));
     gemini_client := None;
     clock_at := fun n => (1000 + 10 * Z.of_nat n)%Z;
     system_prompt := js "You are PatraSaar.";
     pdf_parser := parser;
     docx_parser := failing_extractRawText;
     utf8_decoder := latin1 |}.

Definition demo_document : DocumentRow :=
  {| doc_id := js "doc-1"; doc_title := None;
     original_filename := js "lease.txt"; doc_status := pending;
     raw_text := None; summary := None; processed_at := None |}.

Definition demo_world : World unit :=
  {| documents := [demo_document]; document_chunks := []; queries := [];
     usage_tracking := []; documents_updates := []; collection := None;
     qdrant_requests := 0; llm_calls := []; clock_reads := 0;
     uuid_calls := 0 |}.

Definition no_results (_ : list (Point unit)) (_ : unit) (_ : Z)
  (_ : list (jsstring * jsstring)) : list ScoredPoint := [].

Definition demo_payload (content : jsstring) (section : option jsstring)
  : Payload :=
  {| p_content := Some content; p_documentId := Some (js "doc-1");
     p_userId := Some (js "user-1"); p_chunkIndex := Some 0%Z;
     p_documentType := None; p_section := section; p_pageNumber := None;
     p_isCorpus := None |}.

(** Two results, in the order the index returns them; the second is
    longer than 200 code units and has a negative score. *)
Definition two_results (_ : list (Point unit)) (_ : unit) (_ : Z)
  (_ : list (jsstring * jsstring)) : list ScoredPoint :=
  [ {| sp_id := 7; sp_score := 3 # 4;
       sp_payload :=
         Some (demo_payload (js "Payment is due within 30 days.")
                 (Some (js "Section 1"))) |};
    {| sp_id := 3; sp_score := - (1 # 4);
       sp_payload := Some (demo_payload (repeat 120%N 250) None) |} ].

Definition two_search_results : list SearchResult :=
  map to_SearchResult (two_results [] tt 5%Z []).

Definition blank_document : ProcessedDocument :=
  {| text := js "  "; pages := 1;
     doc_metadata := {| title := None; author := None;
                        creationDate := None |} |}.

(** One result, with a negative cosine similarity. *)
Definition one_negative_result (_ : list (Point unit)) (_ : unit) (_ : Z)
  (_ : list (jsstring * jsstring)) : list ScoredPoint :=
  [ {| sp_id := 5; sp_score := - (1 # 2);
       sp_payload :=
         Some (demo_payload (js "Termination requires 30 days notice.")
                 None) |} ].

Definition demo_question : jsstring := js "What are the payment terms?".

Definition demo_options : QueryOptions :=
  {| opt_documentId := None; topK := None |}.

(** the world the search of the demo query leaves *)
Definition after_search (e : Env unit) : World unit :=
  snd (search_of_query e (js "user-1") demo_question demo_options
         (tick e demo_world)).

(** a PDF parser that succeeds with the given text *)
Definition parsed_as (content : jsstring) (_ : Buffer) : Result PDFData :=
  Ok {| pdf_text := content; numpages := 1; info_Title := None;
        info_Author := None; info_CreationDate := None |}.

(** *** The embedding *)

Section EmbeddingSpec.

Import PrimFloat.
Local Open Scope float_scope.

Definition zero_vector : list float :=
  repeat 0 Embeddings.EMBEDDING_DIMENSION.


End EmbeddingSpec.

(** Seven distinct words whose hashed contributions cancel at every
    index: each of the words adds or subtracts 1/7 at three indices, each
    of the six bigrams adds 0.5/7 at one index, and the sum is 0 at each
    of the indices 89 to 96 and 189 to 191 they reach. *)
Definition cancelling_text : jsstring :=
  js "rewvay qtzvsk vgzblvx omhqke zglpolh xbccpz qxkqjo".

End Spec.

(* ================================================================== *)
(** ** Further functions of the sources *)
(* ================================================================== *)

(** *** src/lib/vector/index.ts: deleteByDocumentId, deleteByUserId;
        src/lib/rag/pipeline.ts: deleteDocument *)

Module VectorAdmin.

Import Rag.

Section Delete.

Variable Vec : Type.
Variable env : Env Vec.

(** the error of the Qdrant server for a collection that does not exist *)
Variable collection_not_found : jsstring.

(** the server's [delete] with one [must] condition: every point whose
    payload has the value at the key is removed *)
Definition delete_matching (field : Payload -> option jsstring)
  (value : jsstring) (points : list (Point Vec)) : list (Point Vec) :=
  filter (fun pt =>
            negb (match field (pt_payload pt) with
                  | Some v => eqb v value
                  | None => false
                  end)) points.

(** [this.client.delete(this.collectionName, { filter: { must: [{ key,
    match: { value } }] } })], behind the check of the client *)
Definition delete_by (field : Payload -> option jsstring) (value : jsstring)
  : M Vec unit :=
  if negb (has_qdrant_client env) then throw (js "Qdrant client not configured")
  else
    bind (qdrant_request env) (fun _ =>
    bind (@get Vec) (fun w =>
      match collection w with
      | Some points =>
          modify (set_collection (Some (delete_matching field value points)))
      | None => throw collection_not_found
      end)).

Definition deleteByDocumentId (documentId : jsstring) : M Vec unit :=
  delete_by p_documentId documentId.

Definition deleteByUserId (userId : jsstring) : M Vec unit :=
  delete_by p_userId userId.

(** [ragPipeline.deleteDocument] *)
Definition deleteDocument (documentId : jsstring) : M Vec unit :=
  deleteByDocumentId documentId.

End Delete.

End VectorAdmin.

(** *** src/lib/llm/index.ts: chat with its options *)

Module Llm.

Import Rag.

Section Chat.

Import PrimFloat.

#[local] Set Warnings "-inexact-float".

Variable Vec : Type.

(** the [options] of [chat]; a property that is absent is [None] *)
Record ChatOptions := {
  opt_provider : option LLMProvider;
  opt_maxTokens : option Z;
  opt_temperature : option float
}.

(** [{}] *)
Definition no_options : ChatOptions :=
  {| opt_provider := None; opt_maxTokens := None; opt_temperature := None |}.

(** The Groq and Gemini clients, present when their API keys are set.  A
    client answers a request: the messages (for Gemini, the prompt built
    from them), the token limit and the temperature. *)
Variable groqClient :
  option (list LLMMessage -> Z -> float
          -> Result (option jsstring * option Z)).
Variable geminiClient : option (jsstring -> Z -> float -> Result jsstring).

Definition getDefaultProvider : M Vec LLMProvider :=
  match groqClient, geminiClient with
  | Some _, _ => ret groq
  | None, Some _ => ret gemini
  | None, None =>
      throw (js "No LLM provider configured. Set GROQ_API_KEY or GOOGLE_GEMINI_API_KEY")
  end.

Definition chatWithGroq (messages : list LLMMessage) (maxTokens : Z)
  (temperature : float) : M Vec LLMResponse :=
  match groqClient with
  | None => throw (js "Groq client not initialized")
  | Some create =>
      bind (record_llm_call messages) (fun _ =>
      bind (lift (create messages maxTokens temperature)) (fun response =>
      ret {| llm_content := default [] (truthy (fst response));
             llm_tokensUsed := default 0%Z (snd response);
             provider := groq |}))
  end.

Definition chatWithGemini (messages : list LLMMessage) (maxTokens : Z)
  (temperature : float) : M Vec LLMResponse :=
  match geminiClient with
  | None => throw (js "Gemini client not initialized")
  | Some generateContent =>
      bind (record_llm_call messages) (fun _ =>
      bind (lift (generateContent (gemini_prompt messages) maxTokens
                    temperature)) (fun text =>
      ret {| llm_content := text; llm_tokensUsed := 0;
             provider := gemini |}))
  end.

(** [const { provider = this.getDefaultProvider(), maxTokens = 2048,
    temperature = 0.3 } = options]: a default is evaluated only when the
    property is absent. *)
Definition chat (messages : list LLMMessage) (options : ChatOptions)
  : M Vec LLMResponse :=
  bind (match opt_provider options with
        | Some p => ret p
        | None => getDefaultProvider
        end) (fun provider =>
  let maxTokens := default 2048%Z (opt_maxTokens options) in
  let temperature := default 0.3%float (opt_temperature options) in
  match provider with
  | groq => chatWithGroq messages maxTokens temperature
  | gemini => chatWithGemini messages maxTokens temperature
  end).

(** The clients of the environment [env] are these clients, asked with
    the default token limit and temperature. *)
Definition at_defaults (env : Env Vec) : Prop :=
  groq_client env
  = option_map (fun create messages => create messages 2048%Z 0.3%float)
      groqClient
  /\ gemini_client env
     = option_map (fun generateContent prompt =>
                     generateContent prompt 2048%Z 0.3%float) geminiClient.

(** The failure of the request [chat] sent: it went to Groq, named or
    the default, or to Gemini, named or the default when Groq is not
    configured. *)
Definition request_failed (messages : list LLMMessage)
  (options : ChatOptions) (e : jsstring) : Prop :=
  let maxTokens := default 2048%Z (opt_maxTokens options) in
  let temperature := default 0.3%float (opt_temperature options) in
  (exists create,
     groqClient = Some create
     /\ opt_provider options <> Some gemini
     /\ create messages maxTokens temperature = Throw e)
  \/ (exists generateContent,
        geminiClient = Some generateContent
        /\ (opt_provider options = Some gemini
            \/ (opt_provider options = None /\ groqClient = None))
        /\ generateContent (gemini_prompt messages) maxTokens temperature
           = Throw e).

End Chat.

(** Both providers are configured and answer every request. *)
Definition answering_groq
  : option (list LLMMessage -> Z -> PrimFloat.float
            -> Result (option jsstring * option Z)) :=
  Some (fun _ _ _ => Ok (Some (js "Payment is due in 30 days."), Some 128%Z)).

Definition answering_gemini
  : option (jsstring -> Z -> PrimFloat.float -> Result jsstring) :=
  Some (fun _ _ _ => Ok (js "The rent is due monthly.")).

(** [{ provider: "gemini" }] *)
Definition gemini_named : ChatOptions :=
  {| opt_provider := Some gemini; opt_maxTokens := None;
     opt_temperature := None |}.

End Llm.

(** *** The development query route: cosineSimilarity *)

Module TestQuery.

Section Numbers.

Import PrimFloat.
Local Open Scope float_scope.

(** The accumulators of the loop of [cosineSimilarity]. *)
Record Sums := { dotProduct : float; normA : float; normB : float }.

(** the body of [for (let i = 0; i < a.length; i++)] *)
Definition cosine_step (s : Sums) (ab : float * float) : Sums :=
  let (x, y) := ab in
  {| dotProduct := dotProduct s + x * y;
     normA := normA s + x * x;
     normB := normB s + y * y |}.

(** [cosineSimilarity], in binary64 arithmetic as [hashEmbedding] is: the
    loop runs over the indices of [a], and both arrays have the same
    length when it is reached.  [magnitude === 0] is the comparison of
    IEEE 754, under which [-0] equals [0] and [NaN] equals nothing. *)
Definition cosineSimilarity (a b : list float) : float :=
  if negb (length a =? length b)%nat then 0
  else
    let s := fold_left cosine_step (combine a b)
               {| dotProduct := 0; normA := 0; normB := 0 |} in
    let magnitude := sqrt (normA s) * sqrt (normB s) in
    if magnitude =? 0 then 0 else dotProduct s / magnitude.

(** The accumulators with the roles of the two arrays exchanged. *)
Definition exchanged (s : Sums) : Sums :=
  {| dotProduct := dotProduct s; normA := normB s; normB := normA s |}.

End Numbers.

End TestQuery.

(* ================================================================== *)
(** ** Further properties of the code, as predicates *)
(* ================================================================== *)

Module Shape.

Import Processor Rag Spec.

(** *** Texts *)

(** every white-space code unit of [s] is the plain space U+0020 *)
Definition plain_spaces (s : jsstring) : Prop :=
  Forall (fun c => is_space c = true -> c = 32%N) s.

(** a printable ASCII code unit *)
Definition printable (c : N) : Prop := (32 <= c <= 126)%N.

(** *** Sections *)

(** The sections lie end to end: each ends where the next starts, and the
    last ends at offset [len]. *)
Fixpoint tiled (len : Z) (sections : list SectionSpan) : Prop :=
  match sections with
  | [] => True
  | s :: rest =>
      match rest with
      | [] => sec_end s = len
      | s' :: _ => sec_end s = sec_start s' /\ tiled len rest
      end
  end.

(** [line] is the line of [text] that opened the section [s]: the text
    reads [line] from offset [sec_start s] up to a line break or its end,
    a heading pattern matches [line] with the section's clause number as
    capture, and the section's title is [line], trimmed and cut to 100
    code units. *)
Definition heading_at (text : jsstring) (s : SectionSpan) (line : jsstring)
  : Prop :=
  first_pattern SECTION_PATTERNS line = Some (sec_clauseNumber s)
  /\ sec_title s = Some (slice (trim line) 0 100)
  /\ exists tail,
       skipn (Z.to_nat (sec_start s)) text = line ++ tail
       /\ (tail = [] \/ exists r, tail = 10%N :: r).

(** The invariant of the loop of [identifySections] for one section, when
    the loop has reached offset [pos]. *)
Definition headed (text : jsstring) (pos : Z) (s : SectionSpan) : Prop :=
  exists line,
    heading_at text s line
    /\ (0 <= sec_start s)%Z
    /\ (sec_start s + jslength line < pos)%Z
    /\ (sec_start s + jslength line <= sec_end s <= jslength text)%Z.

(** *** Chunks *)

(** the content is not empty and has no white space at either end *)
Definition solid (c : DocumentChunk) : Prop :=
  content c <> [] /\ trim (content c) = content c.

(** the chunk carries the title, the clause number and the start offset
    of the section [s], and no page number *)
Definition labelled (s : SectionSpan) (c : DocumentChunk) : Prop :=
  section (metadata c) = sec_title s
  /\ clauseNumber (metadata c) = sec_clauseNumber s
  /\ startChar (metadata c) = sec_start s
  /\ pageNumber (metadata c) = None.

Definition unlabelled (c : DocumentChunk) : Prop :=
  section (metadata c) = None
  /\ clauseNumber (metadata c) = None
  /\ pageNumber (metadata c) = None.

Definition from_section (sections : list SectionSpan) (c : DocumentChunk)
  : Prop :=
  exists s, In s sections /\ labelled s c.

(** the identifiers are the ordinals [fresh], [fresh + 1], ... of the
    [uuidv4()] calls, in order *)
Definition ids_from (fresh : nat) (cs : list DocumentChunk) : Prop :=
  map id cs = seq fresh (length cs).

(** One sentence without a full stop, of 2001 code units (501 estimated
    tokens). *)
Definition oversized_sentence : jsstring := repeat 97%N 2001.

(** *** Tokens *)

(** [[a-z0-9]] *)
Definition word_unit (c : N) : bool := (is_lower c || is_digit c)%bool.

(** [wordFreq.get(word) || 0] *)
Definition freq_of (word : jsstring) (wordFreq : list (jsstring * Z)) : Z :=
  match find (fun entry => eqb (fst entry) word) wordFreq with
  | Some (_, freq) => freq
  | None => 0%Z
  end.

(** the number of occurrences of [word] in [words] *)
Definition occurrences (word : jsstring) (words : list jsstring) : Z :=
  Z.of_nat (length (filter (fun w => eqb w word) words)).

(** *** The pipeline *)

(** the payload the pipeline stores for the chunk at index [i] *)
Definition chunk_payload (documentId userId : jsstring) (c : DocumentChunk)
  (i : nat) : Payload :=
  {| p_content := Some (content c);
     p_documentId := Some documentId;
     p_userId := Some userId;
     p_chunkIndex := Some (Z.of_nat i);
     p_documentType := None;
     p_section := section (metadata c);
     p_pageNumber := pageNumber (metadata c);
     p_isCorpus := None |}.

Section Frames.

Variable Vec : Type.

(** nothing but the vector index (its points and the count of requests
    sent to it) differs between two worlds *)
Definition index_only (w w' : World Vec) : Prop :=
  quiet w w' /\ clock_reads w' = clock_reads w /\ uuid_calls w' = uuid_calls w.

(** a call of [chat] leaves the stores and the vector index alone and
    records at most the one request it makes *)
Definition llm_only (messages : list LLMMessage) (w w' : World Vec) : Prop :=
  same_store w w' /\ collection w' = collection w
  /\ qdrant_requests w' = qdrant_requests w
  /\ clock_reads w' = clock_reads w /\ uuid_calls w' = uuid_calls w
  /\ (llm_calls w' = llm_calls w \/ llm_calls w' = llm_calls w ++ [messages]).

End Frames.

(** Closes a goal [run = (r, w') -> P w w'] when [w'] differs from [w] in
    fields [P] does not read. *)
Ltac frame := intros H; injection H as _ <-; repeat split.

(** *** Concrete environments *)

(** [demo_env] without a vector index: [QDRANT_URL] is not set. *)
Definition offline_env (parser : Buffer -> Result PDFData) : Env unit :=
  {| embedder := fun _ => tt;
     has_supabase_env := true;
     has_qdrant_client := false;
     qdrant_fault_at := fun _ => None;
     qdrant_ranking := no_results;
     groq_client := groq_client (demo_env no_results parser);
     gemini_client := None;
     clock_at := clock_at (demo_env no_results parser);
     system_prompt := system_prompt (demo_env no_results parser);
     pdf_parser := parser;
     docx_parser := failing_extractRawText;
     utf8_decoder := latin1 |}.

(** [demo_env] without a generation provider: neither API key is set. *)
Definition mute_env (parser : Buffer -> Result PDFData) : Env unit :=
  {| embedder := fun _ => tt;
     has_supabase_env := true;
     has_qdrant_client := true;
     qdrant_fault_at := fun _ => None;
     qdrant_ranking := no_results;
     groq_client := None;
     gemini_client := None;
     clock_at := clock_at (demo_env no_results parser);
     system_prompt := system_prompt (demo_env no_results parser);
     pdf_parser := parser;
     docx_parser := failing_extractRawText;
     utf8_decoder := latin1 |}.

(** [demo_env] with two indexed results and without the Supabase
    environment. *)
Definition storeless_env : Env unit :=
  {| embedder := fun _ => tt;
     has_supabase_env := false;
     has_qdrant_client := true;
     qdrant_fault_at := fun _ => None;
     qdrant_ranking := two_results;
     groq_client := groq_client (demo_env two_results failing_pdfParse);
     gemini_client := None;
     clock_at := clock_at (demo_env two_results failing_pdfParse);
     system_prompt := system_prompt (demo_env two_results failing_pdfParse);
     pdf_parser := failing_pdfParse;
     docx_parser := failing_extractRawText;
     utf8_decoder := latin1 |}.

Definition lease_text : jsstring :=
  js "Section 1: Payment is due within 30 days.".

(** a collection holding one chunk of each of two documents *)
Definition two_documents : list (Point unit) :=
  [ {| pt_id := 1; pt_vector := tt;
       pt_payload := demo_payload (js "Payment is due.") None |};
    {| pt_id := 2; pt_vector := tt;
       pt_payload :=
         {| p_content := Some (js "Notice period."); p_documentId := Some (js "doc-2");
            p_userId := Some (js "user-1"); p_chunkIndex := Some 0%Z;
            p_documentType := None; p_section := None; p_pageNumber := None;
            p_isCorpus := None |} |} ].

(** a vector document of a third document *)
Definition new_vector : VectorDocument unit :=
  {| vd_id := 3; vd_content := js "Rent is due monthly."; embedding := tt;
     vd_metadata :=
       {| documentId := js "doc-3"; userId := js "user-1";
          vm_chunkIndex := 0; documentType := None; vm_section := None;
          vm_pageNumber := None; isCorpus := None |} |}.

Definition indexed_world : World unit :=
  {| documents := [demo_document]; document_chunks := []; queries := [];
     usage_tracking := []; documents_updates := [];
     collection := Some two_documents;
     qdrant_requests := 0; llm_calls := []; clock_reads := 0;
     uuid_calls := 0 |}.

End Shape.

(* ================================================================== *)
(** ** Theorems: the chunker *)
(* ================================================================== *)

Module ChunkerProofs.

Import Processor Spec.

(** *** C1 *)

Example scenario_text_single_line : split (js newline) scenario_text = [scenario_text].
Proof. reflexivity. Qed.

(** C1, as stated, fails: on the one-line scenario text the chunker does
    not find two sections numbered 1 and 2 and does not produce two
    chunks. *)
Lemma C1_scenario_not_two_sections :
  ~ sections_and_chunks scenario_text [Some (js "1"); Some (js "2")].
Proof.
  unfold sections_and_chunks. intros [H _].
  vm_compute in H. discriminate H.
Qed.

(** C1, amended: headings are recognised at the start of a line only.  On
    the one-line scenario text the chunker identifies exactly one section,
    with clause number 1 and within the size limit, and produces exactly
    one chunk; when the second heading starts its own line it identifies
    exactly two sections with clause numbers 1 and 2, each within the size
    limit, and produces exactly two chunks. *)
Theorem C1_scenario_sections :
  sections_and_chunks scenario_text [Some (js "1")]
  /\ sections_and_chunks scenario_lines [Some (js "1"); Some (js "2")].
Proof.
  split; unfold sections_and_chunks; (split; [| split]).
  - vm_compute. reflexivity.
  - vm_compute identifySections. repeat constructor; vm_compute; discriminate.
  - vm_compute. reflexivity.
  - vm_compute. reflexivity.
  - vm_compute identifySections. repeat constructor; vm_compute; discriminate.
  - vm_compute. reflexivity.
Qed.

(** In the pipeline the text is normalised before it is chunked, and
    [normalizeText] turns every line break into a space: the two-line text
    reaches the chunker as one line, with one section. *)
Example normalised_lines_one_section :
  normalizeText scenario_lines = scenario_text
  /\ length (identifySections (normalizeText scenario_lines)) = 1%nat.
Proof. vm_compute. split; reflexivity. Qed.

(** *** The string operations at work *)

Example normalizeText_example :
  normalizeText (js "  l agree   that" ++ [8230%N] ++ js " l" ++ js newline
                 ++ js "all 10" ++ [8211%N] ++ js "12 ")
  = js "I agree that... I all 10-12".
Proof. vm_compute. reflexivity. Qed.

Example splitIntoSentences_example :
  splitIntoSentences (js "Rent is due. Is it late?  Yes! see s.5 ")
  = [js "Rent is due."; js "Is it late?"; js "Yes!"; js "see s.5"].
Proof. vm_compute. reflexivity. Qed.

Example getOverlapText_example :
  getOverlapText (js "a b  c ") = js "a b c  " /\ getOverlapText [] = js " ".
Proof. vm_compute. split; reflexivity. Qed.

Example line_match_examples :
  first_pattern SECTION_PATTERNS (js "SECTION  12A. Rent") = Some (Some (js "12A"))
  /\ first_pattern SECTION_PATTERNS (js "Clause 4.2 applies") = Some (Some (js "4.2"))
  /\ first_pattern SECTION_PATTERNS (js "Order xiv") = Some (Some (js "xiv"))
  /\ first_pattern SECTION_PATTERNS (js "3. Term of the lease.") = Some (Some (js "Term of the lease"))
  /\ first_pattern SECTION_PATTERNS (js "IV. Notices") = Some None
  /\ first_pattern SECTION_PATTERNS (js "(ii) the tenant") = Some None
  /\ first_pattern SECTION_PATTERNS (js " Section 1") = None
  /\ first_pattern SECTION_PATTERNS (js "see Section 1") = None.
Proof. vm_compute. repeat split. Qed.

(** *** Loop invariants *)

Lemma fold_left_invariant {A B : Type} (P : A -> Prop) (f : A -> B -> A)
  (l : list B) (a : A) :
  P a -> (forall a b, P a -> P (f a b)) -> P (fold_left f l a).
Proof.
  intros Ha Hstep. revert a Ha.
  induction l as [| b l IH]; intros a Ha; simpl; auto.
Qed.

Lemma push_if_text_cases (st : Window) (c : DocumentChunk) :
  push_if_text st c = chunks st \/ push_if_text st c = chunks st ++ [c].
Proof.
  unfold push_if_text. destruct (is_nil (trim (currentChunk st))); auto.
Qed.

(** *** C9 *)

Lemma indices_from_zero_nil : indices_from_zero [].
Proof. reflexivity. Qed.

Lemma indices_from_zero_snoc (cs : list DocumentChunk) (c : DocumentChunk) :
  indices_from_zero cs ->
  chunkIndex c = Z.of_nat (length cs) ->
  indices_from_zero (cs ++ [c]).
Proof.
  unfold indices_from_zero. intros Hcs Hc.
  rewrite map_app, length_app, Nat.add_1_r, seq_S, map_app, Hcs.
  simpl. now rewrite Hc.
Qed.

Lemma push_if_text_indices (st : Window) (c : DocumentChunk) :
  indices_from_zero (chunks st) ->
  chunkIndex c = Z.of_nat (length (chunks st)) ->
  indices_from_zero (push_if_text st c).
Proof.
  intros Hst Hc.
  destruct (push_if_text_cases st c) as [-> | ->]; auto.
  now apply indices_from_zero_snoc.
Qed.

Lemma slidingWindowChunk_step_indices (fresh : nat) (st : Window)
  (sentence : jsstring) :
  indices_from_zero (chunks st) ->
  indices_from_zero (chunks (slidingWindowChunk_step fresh st sentence)).
Proof.
  intros Hst. unfold slidingWindowChunk_step.
  destruct (_ >? _)%Z; simpl; auto.
  now apply push_if_text_indices.
Qed.

Lemma slidingWindowChunk_indices (text : jsstring) (fresh : nat) :
  indices_from_zero (slidingWindowChunk text fresh).
Proof.
  unfold slidingWindowChunk.
  apply push_if_text_indices; [| reflexivity].
  apply (fold_left_invariant (fun st => indices_from_zero (chunks st))).
  - apply indices_from_zero_nil.
  - intros st s. apply slidingWindowChunk_step_indices.
Qed.

Lemma push_reindexed_indices (cs : list DocumentChunk) (sub : DocumentChunk) :
  indices_from_zero cs -> indices_from_zero (push_reindexed cs sub).
Proof.
  intros Hcs. unfold push_reindexed.
  now apply indices_from_zero_snoc.
Qed.

Lemma chunkDocument_step_indices (text : jsstring) (fresh : nat)
  (cs : list DocumentChunk) (section : SectionSpan) :
  indices_from_zero cs ->
  indices_from_zero (chunkDocument_step text fresh cs section).
Proof.
  intros Hcs. unfold chunkDocument_step.
  destruct (_ <=? _)%Z.
  - now apply indices_from_zero_snoc.
  - apply (fold_left_invariant indices_from_zero); auto.
    intros a b. apply push_reindexed_indices.
Qed.

Lemma section_path_indices (text : jsstring) (fresh : nat)
  (sections : list SectionSpan) :
  indices_from_zero (fold_left (chunkDocument_step text fresh) sections []).
Proof.
  apply (fold_left_invariant indices_from_zero).
  - apply indices_from_zero_nil.
  - intros a b. apply chunkDocument_step_indices.
Qed.

(** C9: for every text, the i-th chunk returned by [chunkDocument] has
    [chunkIndex] i: the indices are 0, 1, 2, ... in order, both when the
    chunks come from the section loop and when they come from the
    sliding-window fallback. *)
Theorem C9_chunk_indices_contiguous (text : jsstring) (fresh : nat) :
  indices_from_zero (chunkDocument text fresh)
  /\ indices_from_zero (slidingWindowChunk text fresh)
  /\ indices_from_zero
       (fold_left (chunkDocument_step text fresh) (identifySections text) []).
Proof.
  split; [| split].
  - unfold chunkDocument. destruct (_ =? _)%nat.
    + apply slidingWindowChunk_indices.
    + apply section_path_indices.
  - apply slidingWindowChunk_indices.
  - apply section_path_indices.
Qed.

(** *** C2 *)

Lemma dropWhile_length (p : N -> bool) (s : jsstring) :
  (length (dropWhile p s) <= length s)%nat.
Proof.
  induction s as [| c t IH]; simpl; [lia |].
  destruct (p c); simpl; lia.
Qed.

Lemma trim_length (s : jsstring) : (length (trim s) <= length s)%nat.
Proof.
  unfold trim, trimEnd, trimStart.
  rewrite length_rev.
  etransitivity; [apply dropWhile_length |].
  rewrite length_rev. apply dropWhile_length.
Qed.

Lemma estimateTokens_trim (s : jsstring) :
  (estimateTokens (trim s) <= estimateTokens s)%Z.
Proof.
  unfold estimateTokens, jslength.
  apply Z.div_le_mono; [lia |].
  pose proof (trim_length s). lia.
Qed.

Lemma fold_left_invariant_in {A B : Type} (P : A -> Prop) (f : A -> B -> A)
  (l : list B) (a : A) :
  P a -> (forall a b, In b l -> P a -> P (f a b)) -> P (fold_left f l a).
Proof.
  revert a. induction l as [| b l IH]; intros a Ha Hstep; simpl; auto.
  apply IH.
  - apply Hstep; [now left | exact Ha].
  - intros a' b' Hin. apply Hstep. now right.
Qed.

Lemma estimateTokens_ceiling (text : jsstring) :
  (4 * (estimateTokens text - 1) < jslength text <= 4 * estimateTokens text)%Z.
Proof.
  unfold estimateTokens.
  pose proof (Z.div_mod (jslength text + 3) 4 ltac:(lia)) as Hdiv.
  pose proof (Z.mod_pos_bound (jslength text + 3) 4 ltac:(lia)) as Hmod.
  lia.
Qed.

Lemma overlapWords_length (previous : jsstring) :
  (length (overlapWords previous) <= 50)%nat.
Proof.
  unfold overlapWords, chunkOverlap. rewrite length_skipn. lia.
Qed.

Lemma getOverlapText_words (previous : jsstring) :
  getOverlapText previous = join (js " ") (overlapWords previous) ++ js " ".
Proof. reflexivity. Qed.

Lemma fold_left_prefix_invariant {A B : Type} (P : list B -> A -> Prop)
  (f : A -> B -> A) (l : list B) (a : A) :
  P [] a ->
  (forall done b todo a,
     l = done ++ b :: todo -> P done a -> P (done ++ [b]) (f a b)) ->
  P l (fold_left f l a).
Proof.
  intros Ha Hstep.
  assert (H : forall todo done a,
            l = done ++ todo -> P done a -> P l (fold_left f todo a)).
  { induction todo as [| b todo IH]; intros done a0 Hl Hdone.
    - rewrite app_nil_r in Hl. subst done. exact Hdone.
    - cbn [fold_left]. apply (IH (done ++ [b])).
      + rewrite <- app_assoc. exact Hl.
      + now apply Hstep with todo. }
  now apply (H l []).
Qed.

Lemma buffer_after_snoc (done : list jsstring) (sentence : jsstring) :
  buffer_after (done ++ [sentence])
  = next_buffer (buffer_after done) sentence.
Proof. unfold buffer_after. now rewrite fold_left_app. Qed.

(** Both loops update their buffer as [next_buffer] does. *)
Lemma slidingWindowChunk_step_buffer (fresh : nat) (st : Window)
  (sentence : jsstring) :
  currentChunk (slidingWindowChunk_step fresh st sentence)
  = next_buffer (currentChunk st) sentence.
Proof.
  unfold slidingWindowChunk_step, next_buffer.
  now destruct (_ >? _)%Z.
Qed.

Lemma splitLargeSection_step_buffer (section : SectionSpan) (fresh : nat)
  (st : Window) (sentence : jsstring) :
  currentChunk (splitLargeSection_step section fresh st sentence)
  = next_buffer (currentChunk st) sentence.
Proof.
  unfold splitLargeSection_step, next_buffer.
  now destruct (_ >? _)%Z.
Qed.

(** The chunk made of the buffer, when the loop has gone through [done]
    and [todo] is left. *)
Lemma chunk_of_buffer (done todo : list jsstring) (st : Window)
  (c : DocumentChunk) :
  window_ok (done ++ todo) done st -> content c = trim (currentChunk st) ->
  within_limit_or_restart (done ++ todo) c.
Proof.
  intros (Hbuf & _ & [Hle | (before & sentence & -> & Hgt)]) Hc.
  - left. rewrite Hc. pose proof (estimateTokens_trim (currentChunk st)). lia.
  - right. exists before, sentence, todo.
    split; [now rewrite <- app_assoc |].
    split; [exact Hgt |]. split; [apply overlapWords_length |].
    rewrite Hc, Hbuf, buffer_after_snoc. unfold next_buffer.
    apply Z.gtb_gt in Hgt. rewrite Hgt.
    rewrite getOverlapText_words, <- app_assoc. reflexivity.
Qed.

Lemma push_if_text_ok (done todo : list jsstring) (st : Window)
  (c : DocumentChunk) :
  window_ok (done ++ todo) done st -> content c = trim (currentChunk st) ->
  Forall (within_limit_or_restart (done ++ todo)) (push_if_text st c).
Proof.
  intros Hst Hc.
  destruct (push_if_text_cases st c) as [-> | ->]; [apply Hst |].
  apply Forall_app. split; [apply Hst |].
  constructor; [| constructor].
  now apply chunk_of_buffer with (st := st).
Qed.

Lemma window_ok_init (sentences : list jsstring) (start : Z) :
  window_ok sentences []
    {| chunks := []; currentChunk := []; chunkStart := start;
       currentStart := 0 |}.
Proof.
  split; [reflexivity |]. split; [constructor |].
  left. vm_compute. discriminate.
Qed.

(** One iteration keeps the invariant, whatever it does to the fields
    other than the buffer and the chunks. *)
Lemma window_ok_step (done todo : list jsstring) (sentence : jsstring)
  (st st' : Window) (c : DocumentChunk) :
  window_ok (done ++ sentence :: todo) done st ->
  content c = trim (currentChunk st) ->
  currentChunk st' = next_buffer (currentChunk st) sentence ->
  chunks st'
  = (if (estimateTokens (currentChunk st ++ sentence ++ js " ")
         >? maxChunkSize)%Z
     then push_if_text st c else chunks st) ->
  window_ok (done ++ sentence :: todo) (done ++ [sentence]) st'.
Proof.
  intros Hst Hc Hbuf Hchunks.
  assert (Hcur : currentChunk st = buffer_after done) by apply Hst.
  split; [| split].
  - now rewrite Hbuf, buffer_after_snoc, Hcur.
  - rewrite Hchunks. destruct (_ >? _)%Z; [| apply Hst].
    now apply push_if_text_ok.
  - rewrite Hbuf. unfold next_buffer.
    destruct (_ >? _)%Z eqn:Hgt.
    + right. exists done, sentence. split; [reflexivity |].
      rewrite <- Hcur. now apply Z.gtb_gt.
    + left. rewrite Z.gtb_ltb in Hgt. now apply Z.ltb_ge in Hgt.
Qed.

Lemma slidingWindowChunk_ok (text : jsstring) (fresh : nat) :
  Forall (within_limit_or_restart (splitIntoSentences text))
    (slidingWindowChunk text fresh).
Proof.
  unfold slidingWindowChunk.
  set (sentences := splitIntoSentences text).
  rewrite <- (app_nil_r sentences) at 1.
  apply push_if_text_ok; [| reflexivity]. rewrite app_nil_r.
  apply (fold_left_prefix_invariant (window_ok sentences)).
  - apply window_ok_init.
  - intros done s todo st -> Hst.
    eapply window_ok_step;
      [exact Hst | | apply slidingWindowChunk_step_buffer
       | unfold slidingWindowChunk_step; cbv zeta;
         now destruct (_ >? _)%Z].
    reflexivity.
Qed.

Lemma splitLargeSection_ok (sectionText : jsstring) (section : SectionSpan)
  (fresh : nat) :
  Forall (within_limit_or_restart (splitIntoSentences sectionText))
    (splitLargeSection sectionText section fresh).
Proof.
  unfold splitLargeSection.
  set (sentences := splitIntoSentences sectionText).
  rewrite <- (app_nil_r sentences) at 1.
  apply push_if_text_ok; [| reflexivity]. rewrite app_nil_r.
  apply (fold_left_prefix_invariant (window_ok sentences)).
  - apply window_ok_init.
  - intros done s todo st -> Hst.
    eapply window_ok_step;
      [exact Hst | | apply splitLargeSection_step_buffer
       | unfold splitLargeSection_step; cbv zeta;
         now destruct (_ >? _)%Z].
    reflexivity.
Qed.

(** From a loop to the document. *)
Lemma chunk_ok_of_loop (text : jsstring) (sentences : list jsstring)
  (c : DocumentChunk) :
  loop_of text sentences ->
  within_limit_or_restart sentences c -> chunk_ok text c.
Proof.
  intros Hloop [Hle | Hrestart]; [now left |].
  right. now exists sentences.
Qed.

Lemma push_reindexed_all_ok (text : jsstring) (subs cs : list DocumentChunk) :
  Forall (chunk_ok text) subs ->
  Forall (chunk_ok text) cs ->
  Forall (chunk_ok text) (fold_left push_reindexed subs cs).
Proof.
  intros Hsubs. revert cs.
  induction Hsubs as [| sub subs Hsub _ IH]; intros cs Hcs; simpl; auto.
  apply IH. unfold push_reindexed.
  apply Forall_app. split; [assumption |].
  constructor; [exact Hsub | constructor].
Qed.

Lemma chunkDocument_step_ok (text : jsstring) (fresh : nat)
  (cs : list DocumentChunk) (section : SectionSpan) :
  In section (identifySections text) ->
  Forall (chunk_ok text) cs ->
  Forall (chunk_ok text) (chunkDocument_step text fresh cs section).
Proof.
  intros Hsec Hcs. unfold chunkDocument_step.
  destruct (_ <=? _)%Z eqn:Hle.
  - apply Forall_app. split; auto.
    constructor; [| constructor].
    left. simpl. apply Z.leb_le in Hle.
    etransitivity; [apply estimateTokens_trim | exact Hle].
  - apply push_reindexed_all_ok; auto.
    eapply Forall_impl; [| apply splitLargeSection_ok].
    intros c. apply chunk_ok_of_loop.
    right. exists section. split; [exact Hsec |].
    split; [| reflexivity]. apply Z.leb_gt in Hle. lia.
Qed.

Lemma chunkDocument_ok (text : jsstring) (fresh : nat) :
  Forall (chunk_ok text) (chunkDocument text fresh).
Proof.
  unfold chunkDocument. destruct (_ =? _)%nat eqn:Hnone.
  - eapply Forall_impl; [| apply slidingWindowChunk_ok].
    intros c. apply chunk_ok_of_loop.
    left. split; [| reflexivity].
    apply Nat.eqb_eq in Hnone. now apply length_zero_iff_nil.
  - apply (fold_left_invariant_in (Forall (chunk_ok text))).
    + constructor.
    + intros a b Hin. now apply chunkDocument_step_ok.
Qed.

(** The exception of [chunk_ok] is tied to the run: a chunk over the
    limit that is not a restarted buffer of a loop over the text is
    refused, although it ends with a sentence of the text. *)
Example foreign_chunk_refused : ~ chunk_ok (js "Hello.") foreign_chunk.
Proof.
  intros [Hle | (sentences & Hloop & before & sentence & after & Hsplit
                 & Hgt & _)].
  - vm_compute in Hle. now apply Hle.
  - destruct Hloop as [[_ ->] | (sec & Hsec & _)];
      [| vm_compute in Hsec; exact Hsec].
    destruct before as [| s before].
    + injection Hsplit as <- _. vm_compute in Hgt. discriminate Hgt.
    + injection Hsplit as _ Hrest. now destruct before.
Qed.

Example overlap_overflow_estimates :
  map estimateTokens (splitIntoSentences overlap_overflow_text) = [500; 25]%Z
  /\ map (fun c => estimateTokens (content c))
       (chunkDocument overlap_overflow_text 0) = [500; 516]%Z
  /\ map (fun c => jslength (content c))
       (chunkDocument overlap_overflow_text 0) = [1999; 2061]%Z.
Proof. vm_compute. repeat split. Qed.

(** C2, as stated, fails: [overlap_overflow_text] has two sentences of
    500 and 25 estimated tokens, so no sentence alone exceeds the limit,
    and its second chunk, the overlap of the first followed by the second
    sentence, has 516. *)
Lemma C2_overlap_exceeds_limit : ~ size_bound_as_stated overlap_overflow_text.
Proof.
  intros H.
  assert (Hlen : length (chunkDocument overlap_overflow_text 0) = 2%nat)
    by (vm_compute; reflexivity).
  set (d := {| id := 0; content := []; chunkIndex := 0;
               metadata := {| section := None; clauseNumber := None;
                              pageNumber := None; startChar := 0;
                              endChar := 0 |} |}).
  assert (Hin : In (nth 1 (chunkDocument overlap_overflow_text 0) d)
                  (chunkDocument overlap_overflow_text 0))
    by (apply nth_In; rewrite Hlen; lia).
  destruct (H _ Hin) as [Hle | (s & Hs & Hgt)].
  - vm_compute in Hle. apply Hle. reflexivity.
  - assert (Hall : forallb (fun s => (estimateTokens s <=? maxChunkSize)%Z)
                     (splitIntoSentences overlap_overflow_text) = true)
      by (vm_compute; reflexivity).
    destruct Hs as [Hs | (sec & Hsec & _)].
    + rewrite forallb_forall in Hall. apply Hall in Hs.
      apply Z.leb_le in Hs. lia.
    + assert (Hnone : identifySections overlap_overflow_text = [])
        by (vm_compute; reflexivity).
      rewrite Hnone in Hsec. destruct Hsec.
Qed.

(** C2, amended: every chunk emitted by [chunkDocument] has an estimated
    token count of at most [maxChunkSize], except a chunk that is the
    overlap carried over from the previous buffer (its last words, at most
    50) followed by one sentence of the text that the previous buffer
    could not take, which is emitted whatever its size; the previous
    buffer is the one the loop held after the sentences before that one
    ([buffer_after], which follows [currentChunk] in both loops).  And an
    estimate of exactly [maxChunkSize] is accepted without a split: a
    section of that size becomes one chunk, and a buffer that reaches that
    size with the next sentence is kept open with the sentence added. *)
Theorem C2_chunk_size (text : jsstring) (fresh : nat) :
  Forall (chunk_ok text) (chunkDocument text fresh)
  /\ (forall st sentence,
        currentChunk (slidingWindowChunk_step fresh st sentence)
        = next_buffer (currentChunk st) sentence)
  /\ (forall section st sentence,
        currentChunk (splitLargeSection_step section fresh st sentence)
        = next_buffer (currentChunk st) sentence)
  /\ (forall cs section,
        estimateTokens (slice text (sec_start section) (sec_end section))
        = maxChunkSize ->
        exists c,
          chunkDocument_step text fresh cs section = cs ++ [c]
          /\ content c
             = trim (slice text (sec_start section) (sec_end section)))
  /\ (forall st sentence,
        estimateTokens (currentChunk st ++ sentence ++ js " ") = maxChunkSize ->
        chunks (slidingWindowChunk_step fresh st sentence) = chunks st
        /\ currentChunk (slidingWindowChunk_step fresh st sentence)
           = currentChunk st ++ sentence ++ js " ")
  /\ (forall section st sentence,
        estimateTokens (currentChunk st ++ sentence ++ js " ") = maxChunkSize ->
        chunks (splitLargeSection_step section fresh st sentence) = chunks st
        /\ currentChunk (splitLargeSection_step section fresh st sentence)
           = currentChunk st ++ sentence ++ js " ").
Proof.
  split; [apply chunkDocument_ok |].
  split; [intros st sentence; apply slidingWindowChunk_step_buffer |].
  split; [intros section st sentence; apply splitLargeSection_step_buffer |].
  split; [| split].
  - intros cs section Heq. unfold chunkDocument_step.
    rewrite Heq. simpl. eexists. split; reflexivity.
  - intros st sentence Heq. unfold slidingWindowChunk_step.
    rewrite Heq. simpl. split; reflexivity.
  - intros section st sentence Heq. unfold splitLargeSection_step.
    rewrite Heq. simpl. split; reflexivity.
Qed.

(** C2 at concrete inputs: the chunks of [overlap_overflow_text], whose
    second chunk is the restarted buffer of its loop; the section of
    [boundary_text] (exactly 500 estimated tokens); and a buffer of 1996
    code units that a sentence of 3 brings to 500. *)
Lemma C2_chunk_size_witness :
  Forall (chunk_ok overlap_overflow_text)
    (chunkDocument overlap_overflow_text 0)
  /\ (exists c,
        chunkDocument_step boundary_text 0 []
          {| sec_start := 0; sec_end := 2000; sec_title := None;
             sec_clauseNumber := None |} = [] ++ [c]
        /\ content c = trim (slice boundary_text 0 2000))
  /\ chunks (slidingWindowChunk_step 0
               {| chunks := []; currentChunk := repeat 97%N 1996;
                  chunkStart := 0; currentStart := 0 |} (js "abc")) = [].
Proof.
  pose proof (C2_chunk_size overlap_overflow_text 0) as [H1 _].
  pose proof (C2_chunk_size boundary_text 0) as (_ & _ & _ & H2 & H3 & _).
  split; [exact H1 |]. split.
  - apply (H2 [] {| sec_start := 0; sec_end := 2000; sec_title := None;
                    sec_clauseNumber := None |}).
    vm_compute. reflexivity.
  - apply (H3 {| chunks := []; currentChunk := repeat 97%N 1996;
                 chunkStart := 0; currentStart := 0 |} (js "abc")).
    vm_compute. reflexivity.
Defined.

(** The second chunk of [overlap_overflow_text] is the one exception of
    its run: the overlap of the buffer that held the first sentence,
    followed by the second sentence. *)
Example overlap_overflow_restart :
  buffer_after [long_words] = long_words ++ js " "
  /\ map content (chunkDocument overlap_overflow_text 0)
     = [long_words;
        trim (getOverlapText (buffer_after [long_words])
              ++ short_sentence ++ js " ")].
Proof. vm_compute. split; reflexivity. Qed.

End ChunkerProofs.

(* ================================================================== *)
(** ** Theorems: text extraction *)
(* ================================================================== *)

Module ExtractionProofs.

Import Processor Spec.

Example damaged_bytes_recovered :
  extractTextFromPDFBuffer damaged_bytes
  = js "This agreement is made between the two parties named here.".
Proof. vm_compute. reflexivity. Qed.

(** C4, as stated, fails for DOCX: with a failing parser and a byte stream
    from which the printable-text scan recovers 58 code units, extraction
    of a [docx] file still fails. *)
Lemma C4_docx_has_no_fallback :
  ~ fallback_as_stated failing_pdfParse failing_extractRawText no_utf8
      damaged_bytes (js "docx") (js "contract.docx").
Proof.
  unfold fallback_as_stated. cbv zeta. intros H.
  assert (Hfails : is_docx (js "docx") = true
                   /\ exists e, failing_extractRawText damaged_bytes = Throw e).
  { split; [reflexivity |]. eexists. reflexivity. }
  destruct (H (or_intror Hfails)) as [Hok _].
  assert (Hlong : (50 < jslength (extractTextFromPDFBuffer damaged_bytes))%Z)
    by (vm_compute; reflexivity).
  specialize (Hok Hlong).
  vm_compute in Hok. discriminate Hok.
Qed.

(** C4, amended: for a PDF input whose primary parser fails, [extractText]
    runs the printable-text fallback before it throws: extraction succeeds
    with the recovered text exactly when that text has more than 50 code
    units, and fails otherwise.  For a DOCX input whose parser fails there
    is no fallback: extraction fails whatever the bytes are. *)
Theorem C4_fallback_for_pdf_only (pdfParse : Buffer -> Result PDFData)
  (extractRawText : Buffer -> Result jsstring) (utf8 : Buffer -> jsstring)
  (buffer : Buffer) (fileType filename : jsstring) :
  (is_pdf fileType = true -> (exists e, pdfParse buffer = Throw e) ->
   extractText pdfParse extractRawText utf8 buffer fileType filename
   = if (50 <? jslength (extractTextFromPDFBuffer buffer))%Z
     then Ok (recovered (extractTextFromPDFBuffer buffer))
     else Throw (js "Failed to extract text from PDF. Try uploading a TXT or DOCX file instead."))
  /\ (is_docx fileType = true -> (exists e, extractRawText buffer = Throw e) ->
      extractText pdfParse extractRawText utf8 buffer fileType filename
      = Throw (js "Failed to extract text from DOCX")).
Proof.
  split.
  - intros Hpdf [e He]. unfold is_pdf in Hpdf.
    unfold extractText. cbv zeta. rewrite Hpdf. unfold extractFromPDF. rewrite He.
    destruct (extractTextFromPDFBuffer buffer) as [| c t] eqn:Hfb.
    + reflexivity.
    + reflexivity.
  - intros Hdocx [e He]. unfold is_docx in Hdocx.
    unfold extractText. cbv zeta.
    destruct (eqb (toLowerCase fileType) (js "pdf")
              || eqb (toLowerCase fileType) (js "application/pdf"))%bool
      eqn:Hpdf.
    + exfalso.
      apply Bool.orb_true_iff in Hpdf. apply Bool.orb_true_iff in Hdocx.
      assert (Heq : forall a b, eqb a b = true -> a = b).
      { induction a as [| x a IH]; intros [| y b]; simpl; try discriminate.
        - reflexivity.
        - intros Hab. apply Bool.andb_true_iff in Hab. destruct Hab as [Hx Hab'].
          apply N.eqb_eq in Hx. f_equal; auto. }
      destruct Hpdf as [Hp | Hp]; apply Heq in Hp;
        destruct Hdocx as [Hd | Hd]; apply Heq in Hd;
        rewrite Hp in Hd; vm_compute in Hd; discriminate Hd.
    + rewrite Hdocx. unfold extractFromDOCX. rewrite He. reflexivity.
Qed.

(** C4 at concrete inputs: the damaged byte stream as a PDF (recovered),
    an empty byte stream as a PDF (fails), and the damaged byte stream as a
    DOCX (fails). *)
Lemma C4_fallback_for_pdf_only_witness :
  extractText failing_pdfParse failing_extractRawText no_utf8
    damaged_bytes (js "PDF") (js "contract.pdf")
  = Ok (recovered
          (js "This agreement is made between the two parties named here."))
  /\ extractText failing_pdfParse failing_extractRawText no_utf8
       [] (js "application/pdf") (js "empty.pdf")
     = Throw (js "Failed to extract text from PDF. Try uploading a TXT or DOCX file instead.")
  /\ extractText failing_pdfParse failing_extractRawText no_utf8
       damaged_bytes (js "docx") (js "contract.docx")
     = Throw (js "Failed to extract text from DOCX").
Proof.
  split; [| split].
  - destruct (C4_fallback_for_pdf_only failing_pdfParse failing_extractRawText
                no_utf8 damaged_bytes (js "PDF") (js "contract.pdf"))
      as [H _].
    rewrite H.
    + vm_compute. reflexivity.
    + vm_compute. reflexivity.
    + eexists. reflexivity.
  - destruct (C4_fallback_for_pdf_only failing_pdfParse failing_extractRawText
                no_utf8 [] (js "application/pdf") (js "empty.pdf"))
      as [H _].
    rewrite H.
    + vm_compute. reflexivity.
    + vm_compute. reflexivity.
    + eexists. reflexivity.
  - destruct (C4_fallback_for_pdf_only failing_pdfParse failing_extractRawText
                no_utf8 damaged_bytes (js "docx") (js "contract.docx"))
      as [_ H].
    apply H.
    + vm_compute. reflexivity.
    + eexists. reflexivity.
Defined.

End ExtractionProofs.

(* ================================================================== *)
(** ** Theorems: white-space-only text *)
(* ================================================================== *)

Module BlankProofs.

Import Processor Spec.

Lemma is_space_units (c : N) : is_space c = true -> In c space_units.
Proof.
  unfold is_space, in_range. intros H.
  repeat rewrite Bool.orb_true_iff in H.
  repeat rewrite Bool.andb_true_iff in H.
  repeat rewrite N.eqb_eq in H.
  repeat rewrite N.leb_le in H.
  unfold space_units, In. lia.
Qed.

Lemma blank_tail (c : N) (s : jsstring) : blank (c :: s) -> blank s.
Proof. intros H. now inversion H. Qed.

Lemma blank_head (c : N) (s : jsstring) : blank (c :: s) -> is_space c = true.
Proof. intros H. now inversion H. Qed.

Lemma blank_rev (s : jsstring) : blank s -> blank (rev s).
Proof. apply Forall_rev. Qed.

Lemma dropWhile_blank (s : jsstring) : blank s -> dropWhile is_space s = [].
Proof.
  induction 1 as [| c t Hc _ IH]; simpl; [reflexivity |].
  now rewrite Hc.
Qed.

Lemma trim_blank (s : jsstring) : blank s -> trim s = [].
Proof.
  intros H. unfold trim, trimStart, trimEnd.
  rewrite (dropWhile_blank H). reflexivity.
Qed.

(** No heading pattern matches at a white-space code unit, nor at the end
    of the string. *)
Lemma patterns_need_text (pattern : jsstring -> option Capture) :
  In pattern SECTION_PATTERNS ->
  pattern [] = None
  /\ forall c t, is_space c = true -> pattern (c :: t) = None.
Proof.
  intros Hin. split.
  - unfold SECTION_PATTERNS, In in Hin.
    repeat (destruct Hin as [<- | Hin]; [reflexivity |]). destruct Hin.
  - intros c t Hc.
    unfold SECTION_PATTERNS, In in Hin.
    repeat (destruct Hin as [<- | Hin];
            [apply is_space_units in Hc; each_space_unit c Hc; reflexivity |]).
    destruct Hin.
Qed.

Lemma search_m_blank (pattern : jsstring -> option Capture) (s : jsstring)
  (at_start : bool) :
  In pattern SECTION_PATTERNS -> blank s ->
  search_m pattern at_start s = None.
Proof.
  intros Hin Hs. destruct (patterns_need_text Hin) as [Hnil Hcons].
  revert at_start.
  induction Hs as [| c t Hc _ IH]; intros at_start.
  - simpl. destruct at_start; [rewrite Hnil |]; reflexivity.
  - simpl. destruct at_start; [rewrite (Hcons c t Hc) |]; apply IH.
Qed.

Lemma first_pattern_blank (line : jsstring) :
  blank line -> first_pattern SECTION_PATTERNS line = None.
Proof.
  intros Hline.
  assert (H : forall ps, incl ps SECTION_PATTERNS ->
                         first_pattern ps line = None).
  { induction ps as [| p ps IH]; intros Hincl; simpl; [reflexivity |].
    unfold line_match. rewrite search_m_blank; auto.
    - apply IH. intros q Hq. apply Hincl. now right.
    - apply Hincl. now left. }
  apply H. apply incl_refl.
Qed.

Lemma split_go_blank (sep : jsstring) (s : jsstring) :
  blank s -> forall skip cur, blank cur ->
  Forall blank (split_go sep skip cur s).
Proof.
  induction 1 as [| c t Hc Ht IH]; intros skip cur Hcur; simpl.
  - constructor; [now apply blank_rev | constructor].
  - destruct skip as [| k].
    + destruct (lit sep (c :: t)).
      * constructor; [now apply blank_rev |]. apply IH. constructor.
      * apply IH. now constructor.
    + now apply IH.
Qed.

Lemma split_blank (sep s : jsstring) : blank s -> Forall blank (split sep s).
Proof. intros H. apply split_go_blank; [exact H | constructor]. Qed.

Lemma identifySections_loop_blank (text : jsstring) (lines : list jsstring) :
  Forall blank lines -> forall sections pos,
  identifySections_loop text lines sections pos = sections.
Proof.
  induction 1 as [| line rest Hline _ IH]; intros sections pos.
  - reflexivity.
  - cbn [identifySections_loop].
    rewrite (first_pattern_blank Hline). apply IH.
Qed.

Lemma identifySections_blank (text : jsstring) :
  blank text -> identifySections text = [].
Proof.
  intros H. unfold identifySections.
  apply identifySections_loop_blank. now apply split_blank.
Qed.

(** A global replacement whose pattern cannot match inside white space,
    or whose replacement text is white space, keeps a blank string
    blank. *)
Lemma replace_go_blank (m : jsstring -> option (jsstring * nat)) :
  (forall s out k, blank s -> m s = Some (out, k) -> blank out) ->
  forall s, blank s -> forall skip, blank (replace_go m skip s).
Proof.
  intros Hm. induction 1 as [| c t Hc Ht IH]; intros skip; simpl.
  - constructor.
  - destruct skip as [| k]; [| apply IH].
    destruct (m (c :: t)) as [[out consumed] |] eqn:Hmatch.
    + apply Forall_app. split; [| apply IH].
      apply (Hm (c :: t) out consumed); [now constructor | exact Hmatch].
    + constructor; [exact Hc | apply IH].
Qed.

Lemma sentence_end_blank (s out : jsstring) (k : nat) :
  blank s -> sentence_end s = Some (out, k) -> blank out.
Proof.
  intros Hs. destruct s as [| c t]; simpl; [discriminate |].
  apply blank_head in Hs. apply is_space_units in Hs.
  each_space_unit c Hs; simpl; discriminate.
Qed.

Lemma marker_capital_blank (s out : jsstring) (k : nat) :
  blank s -> marker_capital s = Some (out, k) -> blank out.
Proof.
  intros Hs. destruct s as [| c t]; [discriminate |].
  apply blank_head in Hs. unfold marker_capital.
  apply is_space_units in Hs. each_space_unit c Hs; simpl; discriminate.
Qed.

Lemma space_run_blank (s out : jsstring) (k : nat) :
  blank s -> space_run s = Some (out, k) -> blank out.
Proof.
  intros _. unfold space_run.
  destruct (span is_space s) as [ws r]. destruct (is_nil ws); [discriminate |].
  intros H. injection H as <- _. repeat constructor.
Qed.

Lemma one_char_blank (c : N) (replacement s out : jsstring) (k : nat) :
  is_space c = false ->
  blank s -> one_char c replacement s = Some (out, k) -> blank out.
Proof.
  intros Hc Hs. destruct s as [| d t]; simpl; [discriminate |].
  apply blank_head in Hs.
  destruct (N.eqb d c) eqn:Hd; [| discriminate].
  apply N.eqb_eq in Hd. subst d. congruence.
Qed.

Lemma replace_lone_l_blank (s : jsstring) :
  blank s -> forall prev, replace_lone_l prev s = s.
Proof.
  induction 1 as [| c t Hc _ IH]; intros prev; simpl; [reflexivity |].
  assert (Hl : N.eqb c 108 = false).
  { destruct (N.eqb c 108) eqn:E; [| reflexivity].
    apply N.eqb_eq in E. subst c. discriminate Hc. }
  rewrite Hl. simpl. now rewrite IH.
Qed.

Lemma normalizeText_blank (text : jsstring) :
  blank text -> normalizeText text = [].
Proof.
  intros H. unfold normalizeText, replace_all.
  apply trim_blank.
  rewrite (replace_lone_l_blank H).
  repeat (apply replace_go_blank;
          [ first [ apply space_run_blank
                  | intros s out k; apply one_char_blank; reflexivity ] |]).
  exact H.
Qed.

Lemma blank_pieces_vanish (pieces : list jsstring) :
  Forall blank pieces ->
  filter (fun s => (0 <? jslength s)%Z) (map trim pieces) = [].
Proof.
  induction 1 as [| p rest Hp _ IH]; simpl; [reflexivity |].
  rewrite (trim_blank Hp). simpl. exact IH.
Qed.

Lemma splitIntoSentences_blank (text : jsstring) :
  blank text -> splitIntoSentences text = [].
Proof.
  intros H. unfold splitIntoSentences, replace_all.
  apply blank_pieces_vanish. apply split_blank.
  apply replace_go_blank; [apply marker_capital_blank |].
  apply replace_go_blank; [apply sentence_end_blank | exact H].
Qed.

Lemma chunkDocument_blank (text : jsstring) (fresh : nat) :
  blank text -> chunkDocument text fresh = [].
Proof.
  intros H. unfold chunkDocument.
  rewrite (identifySections_blank H). simpl.
  unfold slidingWindowChunk. rewrite (splitIntoSentences_blank H).
  reflexivity.
Qed.

End BlankProofs.

(* ================================================================== *)
(** ** Theorems: the pipeline *)
(* ================================================================== *)

Module PipelineProofs.

Import Processor Rag Spec BlankProofs.

Section Pipeline.

Variable Vec : Type.
Variable env : Env Vec.

Lemma eqb_refl (a : jsstring) : eqb a a = true.
Proof.
  induction a as [| x a IH]; simpl; [reflexivity |].
  now rewrite N.eqb_refl.
Qed.

Lemma set_status_twice (documentId : jsstring) (st st' : DocStatus)
  (rows : list DocumentRow) :
  set_status documentId st' (set_status documentId st rows)
  = set_status documentId st' rows.
Proof.
  unfold set_status. rewrite map_map. apply map_ext. intros row.
  destruct (eqb (doc_id row) documentId) eqn:E; simpl; rewrite E; reflexivity.
Qed.

Lemma set_status_sets (documentId : jsstring) (st : DocStatus)
  (rows : list DocumentRow) (row : DocumentRow) :
  In row (set_status documentId st rows) ->
  doc_id row = documentId -> doc_status row = st.
Proof.
  unfold set_status. rewrite in_map_iff. intros (row0 & <- & _) Hid.
  destruct (eqb (doc_id row0) documentId) eqn:E; [reflexivity |].
  rewrite Hid, eqb_refl in E. discriminate E.
Qed.

(** *** C3 *)

(** C3: when the text extracted from a document is empty or white space
    only, chunking the text, normalised as the pipeline does or not,
    yields no chunk; [ingestDocument] returns (it does not throw) the
    failure result with zero chunks created, and the only status updates
    it issues are [processing] and then [failed]: every row of the
    document ends with status [failed], and no update to [completed] is
    made.  The premise that text was extracted includes that the Supabase
    client could be created, which [ingestDocument] does first. *)
Theorem C3_blank_document_fails (documentId userId : jsstring)
  (fileBuffer : Buffer) (fileType filename : jsstring) (w : World Vec)
  (doc : ProcessedDocument) :
  has_supabase_env env = true ->
  extractText (pdf_parser env) (docx_parser env) (utf8_decoder env)
    fileBuffer fileType filename = Ok doc ->
  blank (text doc) ->
  chunkDocument (text doc) (uuid_calls w) = []
  /\ chunkDocument (normalizeText (text doc)) (uuid_calls w) = []
  /\ exists w',
       ingestDocument env documentId userId fileBuffer fileType filename w
       = (Ok {| ir_documentId := documentId; chunksCreated := 0;
                status := ingest_failed;
                error := Some (js "No text could be extracted from document") |},
          w')
       /\ documents w' = set_status documentId failed (documents w)
       /\ (forall row, In row (documents w') -> doc_id row = documentId ->
           doc_status row = failed)
       /\ documents_updates w'
          = documents_updates w
            ++ [(documentId, processing); (documentId, failed)]
       /\ (forall issued,
           documents_updates w' = documents_updates w ++ issued ->
           ~ In (documentId, completed) issued).
Proof.
  intros Hsupa Hextract Hblank.
  assert (Hnone : forall n, chunkDocument (normalizeText (text doc)) n = []).
  { intros n. rewrite (normalizeText_blank Hblank).
    apply chunkDocument_blank. constructor. }
  split; [now apply chunkDocument_blank |].
  split; [apply Hnone |].
  unfold ingestDocument, bind, createServiceClient, try_catch.
  rewrite Hsupa. cbn [Date_now ret].
  unfold ingest_body, bind, update_status, modify, lift, get, bump_uuid.
  rewrite Hextract. cbn [set_documents uuid_calls]. rewrite Hnone.
  cbn.
  eexists. split; [reflexivity |]. cbn.
  assert (Hdocs : set_status documentId failed
                    (set_status documentId processing (documents w))
                  = set_status documentId failed (documents w))
    by apply set_status_twice.
  split; [exact Hdocs |]. split.
  - intros row Hin. apply set_status_sets with (rows := documents w).
    rewrite <- Hdocs. exact Hin.
  - split; [rewrite <- app_assoc; reflexivity |].
    intros issued Hissued. rewrite <- app_assoc in Hissued.
    apply app_inv_head in Hissued. subst issued.
    intros [H | [H | []]]; discriminate H.
Qed.

(** *** What the vector search leaves untouched *)

Lemma search_quiet (v : Vec) (limit : option Z) (filter : SearchFilter)
  (w w' : World Vec) (r : Result (list SearchResult)) :
  search env v limit filter w = (r, w') -> quiet w w'.
Proof.
  unfold search, initialize, bind, qdrant_request, get, modify, ret, throw.
  destruct (has_qdrant_client env); cbn.
  - destruct (qdrant_fault_at env (qdrant_requests w)); cbn.
    + intros H. injection H as _ <-. repeat split.
    + destruct (collection w); cbn.
      * destruct (qdrant_fault_at env (S (qdrant_requests w))); cbn;
          intros H; injection H as _ <-; repeat split.
      * destruct (qdrant_fault_at env (S (qdrant_requests w))); cbn.
        -- intros H; injection H as _ <-; repeat split.
        -- destruct (qdrant_fault_at env (S (S (qdrant_requests w)))); cbn;
             intros H; injection H as _ <-; repeat split.
  - intros H. injection H as _ <-. repeat split.
Qed.

(** *** The zero-result path *)

Lemma query_zero_results (userId queryText : jsstring)
  (options : QueryOptions) (w w2 : World Vec) :
  search_of_query env userId queryText options (tick env w) = (Ok [], w2) ->
  query env userId queryText options w
  = (Ok {| answer := NO_RESULTS_ANSWER; citations := []; confidence := 0;
           tokensUsed := 0;
           processingTimeMs :=
             (clock_at env (clock_reads w2) - clock_at env (clock_reads w))%Z |},
     tick env w2).
Proof.
  intros Hsearch. unfold query, bind. unfold search_of_query, tick in Hsearch.
  cbn [Date_now snd] in *.
  rewrite Hsearch. cbn. reflexivity.
Qed.

Lemma no_results_answer_text :
  includes NO_RESULTS_ANSWER NOT_FOUND_PHRASE = true
  /\ ends_with NO_RESULTS_ANSWER DISCLAIMER.
Proof.
  split; [vm_compute; reflexivity |].
  eexists. unfold NO_RESULTS_ANSWER, DISCLAIMER.
  rewrite !app_assoc. reflexivity.
Qed.

(** C7: when the vector search of a query returns no result, [query]
    returns (it does not throw) the fixed answer, which contains the
    phrase saying that no relevant information was found and ends with
    the mandatory disclaimer, together with a confidence of exactly 0 and
    an empty citation list. *)
Theorem C7_zero_results_fixed_answer (userId queryText : jsstring)
  (options : QueryOptions) (w w2 : World Vec) :
  search_of_query env userId queryText options (tick env w) = (Ok [], w2) ->
  exists r w',
    query env userId queryText options w = (Ok r, w')
    /\ answer r = NO_RESULTS_ANSWER
    /\ includes (answer r) NOT_FOUND_PHRASE = true
    /\ ends_with (answer r) DISCLAIMER
    /\ confidence r = 0
    /\ citations r = [].
Proof.
  intros Hsearch. do 2 eexists.
  split; [apply (@query_zero_results userId queryText options w w2 Hsearch) |].
  cbn [answer confidence citations].
  destruct no_results_answer_text as [Hphrase Hend].
  repeat split; assumption.
Qed.

(** C10: when the vector search of a query returns no result, [query]
    calls no generation provider and writes nothing to the metadata store:
    the tables of documents, chunks, queries and usage events and the log
    of status updates are as before, and the returned [tokensUsed] is 0.
    (The vector index itself may have been initialised by the search.) *)
Theorem C10_zero_results_touch_nothing (userId queryText : jsstring)
  (options : QueryOptions) (w w2 : World Vec) :
  search_of_query env userId queryText options (tick env w) = (Ok [], w2) ->
  exists r w',
    query env userId queryText options w = (Ok r, w')
    /\ tokensUsed r = 0%Z
    /\ llm_calls w' = llm_calls w
    /\ queries w' = queries w
    /\ usage_tracking w' = usage_tracking w
    /\ same_store w w'.
Proof.
  intros Hsearch. do 2 eexists.
  split; [apply (@query_zero_results userId queryText options w w2 Hsearch) |].
  cbn [tokensUsed].
  apply search_quiet in Hsearch.
  destruct Hsearch as [(Hd & Hc & Hq & Hu & Hl) Hllm].
  unfold tick in *. cbn in *.
  unfold same_store. cbn. repeat split; assumption.
Qed.

(** *** The path with results *)

Lemma query_with_results (userId queryText : jsstring) (options : QueryOptions)
  (w w2 : World Vec) (rs : list SearchResult) :
  has_supabase_env env = true ->
  llm_answers env ->
  search_of_query env userId queryText options (tick env w) = (Ok rs, w2) ->
  rs <> [] ->
  exists response elapsed w',
    query env userId queryText options w
    = (Ok {| answer := llm_content response;
             citations := extractCitations rs;
             confidence := Qmin (avgScore rs) 1;
             tokensUsed := llm_tokensUsed response;
             processingTimeMs := elapsed |}, w').
Proof.
  intros Hsupa Hllm Hsearch Hrs.
  unfold query, bind. unfold search_of_query, tick in Hsearch.
  cbn [Date_now snd] in *.
  rewrite Hsearch.
  destruct rs as [| r0 rs']; [contradiction |].
  cbn [length Nat.eqb].
  unfold createServiceClient. rewrite Hsupa.
  unfold answerWithContext.
  destruct (truthy (opt_documentId options)) as [d |].
  - cbn [ret select_single bind get].
    match goal with
    | |- context [chat env ?m ?w] =>
        destruct (Hllm m w) as [response Hchat]; rewrite Hchat
    end.
    cbn. do 3 eexists. reflexivity.
  - cbn [ret].
    match goal with
    | |- context [chat env ?m ?w] =>
        destruct (Hllm m w) as [response Hchat]; rewrite Hchat
    end.
    cbn. do 3 eexists. reflexivity.
Qed.

(** *** C5 *)

Lemma fold_left_total (rs : list SearchResult) (a : Q) :
  fold_left (fun sum r => sum + score r) rs a == a + total (map score rs).
Proof.
  revert a. induction rs as [| r rs IH]; intros a; simpl.
  - ring.
  - rewrite IH. ring.
Qed.

Lemma avgScore_mean (rs : list SearchResult) :
  avgScore rs == mean (map score rs).
Proof.
  unfold avgScore, mean. rewrite fold_left_total, length_map.
  setoid_replace (0 + total (map score rs)) with (total (map score rs))
    by ring.
  reflexivity.
Qed.


(** *** C6 *)

Lemma slice_preview (content : jsstring) :
  slice content 0 200 ++ (if (200 <? jslength content)%Z then js "..." else [])
  = preview content.
Proof.
  unfold slice, preview, clamp_index, jslength. cbn [Z.ltb Z.compare].
  rewrite (Z.min_l 0) by lia. rewrite Z.sub_0_r. cbn [Z.to_nat skipn].
  destruct (Nat.leb_spec (length content) 200) as [Hle | Hgt].
  - rewrite Z.min_r by lia. rewrite Nat2Z.id, firstn_all.
    destruct (Z.ltb_spec 200 (Z.of_nat (length content))); [lia |].
    apply app_nil_r.
  - rewrite Z.min_l by lia.
    destruct (Z.ltb_spec 200 (Z.of_nat (length content))); [| lia].
    reflexivity.
Qed.

Lemma extractCitations_map (rs : list SearchResult) :
  extractCitations rs = map citation_of rs.
Proof.
  unfold extractCitations. apply map_ext. intros r.
  unfold citation_of. now rewrite slice_preview.
Qed.

Lemma preview_length (content : jsstring) :
  (length (preview content) <= 203)%nat.
Proof.
  unfold preview. destruct (Nat.leb_spec (length content) 200); [lia |].
  rewrite length_app, length_firstn.
  change (length (js "...")) with 3%nat. lia.
Qed.

(** C6: when the vector search of a query returns a non-empty list and
    the later steps succeed, the citations [query] returns are the results
    mapped one to one, in the order the vector index returned them: the
    i-th citation carries the i-th result's document identifier, its
    optional section label, its raw score, and as content the result's
    content when that has at most 200 code units, otherwise its first 200
    code units followed by an ellipsis. *)
Theorem C6_citations_follow_results (userId queryText : jsstring)
  (options : QueryOptions) (w w2 : World Vec) (rs : list SearchResult) :
  has_supabase_env env = true ->
  llm_answers env ->
  search_of_query env userId queryText options (tick env w) = (Ok rs, w2) ->
  rs <> [] ->
  exists r w',
    query env userId queryText options w = (Ok r, w')
    /\ citations r = map citation_of rs
    /\ length (citations r) = length rs
    /\ (forall i result, nth_error rs i = Some result ->
        exists c,
          nth_error (citations r) i = Some c
          /\ source c = documentId (sr_metadata result)
          /\ cit_section c = vm_section (sr_metadata result)
          /\ relevanceScore c = score result
          /\ cit_content c = preview (sr_content result)
          /\ (length (cit_content c) <= 203)%nat
          /\ ((length (sr_content result) <= 200)%nat ->
              cit_content c = sr_content result)
          /\ ((200 < length (sr_content result))%nat ->
              cit_content c = firstn 200 (sr_content result) ++ js "...")).
Proof.
  intros Hsupa Hllm Hsearch Hrs.
  destruct (@query_with_results userId queryText options w w2 rs
              Hsupa Hllm Hsearch Hrs)
    as (response & elapsed & w' & Hq).
  do 2 eexists. split; [exact Hq |].
  cbn [citations]. rewrite extractCitations_map.
  split; [reflexivity |]. split; [apply length_map |].
  intros i result Hi. exists (citation_of result).
  split; [now apply map_nth_error |].
  cbn [citation_of source cit_section relevanceScore cit_content].
  repeat split.
  - apply preview_length.
  - intros Hle. unfold preview.
    apply Nat.leb_le in Hle. now rewrite Hle.
  - intros Hgt. unfold preview.
    apply Nat.leb_gt in Hgt. now rewrite Hgt.
Qed.

End Pipeline.

(** *** The theorems at concrete inputs *)

Lemma demo_llm_answers ranking parser : llm_answers (demo_env ranking parser).
Proof. intros messages w. eexists. reflexivity. Qed.

(** C3 at a concrete input: a PDF whose parser returns two spaces. *)
Lemma C3_blank_document_fails_witness :
  exists w',
    ingestDocument (demo_env no_results (parsed_as (js "  ")))
      (js "doc-1") (js "user-1") [] (js "pdf") (js "lease.pdf") demo_world
    = (Ok {| ir_documentId := js "doc-1"; chunksCreated := 0;
             status := ingest_failed;
             error := Some (js "No text could be extracted from document") |},
       w')
    /\ map doc_status (documents w') = [failed].
Proof.
  assert (Hblank : blank (text blank_document)) by (repeat constructor).
  destruct (@C3_blank_document_fails unit
              (demo_env no_results (parsed_as (js "  ")))
              (js "doc-1") (js "user-1") [] (js "pdf") (js "lease.pdf")
              demo_world blank_document eq_refl eq_refl Hblank)
    as (_ & _ & w' & Hrun & Hdocs & _).
  exists w'. split; [exact Hrun |].
  rewrite Hdocs. reflexivity.
Defined.

(** C7 at a concrete input: nothing is indexed. *)
Lemma C7_zero_results_fixed_answer_witness :
  exists r w',
    query (demo_env no_results failing_pdfParse) (js "user-1") demo_question
      demo_options demo_world = (Ok r, w')
    /\ confidence r = 0 /\ citations r = [].
Proof.
  destruct (@C7_zero_results_fixed_answer unit
              (demo_env no_results failing_pdfParse) (js "user-1")
              demo_question demo_options demo_world
              (after_search (demo_env no_results failing_pdfParse)) eq_refl)
    as (r & w' & Hq & _ & _ & _ & Hc & Hcit).
  exists r, w'. repeat split; assumption.
Defined.

(** C10 at a concrete input: nothing is indexed. *)
Lemma C10_zero_results_touch_nothing_witness :
  exists r w',
    query (demo_env no_results failing_pdfParse) (js "user-1") demo_question
      demo_options demo_world = (Ok r, w')
    /\ tokensUsed r = 0%Z /\ llm_calls w' = [] /\ queries w' = []
    /\ usage_tracking w' = [].
Proof.
  destruct (@C10_zero_results_touch_nothing unit
              (demo_env no_results failing_pdfParse) (js "user-1")
              demo_question demo_options demo_world
              (after_search (demo_env no_results failing_pdfParse)) eq_refl)
    as (r & w' & Hq & Ht & Hl & Hqs & Hu & _).
  exists r, w'. repeat split; assumption.
Defined.


(** Nothing clamps the confidence from below: one result with score -1/2
    gives a confidence of -1/2. *)
Example negative_confidence :
  exists r w',
    query (demo_env one_negative_result failing_pdfParse) (js "user-1")
      demo_question demo_options demo_world = (Ok r, w')
    /\ confidence r == - (1 # 2).
Proof.
  do 2 eexists. split; [vm_compute; reflexivity |].
  vm_compute. reflexivity.
Qed.

(** C6 at a concrete input: two results, the second longer than 200 code
    units. *)
Lemma C6_citations_follow_results_witness :
  exists r w',
    query (demo_env two_results failing_pdfParse) (js "user-1") demo_question
      demo_options demo_world = (Ok r, w')
    /\ map relevanceScore (citations r) = [3 # 4; - (1 # 4)]
    /\ map (fun c => length (cit_content c)) (citations r) = [30; 203]%nat.
Proof.
  assert (Hne : two_search_results <> []) by discriminate.
  destruct (@C6_citations_follow_results unit
              (demo_env two_results failing_pdfParse) (js "user-1")
              demo_question demo_options demo_world
              (after_search (demo_env two_results failing_pdfParse))
              two_search_results eq_refl (demo_llm_answers _ _) eq_refl Hne)
    as (r & w' & Hq & Hc & _).
  exists r, w'. split; [exact Hq |].
  rewrite Hc. split; vm_compute; reflexivity.
Defined.

End PipelineProofs.

(* ================================================================== *)
(** ** Theorems: the embedding *)
(* ================================================================== *)

Module EmbeddingProofs.

Import Embeddings Spec.
Import PrimFloat.

#[local] Set Warnings "-inexact-float".
Local Open Scope float_scope.

Example stringHash_values :
  stringHash (js "a") = 177604%Z /\ stringHash (js "hello") = 178056679%Z
  /\ stringHash (js "qtzvsk0") = (-1331055836)%Z.
Proof. vm_compute. repeat split. Qed.

Example cancelling_text_hashes :
  map (fun w => map (fun h => stringHash (salted w h)) [0; 1; 2]%N)
    (tokenize cancelling_text)
  = [[1370779099; 1370779098; 1370779097];
     [-1331055836; -1331055835; -1331055834];
     [2086979038; 2086979039; 2086979036];
     [-77263200; -77263199; -77263198];
     [875107391; 875107390; 875107389];
     [-127005403; -127005404; -127005401];
     [-899257533; -899257534; -899257535]]%Z
  /\ map stringHash (bigrams (tokenize cancelling_text))
     = [-1773431515; -1785216864; -854319836; -1087199323; 791262048;
        204539228]%Z.
Proof. vm_compute. split; reflexivity. Qed.

Example cancelling_text_indices :
  map (fun w => map (fun h => index_of (stringHash (salted w h))) [0; 1; 2]%N)
    (tokenize cancelling_text)
  = [[91; 90; 89]; [92; 91; 90]; [94; 95; 92]; [96; 95; 94];
     [191; 190; 189]; [91; 92; 89]; [189; 190; 191]]%nat
  /\ map (fun b => index_of (stringHash b)) (bigrams (tokenize cancelling_text))
     = [91; 96; 92; 91; 96; 92]%nat.
Proof. vm_compute. split; reflexivity. Qed.

(** The conversion of the integers that occur, and the two weights of a
    text of seven distinct words: the quotients are rounded, and the
    bigram weight is exactly half the word weight. *)
Example number_values :
  number 7 = 7 /\ number 4294967295 = 4294967295
  /\ number 1 / number 7 = 0.14285714285714285
  /\ 0.5 / number 7 = 0.071428571428571425
  /\ 0.5 / number 7 + 0.5 / number 7 = number 1 / number 7.
Proof. vm_compute. repeat split. Qed.







Example cancelling_text_embedding :
  length (tokenize cancelling_text) = 7%nat
  /\ accumulate (tokenize cancelling_text) = zero_vector
  /\ embed cancelling_text = zero_vector.
Proof. vm_compute. repeat split. Qed.

(** The norm of three embeddings, evaluated in binary64: 1 for the first,
    the number just below 1 for the other two. *)
Example norm_values :
  norm (embed (js "Payment is due within 30 days.")) = 1
  /\ norm (embed (js "a b c")) = 0.99999999999999989
  /\ norm (embed (js "What are the payment terms?")) = 0.99999999999999989.
Proof. vm_compute. repeat split. Qed.




End EmbeddingProofs.

(* ================================================================== *)
(** ** Theorems: normalisation and sections *)
(* ================================================================== *)

Module NormalizeProofs.

Import Processor Spec Shape.

Lemma replace_go_Forall (P : N -> Prop) m :
  (forall s out k, m s = Some (out, k) -> Forall P out) ->
  forall s skip, Forall P s -> Forall P (replace_go m skip s).
Proof.
  intros Hm s. induction s as [| c t IH]; intros skip Hs; simpl.
  - constructor.
  - inversion Hs as [| ? ? Hc Ht]; subst.
    destruct skip as [| k].
    + destruct (m (c :: t)) as [[out consumed] |] eqn:E.
      * apply Forall_app. split; [eapply Hm; exact E | apply IH; exact Ht].
      * constructor; [exact Hc | apply IH; exact Ht].
    + apply IH; exact Ht.
Qed.

Lemma space_run_none c t : space_run (c :: t) = None -> is_space c = false.
Proof.
  unfold space_run. simpl. destruct (is_space c); [| reflexivity].
  destruct (span is_space t). simpl. discriminate.
Qed.

Lemma space_run_out s out k : space_run s = Some (out, k) -> out = js " ".
Proof.
  unfold space_run. destruct (span is_space s) as [ws r].
  destruct (is_nil ws); [discriminate |]. intros H. inversion H. reflexivity.
Qed.

Lemma replace_space_run_plain s skip :
  plain_spaces (replace_go space_run skip s).
Proof.
  revert skip. induction s as [| c t IH]; intros skip; simpl.
  - constructor.
  - destruct skip as [| k]; [| apply IH].
    destruct (space_run (c :: t)) as [[out consumed] |] eqn:E.
    + apply space_run_out in E. subst out. apply Forall_app. split; [| apply IH].
      constructor; [reflexivity | constructor].
    + apply space_run_none in E. constructor; [| apply IH].
      intros H. congruence.
Qed.

Lemma one_char_out c out s o k : one_char c out s = Some (o, k) -> o = out.
Proof.
  unfold one_char. destruct s as [| d r]; [discriminate |].
  destruct (N.eqb d c); [| discriminate]. intros H; inversion H; reflexivity.
Qed.

Lemma replace_one_char_Forall (P : N -> Prop) c out s :
  Forall P out -> Forall P s -> Forall P (replace_all (one_char c out) s).
Proof.
  intros Hout Hs. unfold replace_all. apply replace_go_Forall; [| exact Hs].
  intros s0 o k E. apply one_char_out in E. subst o. exact Hout.
Qed.

Lemma replace_one_char_gone c out s skip :
  Forall (fun d => d <> c) out ->
  Forall (fun d => d <> c) (replace_go (one_char c out) skip s).
Proof.
  intros Hout. revert skip. induction s as [| d t IH]; intros skip; simpl.
  - constructor.
  - destruct skip as [| k]; [| apply IH].
    destruct (N.eqb d c) eqn:E.
    + apply Forall_app. split; [exact Hout | apply IH].
    + constructor; [apply N.eqb_neq; exact E | apply IH].
Qed.

Lemma dropWhile_Forall (P : N -> Prop) p s :
  Forall P s -> Forall P (dropWhile p s).
Proof.
  induction 1 as [| c t Hc Ht IH]; simpl; [constructor |].
  destruct (p c); [exact IH | constructor; assumption].
Qed.

Lemma trim_Forall (P : N -> Prop) s : Forall P s -> Forall P (trim s).
Proof.
  intros H. unfold trim, trimEnd, trimStart.
  apply Forall_rev. apply dropWhile_Forall. apply Forall_rev.
  apply dropWhile_Forall. exact H.
Qed.

Lemma dropWhile_head p s :
  match dropWhile p s with [] => True | c :: _ => p c = false end.
Proof.
  induction s as [| c t IH]; simpl; [exact I |].
  destruct (p c) eqn:E; [exact IH | exact E].
Qed.

Lemma dropWhile_fixed p s :
  match s with [] => True | c :: _ => p c = false end -> dropWhile p s = s.
Proof. destruct s as [| c t]; simpl; [reflexivity |]. intros ->. reflexivity. Qed.

(** [trim] is idempotent. *)
Lemma trim_trim s : trim (trim s) = trim s.
Proof.
  unfold trim, trimEnd, trimStart.
  set (u := dropWhile is_space s).
  assert (Hu : match u with [] => True | c :: _ => is_space c = false end)
    by apply dropWhile_head.
  set (v := dropWhile is_space (rev u)).
  assert (Hv : match v with [] => True | c :: _ => is_space c = false end)
    by apply dropWhile_head.
  assert (Hrv : match rev v with [] => True | c :: _ => is_space c = false end).
  { destruct u as [| c t].
    - subst v. simpl. exact I.
    - assert (Hlast : exists w, v = w ++ [c]).
      { subst v. simpl. generalize (rev t). intros l.
        induction l as [| d l IH]; simpl.
        - rewrite Hu. exists []. reflexivity.
        - destruct (is_space d); [exact IH |]. exists (d :: l). reflexivity. }
      destruct Hlast as [w Hw]. rewrite Hw. rewrite rev_app_distr. simpl.
      exact Hu. }
  rewrite (dropWhile_fixed is_space (rev v) Hrv). rewrite rev_involutive.
  fold v. rewrite (dropWhile_fixed is_space v Hv). reflexivity.
Qed.

Lemma normalizeText_plain_spaces text : plain_spaces (normalizeText text).
Proof.
  unfold normalizeText. apply trim_Forall.
  apply replace_one_char_Forall; [repeat constructor; discriminate |].
  apply replace_one_char_Forall; [repeat constructor; discriminate |].
  apply replace_one_char_Forall; [repeat constructor; discriminate |].
  apply replace_one_char_Forall; [repeat constructor; discriminate |].
  apply replace_space_run_plain.
Qed.

(** X1: for every text, the result of [normalizeText] has no white space
    at either end (trimming it again changes nothing), its only
    white-space code unit is the plain space U+0020 (so it holds no line
    break and no tab), and it holds neither an en dash U+2013 nor an
    ellipsis U+2026. *)
Theorem X1_normalizeText_tidy (text : jsstring) :
  trim (normalizeText text) = normalizeText text
  /\ plain_spaces (normalizeText text)
  /\ Forall (fun c => c <> 8211%N /\ c <> 8230%N) (normalizeText text).
Proof.
  split; [unfold normalizeText; apply trim_trim |].
  split; [apply normalizeText_plain_spaces |].
  assert (H1 : Forall (fun d => d <> 8211%N) (normalizeText text)).
  { unfold normalizeText. apply trim_Forall.
    apply replace_one_char_Forall; [repeat constructor; discriminate |].
    apply replace_one_char_gone. repeat constructor; discriminate. }
  assert (H2 : Forall (fun d => d <> 8230%N) (normalizeText text)).
  { unfold normalizeText. apply trim_Forall. apply replace_one_char_gone.
    repeat constructor; discriminate. }
  rewrite Forall_forall in *. intros c Hc. split; [now apply H1 | now apply H2].
Qed.

End NormalizeProofs.

Module SectionProofs.

Import Processor Spec Shape ChunkerProofs BlankProofs NormalizeProofs.

Local Abbreviation nl := (js newline).

Lemma split_go_cons sep skip cur s : split_go sep skip cur s <> [].
Proof.
  revert skip cur. induction s as [| c t IH]; intros skip cur; simpl.
  - discriminate.
  - destruct skip; [| apply IH].
    destruct (lit sep (c :: t)); [discriminate | apply IH].
Qed.

Lemma join_cons sep x r : r <> [] -> join sep (x :: r) = x ++ sep ++ join sep r.
Proof. destruct r; [congruence | reflexivity]. Qed.

Lemma split_lines_step cur c t :
  split_go nl 0 cur (c :: t)
  = if N.eqb 10 c then rev cur :: split_go nl 0 [] t
    else split_go nl 0 (c :: cur) t.
Proof.
  cbn [split_go].
  change (lit nl (c :: t)) with (if N.eqb 10 c then Some t else None).
  destruct (N.eqb 10 c); reflexivity.
Qed.

(** Joining the lines with line breaks gives the text back. *)
Lemma split_lines_join cur s :
  join nl (split_go nl 0 cur s) = rev cur ++ s.
Proof.
  revert cur. induction s as [| c t IH]; intros cur.
  - simpl. now rewrite app_nil_r.
  - rewrite split_lines_step. destruct (N.eqb 10 c) eqn:E.
    + apply N.eqb_eq in E. subst c.
      rewrite join_cons by apply split_go_cons.
      rewrite IH. reflexivity.
    + rewrite IH. simpl. now rewrite <- app_assoc.
Qed.

Lemma split_lines_single cur s :
  ~ In 10%N s -> split_go nl 0 cur s = [rev cur ++ s].
Proof.
  revert cur. induction s as [| c t IH]; intros cur Hn.
  - simpl. now rewrite app_nil_r.
  - rewrite split_lines_step. destruct (N.eqb 10 c) eqn:E.
    + apply N.eqb_eq in E. subst c. exfalso. apply Hn. now left.
    + rewrite IH by (intros H; apply Hn; now right).
      simpl. now rewrite <- app_assoc.
Qed.

Lemma headed_mono text pos pos' s :
  (pos <= pos')%Z -> headed text pos s -> headed text pos' s.
Proof.
  intros Hle (line & H1 & H2 & H3 & H4).
  exists line. split; [exact H1 |]. repeat split; try assumption; lia.
Qed.

Lemma tiled_cons len a b rest :
  tiled len (a :: b :: rest)
  <-> sec_end a = sec_start b /\ tiled len (b :: rest).
Proof. reflexivity. Qed.

Lemma tiled_push len pos sections s :
  tiled len sections -> sec_start s = pos -> sec_end s = len ->
  tiled len (close_previous pos sections ++ [s]).
Proof.
  intros Ht Hs He. induction sections as [| a rest IH].
  - exact He.
  - destruct rest as [| b rest'].
    + cbn [close_previous app]. apply tiled_cons.
      split; [now rewrite Hs | exact He].
    + apply tiled_cons in Ht. destruct Ht as [Hab Ht]. specialize (IH Ht).
      change (close_previous pos (a :: b :: rest'))
        with (a :: close_previous pos (b :: rest')).
      destruct rest' as [| b' r].
      * cbn [close_previous app] in *. apply tiled_cons.
        split; [exact Hab | exact IH].
      * change (close_previous pos (b :: b' :: r))
          with (b :: close_previous pos (b' :: r)) in *.
        cbn [app] in *. apply tiled_cons. split; [exact Hab | exact IH].
Qed.

Lemma close_previous_Forall (P Q : SectionSpan -> Prop) pos sections :
  (forall s, P s -> Q s) ->
  (forall s, P s ->
     Q {| sec_start := sec_start s; sec_end := pos; sec_title := sec_title s;
          sec_clauseNumber := sec_clauseNumber s |}) ->
  Forall P sections -> Forall Q (close_previous pos sections).
Proof.
  intros Hkeep Hclose H. induction H as [| a rest Ha Hrest IH]; simpl.
  - constructor.
  - destruct rest as [| b rest'].
    + constructor; [apply Hclose; exact Ha | constructor].
    + constructor; [apply Hkeep; exact Ha | exact IH].
Qed.

Lemma heading_not_empty line m :
  first_pattern SECTION_PATTERNS line = Some m -> (1 <= jslength line)%Z.
Proof.
  intros H. destruct line as [| c t].
  - discriminate H.
  - unfold jslength. simpl. lia.
Qed.

(** The invariant of the loop of [identifySections]: [currentPos] is the
    offset of the current line in the text. *)
Lemma identifySections_loop_inv text lines sections pos :
  (lines = [] \/ exists pre, text = pre ++ join nl lines /\ jslength pre = pos) ->
  (0 <= pos)%Z ->
  tiled (jslength text) sections ->
  Forall (headed text pos) sections ->
  tiled (jslength text) (identifySections_loop text lines sections pos)
  /\ exists pos', Forall (headed text pos')
                    (identifySections_loop text lines sections pos).
Proof.
  revert sections pos. induction lines as [| line rest IH];
    intros sections pos Hpre Hpos Ht Hh.
  - simpl. split; [exact Ht | now exists pos].
  - destruct Hpre as [Hnil | (pre & Htext & Hlen)]; [discriminate |].
    cbn [identifySections_loop].
    assert (Hsk : exists tail,
                    skipn (Z.to_nat pos) text = line ++ tail
                    /\ (tail = [] \/ exists r, tail = 10%N :: r)
                    /\ (pos + jslength line <= jslength text)%Z
                    /\ (rest = [] \/
                        exists pre', text = pre' ++ join nl rest
                          /\ jslength pre' = (pos + jslength line + 1)%Z)).
    { destruct rest as [| r rs].
      - exists []. simpl in Htext. rewrite Htext.
        split; [| split; [now left | split; [| now left]]].
        + rewrite <- Hlen. unfold jslength. rewrite Nat2Z.id.
          rewrite skipn_app, skipn_all, Nat.sub_diag. simpl.
          now rewrite app_nil_r.
        + rewrite <- Hlen. unfold jslength. rewrite length_app. lia.
      - rewrite join_cons in Htext by discriminate.
        exists (nl ++ join nl (r :: rs)). rewrite Htext.
        split; [| split; [right; eexists; reflexivity | split; [| right]]].
        + rewrite <- Hlen. unfold jslength. rewrite Nat2Z.id.
          rewrite skipn_app, skipn_all, Nat.sub_diag. reflexivity.
        + rewrite <- Hlen. unfold jslength. rewrite !length_app. lia.
        + exists (pre ++ line ++ nl). split.
          * now rewrite <- !app_assoc.
          * rewrite <- Hlen. unfold jslength. rewrite !length_app.
            change (length nl) with 1%nat. lia. }
    destruct Hsk as (tail & Hskip & Htail & Hbound & Hrest).
    assert (Hline : (0 <= jslength line)%Z) by (unfold jslength; lia).
    apply IH; [exact Hrest | lia | |].
    + destruct (first_pattern SECTION_PATTERNS line); [| exact Ht].
      apply tiled_push; [exact Ht | reflexivity | reflexivity].
    + destruct (first_pattern SECTION_PATTERNS line) as [m |] eqn:Hm.
      * apply Forall_app. split.
        -- apply close_previous_Forall with (P := headed text pos).
           ++ intros s. apply headed_mono. lia.
           ++ intros s (l & H1 & H2 & H3 & H4).
              exists l. split; [exact H1 |]. simpl.
              repeat split; try assumption; lia.
           ++ exact Hh.
        -- constructor; [| constructor].
           exists line. simpl. split.
           ++ split; [exact Hm |]. split; [reflexivity |].
              exists tail. split; assumption.
           ++ repeat split; try assumption; lia.
      * eapply Forall_impl; [| exact Hh].
        intros s. apply headed_mono. lia.
Qed.

Lemma identifySections_headed text :
  tiled (jslength text) (identifySections text)
  /\ exists pos, Forall (headed text pos) (identifySections text).
Proof.
  unfold identifySections. apply identifySections_loop_inv.
  - right. exists []. split; [| reflexivity].
    unfold split. now rewrite split_lines_join.
  - lia.
  - exact I.
  - constructor.
Qed.

(** X2: for every text, the sections [identifySections] returns lie end to
    end: each section ends at the offset where the next one starts and the
    last one ends at the length of the text; every section is a non-empty
    range within the text.  (Text before the first heading belongs to no
    section.) *)
Theorem X2_sections_tile (text : jsstring) :
  tiled (jslength text) (identifySections text)
  /\ Forall (fun s => (0 <= sec_start s < sec_end s)%Z
                      /\ (sec_end s <= jslength text)%Z)
       (identifySections text).
Proof.
  destruct (identifySections_headed text) as [Ht [pos Hh]].
  split; [exact Ht |].
  eapply Forall_impl; [| exact Hh].
  intros s (line & (H1 & _) & H2 & H3 & H4).
  apply heading_not_empty in H1. lia.
Qed.

(** X3: for every text, every section [identifySections] returns starts
    exactly where its heading line starts in the text: from offset
    [sec_start] the text reads that line, up to a line break or the end of
    the text; a heading pattern matches the line with the section's clause
    number as its capture, and the section's title is the line, trimmed
    and cut to 100 code units. *)
Theorem X3_sections_start_at_headings (text : jsstring) :
  Forall (fun s => exists line, heading_at text s line)
    (identifySections text).
Proof.
  destruct (identifySections_headed text) as [_ [pos Hh]].
  eapply Forall_impl; [| exact Hh].
  intros s (line & H1 & _). now exists line.
Qed.

(** a text without a line break is one line, and has at most the one
    section that starts at offset 0 *)
Lemma no_newline_sections text :
  ~ In 10%N text ->
  identifySections text
  = match first_pattern SECTION_PATTERNS text with
    | Some m =>
        [ {| sec_start := 0; sec_end := jslength text;
             sec_title := Some (slice (trim text) 0 100);
             sec_clauseNumber := m |} ]
    | None => []
    end.
Proof.
  intros H. unfold identifySections, split.
  rewrite split_lines_single by exact H. simpl rev. simpl app.
  cbn [identifySections_loop].
  destruct (first_pattern SECTION_PATTERNS text); reflexivity.
Qed.

Lemma normalizeText_no_newline text : ~ In 10%N (normalizeText text).
Proof.
  pose proof (normalizeText_plain_spaces text) as Hp.
  intros Hin. unfold plain_spaces in Hp. rewrite Forall_forall in Hp.
  specialize (Hp _ Hin eq_refl). discriminate.
Qed.

End SectionProofs.

(* ================================================================== *)
(** ** Theorems: the shape of the chunks *)
(* ================================================================== *)

Module ChunkShapeProofs.

Import Processor Spec Shape ChunkerProofs BlankProofs NormalizeProofs.
Import SectionProofs.

Lemma dropWhile_nil_Forall p s :
  dropWhile p s = [] -> Forall (fun c => p c = true) s.
Proof.
  induction s as [| c t IH]; simpl; [constructor |].
  destruct (p c) eqn:E; [| discriminate]. intros H. constructor; auto.
Qed.

(** only a blank string is trimmed to the empty string *)
Lemma trim_nil_blank s : trim s = [] -> blank s.
Proof.
  unfold trim, trimEnd, trimStart. intros H.
  assert (H1 : dropWhile is_space (rev (dropWhile is_space s)) = []).
  { rewrite <- (rev_involutive (dropWhile _ (rev _))). rewrite H. reflexivity. }
  apply dropWhile_nil_Forall in H1. apply Forall_rev in H1.
  rewrite rev_involutive in H1.
  pose proof (dropWhile_head is_space s) as Hh.
  destruct (dropWhile is_space s) as [| c t] eqn:E.
  - now apply dropWhile_nil_Forall.
  - inversion H1; subst. congruence.
Qed.

Lemma push_if_text_Forall (P : DocumentChunk -> Prop) st c :
  Forall P (chunks st) -> P c -> Forall P (push_if_text st c).
Proof.
  intros Hcs Hc. destruct (push_if_text_cases st c) as [-> | ->]; auto.
  apply Forall_app. split; auto.
Qed.

Lemma push_reindexed_Forall (P : DocumentChunk -> Prop) subs cs :
  (forall c i, P c ->
     P {| id := id c; content := content c; chunkIndex := i;
          metadata := metadata c |}) ->
  Forall P subs -> Forall P cs -> Forall P (fold_left push_reindexed subs cs).
Proof.
  intros Hre Hsubs. revert cs.
  induction Hsubs as [| sub subs Hsub _ IH]; intros cs Hcs; simpl; auto.
  apply IH. unfold push_reindexed.
  apply Forall_app. split; [assumption |].
  constructor; [apply Hre; exact Hsub | constructor].
Qed.

(** *** no empty chunk *)

Lemma push_if_text_solid st c :
  Forall solid (chunks st) -> content c = trim (currentChunk st) ->
  Forall solid (push_if_text st c).
Proof.
  intros Hcs Hc. unfold push_if_text.
  destruct (is_nil (trim (currentChunk st))) eqn:E; [exact Hcs |].
  apply Forall_app. split; [exact Hcs |]. constructor; [| constructor].
  split.
  - rewrite Hc. intros Hn. rewrite Hn in E. discriminate.
  - rewrite Hc. apply trim_trim.
Qed.

Lemma slidingWindowChunk_solid text fresh :
  Forall solid (slidingWindowChunk text fresh).
Proof.
  unfold slidingWindowChunk.
  apply push_if_text_solid; [| reflexivity].
  apply (fold_left_invariant (fun st => Forall solid (chunks st))).
  - constructor.
  - intros st s Hst. unfold slidingWindowChunk_step.
    destruct (_ >? _)%Z; simpl; [| exact Hst].
    apply push_if_text_solid; [exact Hst | reflexivity].
Qed.

Lemma splitLargeSection_solid sectionText section fresh :
  Forall solid (splitLargeSection sectionText section fresh).
Proof.
  unfold splitLargeSection.
  apply push_if_text_solid; [| reflexivity].
  apply (fold_left_invariant (fun st => Forall solid (chunks st))).
  - constructor.
  - intros st s Hst. unfold splitLargeSection_step.
    destruct (_ >? _)%Z; simpl; [| exact Hst].
    apply push_if_text_solid; [exact Hst | reflexivity].
Qed.

(** the text of a section holds its heading line, which is not blank *)
Lemma headed_text_solid text pos s :
  headed text pos s ->
  trim (slice text (sec_start s) (sec_end s)) <> [].
Proof.
  intros (line & (H1 & _ & tail & H2 & _) & H3 & H4 & H5) Hnil.
  apply trim_nil_blank in Hnil.
  assert (Hblank : blank line).
  { unfold slice, clamp_index in Hnil.
    assert (Hl : (0 <= jslength line)%Z) by (unfold jslength; lia).
    replace (sec_start s <? 0)%Z with false in Hnil
      by (symmetry; apply Z.ltb_ge; lia).
    replace (sec_end s <? 0)%Z with false in Hnil
      by (symmetry; apply Z.ltb_ge; lia).
    rewrite !Z.min_l in Hnil by lia.
    rewrite H2 in Hnil. rewrite firstn_app in Hnil.
    apply Forall_app in Hnil. destruct Hnil as [Hnil _].
    rewrite firstn_all2 in Hnil; [exact Hnil |].
    unfold jslength in *. lia. }
  rewrite (first_pattern_blank Hblank) in H1. discriminate H1.
Qed.

(** X4: for every text, no chunk [chunkDocument] returns is empty, and no
    chunk starts or ends with white space (trimming its content changes
    nothing): the two loops push a buffer only when its trimmed text is
    not empty, and the text of a section always holds its heading line. *)
Theorem X4_chunks_not_empty (text : jsstring) (fresh : nat) :
  Forall solid (chunkDocument text fresh).
Proof.
  unfold chunkDocument. destruct (_ =? _)%nat.
  - apply slidingWindowChunk_solid.
  - destruct (identifySections_headed text) as [_ [pos Hh]].
    rewrite Forall_forall in Hh.
    apply (fold_left_invariant_in (Forall solid)).
    + constructor.
    + intros cs s Hin Hcs. unfold chunkDocument_step.
      destruct (_ <=? _)%Z.
      * apply Forall_app. split; [exact Hcs |].
        constructor; [| constructor]. split; simpl.
        -- eapply headed_text_solid. apply Hh. exact Hin.
        -- apply trim_trim.
      * apply push_reindexed_Forall; [| apply splitLargeSection_solid | exact Hcs].
        intros c i Hc. exact Hc.
Qed.

(** *** labels and offsets *)

Lemma slidingWindowChunk_unlabelled text fresh :
  Forall unlabelled (slidingWindowChunk text fresh).
Proof.
  unfold slidingWindowChunk.
  apply push_if_text_Forall; [| repeat split].
  apply (fold_left_invariant (fun st => Forall unlabelled (chunks st))).
  - constructor.
  - intros st s Hst. unfold slidingWindowChunk_step.
    destruct (_ >? _)%Z; simpl; [| exact Hst].
    apply push_if_text_Forall; [exact Hst | repeat split].
Qed.

(** In [splitLargeSection] the update of [chunkStart] adds the length of
    the new buffer minus the lengths of its three parts, which is 0:
    [chunkStart] stays at the start of the section. *)
Lemma splitLargeSection_labelled sectionText s fresh :
  Forall (labelled s) (splitLargeSection sectionText s fresh).
Proof.
  unfold splitLargeSection.
  set (P := fun st => Forall (labelled s) (chunks st)
                      /\ chunkStart st = sec_start s).
  assert (H : P (fold_left (splitLargeSection_step s fresh)
                   (splitIntoSentences sectionText)
                   {| chunks := []; currentChunk := [];
                      chunkStart := sec_start s; currentStart := 0 |})).
  { apply (fold_left_invariant P).
    - split; [constructor | reflexivity].
    - intros st sentence [Hcs Hstart]. unfold splitLargeSection_step.
      destruct (_ >? _)%Z; simpl; split; try assumption.
      + apply push_if_text_Forall; [exact Hcs |].
        repeat split; simpl. exact Hstart.
      + rewrite Hstart. unfold jslength. rewrite !length_app. simpl. lia. }
  destruct H as [Hcs Hstart].
  apply push_if_text_Forall; [exact Hcs |].
  repeat split; simpl. exact Hstart.
Qed.

Lemma section_path_labelled text fresh sections :
  Forall (from_section sections)
    (fold_left (chunkDocument_step text fresh) sections []).
Proof.
  apply (fold_left_invariant_in (Forall (from_section sections))).
  - constructor.
  - intros cs s Hin Hcs. unfold chunkDocument_step.
    destruct (_ <=? _)%Z.
    + apply Forall_app. split; [exact Hcs |].
      constructor; [| constructor]. exists s. split; [exact Hin |].
      repeat split.
    + apply push_reindexed_Forall; [| | exact Hcs].
      * intros c i Hc. exact Hc.
      * eapply Forall_impl; [| apply splitLargeSection_labelled].
        intros c Hc. exists s. split; assumption.
Qed.

Lemma chunk_labels_cases text fresh :
  (identifySections text = [] /\ Forall unlabelled (chunkDocument text fresh))
  \/ (identifySections text <> []
      /\ Forall (from_section (identifySections text))
           (chunkDocument text fresh)).
Proof.
  unfold chunkDocument.
  destruct (identifySections text) as [| s rest] eqn:E.
  - left. split; [reflexivity |]. simpl. apply slidingWindowChunk_unlabelled.
  - right. split; [discriminate |]. simpl Nat.eqb. cbv iota.
    apply section_path_labelled.
Qed.

(** X5: for every text, the chunks of [chunkDocument] are labelled in one
    of two ways.  When no section is identified, no chunk has a section
    title, a clause number or a page number.  Otherwise every chunk
    carries the title and the clause number of one of the identified
    sections, no page number, and as [startChar] the start offset of that
    section: also every sub-chunk of a section that was split, since
    [splitLargeSection] never advances [chunkStart]. *)
Theorem X5_chunk_labels (text : jsstring) (fresh : nat) :
  (identifySections text = [] /\ Forall unlabelled (chunkDocument text fresh))
  \/ (identifySections text <> []
      /\ Forall (from_section (identifySections text))
           (chunkDocument text fresh)).
Proof.
  unfold chunkDocument.
  destruct (identifySections text) as [| s rest] eqn:E.
  - left. split; [reflexivity |]. cbn [length Nat.eqb].
    apply slidingWindowChunk_unlabelled.
  - right. split; [discriminate |]. cbn [length Nat.eqb].
    apply section_path_labelled.
Qed.

(** X6: in the pipeline the text is normalised before it is chunked, and
    the normalised text is a single line.  So for every text the chunker
    finds at most one section in the normalised text, a section that
    starts at offset 0 and ends at the end of the text, and all chunks of
    the document carry the same section title and the same clause
    number. *)
Theorem X6_normalised_text_one_section (text : jsstring) (fresh : nat) :
  (length (identifySections (normalizeText text)) <= 1)%nat
  /\ (forall s, In s (identifySections (normalizeText text)) ->
        sec_start s = 0%Z /\ sec_end s = jslength (normalizeText text))
  /\ (forall c c', In c (chunkDocument (normalizeText text) fresh) ->
        In c' (chunkDocument (normalizeText text) fresh) ->
        section (metadata c) = section (metadata c')
        /\ clauseNumber (metadata c) = clauseNumber (metadata c')).
Proof.
  pose proof (@no_newline_sections (normalizeText text)
                (@normalizeText_no_newline text)) as Hs.
  split; [| split].
  - rewrite Hs. destruct (first_pattern _ _); simpl; lia.
  - intros s. rewrite Hs. destruct (first_pattern _ _); simpl; [| tauto].
    intros [<- | []]. split; reflexivity.
  - intros c c' Hc Hc'.
    destruct (chunk_labels_cases (normalizeText text) fresh)
      as [[_ Hu] | [_ Hl]].
    + rewrite Forall_forall in Hu.
      destruct (Hu _ Hc) as (-> & -> & _). destruct (Hu _ Hc') as (-> & -> & _).
      split; reflexivity.
    + rewrite Forall_forall in Hl.
      destruct (Hl _ Hc) as (s & Hs1 & H1 & H2 & _).
      destruct (Hl _ Hc') as (s' & Hs2 & H1' & H2' & _).
      rewrite Hs in Hs1, Hs2.
      destruct (first_pattern _ _); simpl in Hs1, Hs2; [| tauto].
      destruct Hs1 as [<- | []]. destruct Hs2 as [<- | []].
      rewrite H1, H2, H1', H2'. split; reflexivity.
Qed.

(** *** identifiers *)

Lemma ids_from_snoc fresh cs c :
  ids_from fresh cs -> id c = (fresh + length cs)%nat ->
  ids_from fresh (cs ++ [c]).
Proof.
  unfold ids_from. intros Hcs Hc.
  rewrite map_app, length_app, Nat.add_1_r, seq_S, Hcs. simpl. now rewrite Hc.
Qed.

Lemma push_if_text_ids fresh st c :
  ids_from fresh (chunks st) -> id c = (fresh + length (chunks st))%nat ->
  ids_from fresh (push_if_text st c).
Proof.
  intros Hst Hc. destruct (push_if_text_cases st c) as [-> | ->]; auto.
  now apply ids_from_snoc.
Qed.

Lemma slidingWindowChunk_ids text fresh :
  ids_from fresh (slidingWindowChunk text fresh).
Proof.
  unfold slidingWindowChunk. apply push_if_text_ids; [| reflexivity].
  apply (fold_left_invariant (fun st => ids_from fresh (chunks st))).
  - reflexivity.
  - intros st s Hst. unfold slidingWindowChunk_step.
    destruct (_ >? _)%Z; simpl; [| exact Hst].
    apply push_if_text_ids; [exact Hst | reflexivity].
Qed.

Lemma splitLargeSection_ids sectionText section fresh :
  ids_from fresh (splitLargeSection sectionText section fresh).
Proof.
  unfold splitLargeSection. apply push_if_text_ids; [| reflexivity].
  apply (fold_left_invariant (fun st => ids_from fresh (chunks st))).
  - reflexivity.
  - intros st s Hst. unfold splitLargeSection_step.
    destruct (_ >? _)%Z; simpl; [| exact Hst].
    apply push_if_text_ids; [exact Hst | reflexivity].
Qed.

Lemma push_reindexed_ids fresh subs cs :
  ids_from fresh cs -> ids_from (fresh + length cs) subs ->
  ids_from fresh (fold_left push_reindexed subs cs).
Proof.
  revert cs. induction subs as [| sub subs IH]; intros cs Hcs Hsubs; simpl.
  - exact Hcs.
  - unfold ids_from in Hsubs. simpl in Hsubs. injection Hsubs as Hsub Hrest.
    apply IH.
    + unfold push_reindexed. apply ids_from_snoc; [exact Hcs |]. exact Hsub.
    + unfold ids_from, push_reindexed. rewrite Hrest, length_app. simpl.
      f_equal. lia.
Qed.

Lemma chunkDocument_ids text fresh : ids_from fresh (chunkDocument text fresh).
Proof.
  unfold chunkDocument. destruct (_ =? _)%nat.
  - apply slidingWindowChunk_ids.
  - apply (fold_left_invariant (ids_from fresh)).
    + reflexivity.
    + intros cs s Hcs. unfold chunkDocument_step.
      destruct (_ <=? _)%Z.
      * apply ids_from_snoc; [exact Hcs | reflexivity].
      * apply push_reindexed_ids; [exact Hcs | apply splitLargeSection_ids].
Qed.

(** Each chunk draws its own [uuidv4()]: the identifiers of the chunks of
    a document are distinct. *)
Lemma chunkDocument_ids_NoDup text fresh :
  NoDup (map id (chunkDocument text fresh)).
Proof. rewrite (chunkDocument_ids text fresh). apply seq_NoDup. Qed.

End ChunkShapeProofs.

(* ================================================================== *)
(** ** Theorems: sentences, windows and the fallback text *)
(* ================================================================== *)

Module WindowProofs.

Import Processor Spec Shape ChunkerProofs BlankProofs NormalizeProofs.

(** *** the fallback PDF text *)

Lemma replace_space_run_printable s skip :
  Forall (fun c => in_range 32 126 c || is_space c = true) s ->
  Forall printable (replace_go space_run skip s).
Proof.
  revert skip. induction s as [| c t IH]; intros skip Hs; simpl.
  - constructor.
  - inversion Hs as [| ? ? Hc Ht]; subst.
    destruct skip as [| k]; [| now apply IH].
    destruct (space_run (c :: t)) as [[out consumed] |] eqn:E.
    + apply space_run_out in E. subst out. change (js " ") with [32%N].
      apply Forall_app. split; [| now apply IH].
      constructor; [unfold printable; lia | constructor].
    + apply space_run_none in E. constructor; [| now apply IH].
      rewrite E, orb_false_r in Hc. unfold in_range in Hc.
      apply andb_true_iff in Hc. destruct Hc as [H1 H2].
      apply N.leb_le in H1, H2. split; assumption.
Qed.

Lemma join_Forall (P : N -> Prop) sep l :
  Forall P sep -> Forall (Forall P) l -> Forall P (join sep l).
Proof.
  intros Hsep Hl. induction Hl as [| x r Hx Hr IH]; simpl; [constructor |].
  destruct r as [| y r']; [exact Hx |].
  apply Forall_app. split; [exact Hx |]. apply Forall_app. split; assumption.
Qed.

(** X7: for every byte buffer, the text [extractTextFromPDFBuffer]
    recovers consists of printable ASCII code units only (U+0020 to
    U+007E: every other white-space code unit has become a space) and has
    no white space at either end. *)
Theorem X7_pdf_fallback_text_printable (buffer : Buffer) :
  Forall printable (extractTextFromPDFBuffer buffer)
  /\ trim (extractTextFromPDFBuffer buffer) = extractTextFromPDFBuffer buffer.
Proof.
  unfold extractTextFromPDFBuffer. split; [| apply trim_trim].
  apply trim_Forall. apply replace_space_run_printable.
  apply join_Forall.
  - change (js " ") with [32%N]. repeat constructor.
  - apply Forall_forall. intros m Hm. apply filter_In in Hm.
    destruct Hm as [_ Hp]. unfold printable_run in Hp.
    apply andb_true_iff in Hp. destruct Hp as [Hp _].
    apply andb_true_iff in Hp. destruct Hp as [_ Hp].
    rewrite forallb_forall in Hp. apply Forall_forall. exact Hp.
Qed.

(** *** sentences *)

(** every sentence is non-empty and trimmed *)
Lemma splitIntoSentences_solid text :
  Forall (fun s => s <> [] /\ trim s = s) (splitIntoSentences text).
Proof.
  unfold splitIntoSentences. apply Forall_forall. intros s Hs.
  apply filter_In in Hs. destruct Hs as [Hin Hlen].
  split; [intros ->; discriminate Hlen |].
  apply in_map_iff in Hin. destruct Hin as (p & <- & _). apply trim_trim.
Qed.

(** a trimmed, non-empty string starts and ends with a code unit that is
    not white space *)
Lemma trimmed_edges s :
  s <> [] -> trim s = s ->
  dropWhile is_space s = s /\ dropWhile is_space (rev s) = rev s.
Proof.
  intros Hne Ht.
  assert (Hrev : rev s = dropWhile is_space (rev (dropWhile is_space s))).
  { rewrite <- Ht at 1. unfold trim, trimEnd, trimStart. apply rev_involutive. }
  pose proof (dropWhile_head is_space s) as Hh.
  assert (Hs : dropWhile is_space s = s).
  { assert (Hlen : length s = length (dropWhile is_space s)).
    { apply Nat.le_antisymm; [| apply dropWhile_length].
      rewrite <- (length_rev s), Hrev.
      etransitivity; [apply dropWhile_length |]. now rewrite length_rev. }
    destruct s as [| c t]; [reflexivity |]. simpl in *.
    destruct (is_space c); [| reflexivity].
    pose proof (dropWhile_length is_space t). lia. }
  split; [exact Hs |].
  rewrite Hs in Hrev. now rewrite <- Hrev.
Qed.

Lemma trim_padded s :
  s <> [] -> trim s = s -> trim (js " " ++ s ++ js " ") = s.
Proof.
  intros Hne Ht. destruct (trimmed_edges Hne Ht) as [H1 H2].
  unfold trim, trimEnd, trimStart.
  change (js " " ++ s ++ js " ") with (32%N :: s ++ [32%N]).
  cbn [dropWhile]. change (is_space 32) with true. cbv iota.
  assert (H3 : dropWhile is_space (s ++ [32%N]) = s ++ [32%N]).
  { destruct s as [| c t]; [contradiction |]. simpl in *.
    destruct (is_space c); [| reflexivity].
    pose proof (dropWhile_length is_space t) as Hl. rewrite H1 in Hl.
    simpl in Hl. lia. }
  rewrite H3, rev_app_distr. cbn [rev app dropWhile].
  change (is_space 32) with true. cbv iota.
  rewrite H2. apply rev_involutive.
Qed.

Lemma estimateTokens_mono a b :
  (length a <= length b)%nat -> (estimateTokens a <= estimateTokens b)%Z.
Proof.
  intros H. unfold estimateTokens, jslength.
  apply Z.div_le_mono; lia.
Qed.

(** *** the overlap text *)

Lemma split_ws_go_cons in_ws cur s : split_ws_go in_ws cur s <> [].
Proof.
  revert in_ws cur. induction s as [| c t IH]; intros in_ws cur; simpl.
  - discriminate.
  - destruct (is_space c);
      [destruct in_ws; [apply IH | discriminate] | apply IH].
Qed.

Lemma join_space_cons x r :
  r <> [] -> join (js " ") (x :: r) = x ++ js " " ++ join (js " ") r.
Proof. destruct r; [congruence | reflexivity]. Qed.

(** the words of a text, joined by single spaces, are not longer than
    the text *)
Lemma split_ws_go_join_length in_ws cur s :
  (length (join (js " ") (split_ws_go in_ws cur s))
   <= length cur + length s)%nat.
Proof.
  revert in_ws cur. induction s as [| c t IH]; intros in_ws cur.
  - cbn [split_ws_go join]. rewrite length_rev. cbn [length]. lia.
  - cbn [split_ws_go]. destruct (is_space c).
    + destruct in_ws.
      * specialize (IH true cur). cbn [length]. lia.
      * rewrite join_space_cons by apply split_ws_go_cons.
        rewrite !length_app, length_rev. specialize (IH true []).
        change (length (js " ")) with 1%nat. cbn [length] in *. lia.
    + specialize (IH false (c :: cur)). cbn [length] in *. lia.
Qed.

Lemma join_skipn_length (l : list jsstring) k :
  (length (join (js " ") (skipn k l)) <= length (join (js " ") l))%nat.
Proof.
  revert l. induction k as [| k IH]; intros l; [cbn [skipn]; lia |].
  destruct l as [| x r]; [cbn [skipn]; lia |].
  cbn [skipn]. etransitivity; [apply IH |].
  destruct r as [| y r']; [cbn [join length]; lia |].
  rewrite (@join_space_cons x (y :: r')) by discriminate.
  rewrite !length_app. lia.
Qed.

(** X8: for every buffer, the overlap text [getOverlapText] carries into
    the next chunk consists of at most 50 words, joined by single spaces
    and followed by one space, and it is never longer than the buffer it
    is taken from plus one code unit. *)
Theorem X8_overlap_text_bounds (text : jsstring) :
  getOverlapText text = join (js " ") (overlapWords text) ++ js " "
  /\ (length (overlapWords text) <= 50)%nat
  /\ (jslength (getOverlapText text) <= jslength text + 1)%Z.
Proof.
  split; [reflexivity |].
  split; [apply overlapWords_length |].
  unfold getOverlapText, jslength. rewrite length_app.
  change (length (js " ")) with 1%nat.
  pose proof (join_skipn_length (split_ws text)
                (Z.to_nat (Z.max 0 (Z.of_nat (length (split_ws text))
                                     - chunkOverlap)))) as H1.
  pose proof (split_ws_go_join_length false [] text) as H2.
  unfold split_ws in *. cbn [length] in H2. lia.
Qed.

(** the loop of [slidingWindowChunk] only appends to [chunks] *)
Lemma slidingWindow_chunks_grow fresh sentences st :
  exists more,
    chunks (fold_left (slidingWindowChunk_step fresh) sentences st)
    = chunks st ++ more.
Proof.
  revert st. induction sentences as [| s rest IH]; intros st; simpl.
  - exists []. now rewrite app_nil_r.
  - destruct (IH (slidingWindowChunk_step fresh st s)) as [more Hmore].
    rewrite Hmore. unfold slidingWindowChunk_step.
    destruct (_ >? _)%Z; cbn [chunks].
    + destruct (push_if_text_cases st
                  {| id := fresh + length (chunks st);
                     content := trim (currentChunk st);
                     chunkIndex := Z.of_nat (length (chunks st));
                     metadata :=
                       {| section := None; clauseNumber := None;
                          pageNumber := None; startChar := chunkStart st;
                          endChar := chunkStart st + jslength (currentChunk st) |} |})
        as [-> | ->].
      * now exists more.
      * eexists. rewrite <- app_assoc. reflexivity.
    + now exists more.
Qed.

(** X9: when a text has no section and its first sentence alone is over
    the size limit, the first chunk [chunkDocument] returns is that
    sentence, and its [startChar] is -1: the empty buffer is not pushed,
    its overlap text is one space, and the new chunk start is the current
    offset 0 minus the length of that overlap. *)
Theorem X9_oversized_first_sentence_offset (text : jsstring) (fresh : nat)
  (s : jsstring) (rest : list jsstring) :
  identifySections text = [] ->
  splitIntoSentences text = s :: rest ->
  (estimateTokens (s ++ js " ") > maxChunkSize)%Z ->
  exists c more,
    chunkDocument text fresh = c :: more
    /\ content c = s
    /\ startChar (metadata c) = (-1)%Z.
Proof.
  intros Hsec Hsent Hbig.
  assert (Hsolid : s <> [] /\ trim s = s).
  { pose proof (splitIntoSentences_solid text) as H. rewrite Hsent in H.
    now inversion H. }
  destruct Hsolid as [Hne Htrim].
  unfold chunkDocument. rewrite Hsec. cbn [length Nat.eqb].
  unfold slidingWindowChunk. rewrite Hsent. cbn [fold_left].
  set (st1 := slidingWindowChunk_step fresh _ s).
  assert (Hst1 : st1 = {| chunks := [];
                          currentChunk := js " " ++ s ++ js " ";
                          chunkStart := -1;
                          currentStart := 0 + jslength s + 1 |}).
  { unfold st1, slidingWindowChunk_step. cbn [currentChunk app].
    apply Z.gtb_gt in Hbig. rewrite Hbig. reflexivity. }
  clearbody st1. subst st1.
  assert (Hnil : is_nil (trim (js " " ++ s ++ js " ")) = false).
  { rewrite (trim_padded Hne Htrim). destruct s; [contradiction | reflexivity]. }
  destruct rest as [| t rest'].
  - cbn [fold_left]. unfold push_if_text. cbn [currentChunk chunks].
    rewrite Hnil. cbn [app]. do 2 eexists. split; [reflexivity |].
    cbn. split; [apply (trim_padded Hne Htrim) | reflexivity].
  - cbn [fold_left].
    set (st2 := slidingWindowChunk_step fresh _ t).
    assert (Hst2 : exists c,
               chunks st2 = [c] /\ content c = s
               /\ startChar (metadata c) = (-1)%Z).
    { unfold st2, slidingWindowChunk_step. cbn [currentChunk].
      assert (Hgt : (estimateTokens ((js " " ++ s ++ js " ") ++ t ++ js " ")
                     >? maxChunkSize)%Z = true).
      { apply Z.gtb_gt.
        assert (H : (estimateTokens (s ++ js " ")
                     <= estimateTokens
                          ((js " " ++ s ++ js " ") ++ t ++ js " "))%Z).
        { apply estimateTokens_mono. rewrite !length_app. simpl. lia. }
        lia. }
      rewrite Hgt. cbn [chunks]. unfold push_if_text. cbn [currentChunk chunks].
      rewrite Hnil. cbn [app]. eexists. split; [reflexivity |].
      cbn. split; [apply (trim_padded Hne Htrim) | reflexivity]. }
    clearbody st2. destruct Hst2 as (c & Hc & Hcontent & Hstart).
    destruct (slidingWindow_chunks_grow fresh rest' st2) as [more Hmore].
    rewrite Hc in Hmore.
    match goal with
    | |- context [push_if_text ?st ?ch] =>
        destruct (push_if_text_cases st ch) as [-> | ->]
    end; rewrite Hmore; cbn [app]; do 2 eexists;
      (split; [reflexivity | split; assumption]).
Qed.

(** X9 at a concrete input: one sentence of 2001 code units. *)
Lemma X9_oversized_first_sentence_offset_witness :
  exists c more,
    chunkDocument oversized_sentence 0 = c :: more
    /\ content c = oversized_sentence
    /\ startChar (metadata c) = (-1)%Z.
Proof.
  apply (@X9_oversized_first_sentence_offset oversized_sentence 0
           oversized_sentence []).
  - vm_compute. reflexivity.
  - vm_compute. reflexivity.
  - vm_compute. reflexivity.
Defined.

End WindowProofs.

(* ================================================================== *)
(** ** Theorems: ingestion *)
(* ================================================================== *)

Module IngestProofs.

Import Processor Rag Spec Shape ChunkerProofs PipelineProofs.
Import ChunkShapeProofs.

(** *** [map] with the index *)

Lemma map_mapi_from {A B C} (h : B -> C) (f : A -> nat -> B) l i :
  map h (mapi_from i f l) = mapi_from i (fun x j => h (f x j)) l.
Proof.
  revert i. induction l as [| x l IH]; intros i; simpl; [reflexivity |].
  now rewrite IH.
Qed.

Lemma mapi_from_map {A B} (k : A -> B) l i :
  mapi_from i (fun x _ => k x) l = map k l.
Proof.
  revert i. induction l as [| x l IH]; intros i; simpl; [reflexivity |].
  now rewrite IH.
Qed.

Lemma mapi_from_index {A B} (k : nat -> B) (l : list A) i :
  mapi_from i (fun _ j => k j) l = map k (seq i (length l)).
Proof.
  revert i. induction l as [| x l IH]; intros i; simpl; [reflexivity |].
  now rewrite IH.
Qed.

Lemma mapi_from_length {A B} (f : A -> nat -> B) l i :
  length (mapi_from i f l) = length l.
Proof.
  revert i. induction l as [| x l IH]; intros i; simpl; [reflexivity |].
  now rewrite IH.
Qed.

Lemma mapi_from_nth {A B} (f : A -> nat -> B) l i j x :
  nth_error l j = Some x ->
  nth_error (mapi_from i f l) j = Some (f x (i + j)%nat).
Proof.
  revert i j. induction l as [| y l IH]; intros i j H.
  - destruct j; discriminate.
  - destruct j as [| j]; simpl in *.
    + injection H as ->. now rewrite Nat.add_0_r.
    + rewrite (IH (S i) j H). f_equal. f_equal. lia.
Qed.

(** *** the server's upsert *)

Section Upsert.

Variable Vec : Type.

Lemma upsert_point_in (pt : Point Vec) pts : In pt (upsert_point pt pts).
Proof.
  induction pts as [| q rest IH]; simpl; [now left |].
  destruct (Nat.eqb (pt_id q) (pt_id pt)); [now left | now right].
Qed.

Lemma upsert_point_keeps (pt q : Point Vec) pts :
  pt_id q <> pt_id pt -> In q pts -> In q (upsert_point pt pts).
Proof.
  intros Hne. induction pts as [| a rest IH]; simpl; [tauto |].
  intros [-> | Hin].
  - destruct (Nat.eqb (pt_id q) (pt_id pt)) eqn:E.
    + apply Nat.eqb_eq in E. contradiction.
    + now left.
  - destruct (Nat.eqb (pt_id a) (pt_id pt)); right; auto.
Qed.

(** points with distinct identifiers are all in the collection after
    they were upserted *)
Lemma upsert_all_in (pts : list (Point Vec)) (old : list (Point Vec)) :
  NoDup (map (@pt_id Vec) pts) ->
  forall pt, In pt pts ->
    In pt (fold_left (fun acc pt => upsert_point pt acc) pts old).
Proof.
  revert old. induction pts as [| a rest IH]; intros old Hnd pt Hin;
    [destruct Hin |].
  simpl in Hnd. inversion Hnd as [| ? ? Hnot Hnd']; subst.
  simpl. destruct Hin as [-> | Hin].
  - clear IH Hnd.
    assert (H : forall l, In pt l ->
              In pt (fold_left (fun acc pt => upsert_point pt acc) rest l)).
    { clear Hnd'. induction rest as [| b rest IH]; intros l Hl; simpl;
        [exact Hl |].
      apply IH.
      - intros Hin. apply Hnot. now right.
      - apply upsert_point_keeps; [| exact Hl].
        intros E. apply Hnot. left. now symmetry. }
    apply H. apply upsert_point_in.
  - now apply IH.
Qed.

End Upsert.

Section Pipeline.

Variable Vec : Type.
Variable env : Env Vec.

(** *** what each service leaves untouched *)

Lemma upsertVectors_frame docs (w w' : World Vec) (r : Result unit) :
  upsertVectors env docs w = (r, w') -> index_only w w'.
Proof.
  unfold upsertVectors, initialize, bind, qdrant_request, get, modify, ret,
    throw.
  destruct (has_qdrant_client env); cbn; [| frame].
  destruct (qdrant_fault_at env (qdrant_requests w)); cbn; [frame |].
  destruct (collection w); cbn.
  - destruct (qdrant_fault_at env (S (qdrant_requests w))); cbn; frame.
  - destruct (qdrant_fault_at env (S (qdrant_requests w))); cbn; [frame |].
    destruct (qdrant_fault_at env (S (S (qdrant_requests w)))); cbn; frame.
Qed.

Lemma chat_frame messages (w w' : World Vec) (r : Result LLMResponse) :
  chat env messages w = (r, w') -> llm_only messages w w'.
Proof.
  unfold chat, bind, record_llm_call, modify, lift, ret, throw.
  destruct (groq_client env) as [create |].
  - cbn. destruct (create messages); intros H; injection H as _ <-;
      repeat split; right; reflexivity.
  - destruct (gemini_client env) as [gen |].
    + cbn. destruct (gen _); intros H; injection H as _ <-;
        repeat split; right; reflexivity.
    + intros H; injection H as _ <-. repeat split. left; reflexivity.
Qed.

(** The status updates of the [try] block: [processing] first, and
    [completed] exactly when the block returns. *)
Lemma ingest_body_log documentId userId fileBuffer fileType filename startTime
  (w w' : World Vec) (res : Result DocumentIngestionResult) :
  ingest_body env documentId userId fileBuffer fileType filename startTime w
  = (res, w') ->
  match res with
  | Ok r =>
      r = {| ir_documentId := documentId;
             chunksCreated := chunksCreated r;
             status := ingest_completed; error := None |}
      /\ (0 < chunksCreated r)%Z
      /\ documents_updates w'
         = documents_updates w
           ++ [(documentId, processing); (documentId, completed)]
      /\ (forall row, In row (documents w') -> doc_id row = documentId ->
          doc_status row = completed)
  | Throw _ =>
      documents_updates w' = documents_updates w ++ [(documentId, processing)]
      /\ documents w' = set_status documentId processing (documents w)
  end.
Proof.
  unfold ingest_body, bind, update_status, modify, lift, get, bump_uuid.
  destruct (extractText _ _ _ _ _ _) as [doc | e].
  2:{ cbn. intros H; injection H as <- <-. cbn. split; reflexivity. }
  cbn [set_documents uuid_calls].
  set (chunks := chunkDocument _ _).
  destruct (length chunks =? 0)%nat eqn:Hlen.
  { cbn. intros H; injection H as <- <-. cbn. split; reflexivity. }
  cbn [insert_chunks modify].
  match goal with
  | |- context [upsertVectors env ?d ?w0] =>
      destruct (upsertVectors env d w0) as [[[] | e] w3] eqn:Hup;
      apply upsertVectors_frame in Hup;
      destruct Hup as ([(Hd & Hc & Hq & Hu & Hl) Hllm] & Hclock & Huuid);
      cbn in Hd, Hc, Hq, Hu, Hl, Hllm, Hclock, Huuid
  end.
  2:{ intros H; injection H as <- <-. split; assumption. }
  match goal with
  | |- context [chat env ?m ?w0] =>
      destruct (chat env m w0) as [[resp | e] w4] eqn:Hchat;
      apply chat_frame in Hchat;
      destruct Hchat as ((Hd' & Hc' & Hq' & Hu' & Hl') & _)
  end.
  2:{ intros H; injection H as <- <-. split; congruence. }
  cbn. intros H; injection H as <- <-. cbn.
  split; [reflexivity |]. split.
  - apply Nat.eqb_neq in Hlen. lia.
  - split.
    + rewrite Hl', Hl, <- app_assoc. reflexivity.
    + intros row Hin Hid. rewrite Hd', Hd in Hin.
      apply in_map_iff in Hin. destruct Hin as (row0 & <- & _).
      destruct (eqb (doc_id row0) documentId) eqn:E; [reflexivity |].
      rewrite Hid, eqb_refl in E. discriminate E.
Qed.

(** X10: [ingestDocument] throws only when the Supabase environment is
    missing, and then before anything is written (only the clock has
    been read).  Otherwise it returns a result for every document, every
    environment and every failure of a collaborator, and the status
    updates it has issued are [processing] followed by exactly one final
    status that agrees with the result: [completed], with no error and at
    least one chunk created, or [failed], with an error message and zero
    chunks created.  A document is never left in [processing]. *)
Theorem X10_ingestDocument_outcome (documentId userId : jsstring)
  (fileBuffer : Buffer) (fileType filename : jsstring) (w : World Vec) :
  (has_supabase_env env = false ->
   ingestDocument env documentId userId fileBuffer fileType filename w
   = (Throw (js "Missing Supabase environment variables"), tick env w))
  /\ (has_supabase_env env = true ->
      exists r w',
        ingestDocument env documentId userId fileBuffer fileType filename w
        = (Ok r, w')
        /\ ir_documentId r = documentId
        /\ ((status r = ingest_completed /\ error r = None
             /\ (0 < chunksCreated r)%Z
             /\ documents_updates w'
                = documents_updates w
                  ++ [(documentId, processing); (documentId, completed)]
             /\ (forall row, In row (documents w') -> doc_id row = documentId ->
                 doc_status row = completed))
            \/ (status r = ingest_failed /\ error r <> None
                /\ chunksCreated r = 0%Z
                /\ documents_updates w'
                   = documents_updates w
                     ++ [(documentId, processing); (documentId, failed)]
                /\ documents w' = set_status documentId failed (documents w)))).
Proof.
  split; intros Hsupa;
    unfold ingestDocument, bind, createServiceClient, try_catch;
    rewrite Hsupa; cbn [Date_now ret throw].
  - reflexivity.
  - match goal with
    | |- context [ingest_body env ?a ?b ?c ?d ?e ?t ?w0] =>
        destruct (ingest_body env a b c d e t w0) as [[r | e0] w1] eqn:Hbody;
        apply ingest_body_log in Hbody
    end.
    + destruct Hbody as (Hr & Hpos & Hlog & Hrows).
      exists r, w1. split; [reflexivity |]. rewrite Hr. cbn.
      split; [reflexivity |]. left. repeat split; assumption.
    + destruct Hbody as (Hlog & Hdocs). cbn.
      do 2 eexists. split; [reflexivity |]. cbn.
      split; [reflexivity |]. right.
      split; [reflexivity |]. split; [discriminate |]. split; [reflexivity |].
      split.
      * rewrite Hlog, <- app_assoc. reflexivity.
      * rewrite Hdocs. apply set_status_twice.
Qed.

(** X11: when the vector index is not configured and the document yields
    at least one chunk, [ingestDocument] returns the failure result with
    the error of [upsertVectors], but the chunk rows are already in the
    [document_chunks] table (the insert into the store is taken to
    succeed): one row per chunk, with the chunk's content and the
    document's identifier.  The failure does not remove them.  No
    generation provider is called and the vector index is unchanged. *)
Theorem X11_ingest_without_vector_index (documentId userId : jsstring)
  (fileBuffer : Buffer) (fileType filename : jsstring) (w : World Vec)
  (doc : ProcessedDocument) :
  has_supabase_env env = true ->
  has_qdrant_client env = false ->
  extractText (pdf_parser env) (docx_parser env) (utf8_decoder env)
    fileBuffer fileType filename = Ok doc ->
  chunkDocument (normalizeText (text doc)) (uuid_calls w) <> [] ->
  exists w' rows,
    ingestDocument env documentId userId fileBuffer fileType filename w
    = (Ok {| ir_documentId := documentId; chunksCreated := 0;
             status := ingest_failed;
             error := Some (js "Qdrant client not configured") |}, w')
    /\ document_chunks w' = document_chunks w ++ rows
    /\ map chunk_content rows
       = map content (chunkDocument (normalizeText (text doc)) (uuid_calls w))
    /\ Forall (fun row => chunk_document_id row = documentId) rows
    /\ rows <> []
    /\ collection w' = collection w
    /\ llm_calls w' = llm_calls w
    /\ documents w' = set_status documentId failed (documents w).
Proof.
  intros Hsupa Hq Hextract Hchunks.
  unfold ingestDocument, bind, createServiceClient, try_catch.
  rewrite Hsupa. cbn [Date_now ret].
  unfold ingest_body, bind, update_status, modify, lift, get, bump_uuid.
  rewrite Hextract. cbn [set_documents uuid_calls].
  set (chunks := chunkDocument _ _) in *.
  destruct (length chunks =? 0)%nat eqn:Hlen.
  { apply Nat.eqb_eq in Hlen. destruct chunks; [contradiction | discriminate]. }
  unfold upsertVectors. rewrite Hq. cbn.
  eexists. eexists. split; [reflexivity |]. cbn.
  split; [reflexivity |]. split.
  - unfold mapi. rewrite map_mapi_from. cbn. apply mapi_from_map.
  - split.
    + apply Forall_forall. intros row Hin.
      apply In_nth_error in Hin. destruct Hin as [j Hj].
      unfold mapi in Hj.
      destruct (nth_error chunks j) as [c |] eqn:Hc.
      * rewrite (mapi_from_nth _ _ 0 j Hc) in Hj. injection Hj as <-.
        reflexivity.
      * apply nth_error_None in Hc.
        assert (Hsome : nth_error (mapi_from 0
                  (fun chunk i =>
                     {| chunk_id := id chunk; chunk_document_id := documentId;
                        chunk_index := Z.of_nat i;
                        chunk_content := content chunk;
                        chunk_metadata := metadata chunk;
                        vector_id := id chunk |})
                  chunks) j <> None) by (rewrite Hj; discriminate).
        apply nth_error_Some in Hsome. rewrite mapi_from_length in Hsome. lia.
    + split.
      * destruct chunks; [contradiction | discriminate].
      * repeat split. apply set_status_twice.
Qed.

(** X12: when the text of a document cannot be extracted (an
    unsupported file type, a parser that fails with no usable fallback),
    [ingestDocument] returns the failure result with the message of the
    extraction error, zero chunks created, and the document's status set
    to [failed]; no chunk row is written, no identifier is drawn, no
    request is sent to the vector index and no generation provider is
    called. *)
Theorem X12_ingest_extraction_failure (documentId userId : jsstring)
  (fileBuffer : Buffer) (fileType filename : jsstring) (w : World Vec)
  (e : jsstring) :
  has_supabase_env env = true ->
  extractText (pdf_parser env) (docx_parser env) (utf8_decoder env)
    fileBuffer fileType filename = Throw e ->
  exists w',
    ingestDocument env documentId userId fileBuffer fileType filename w
    = (Ok {| ir_documentId := documentId; chunksCreated := 0;
             status := ingest_failed; error := Some e |}, w')
    /\ documents w' = set_status documentId failed (documents w)
    /\ document_chunks w' = document_chunks w
    /\ usage_tracking w' = usage_tracking w
    /\ collection w' = collection w
    /\ qdrant_requests w' = qdrant_requests w
    /\ llm_calls w' = llm_calls w
    /\ uuid_calls w' = uuid_calls w.
Proof.
  intros Hsupa Hextract.
  unfold ingestDocument, bind, createServiceClient, try_catch.
  rewrite Hsupa. cbn [Date_now ret].
  unfold ingest_body, bind, update_status, modify, lift, get, bump_uuid.
  rewrite Hextract. cbn.
  eexists. split; [reflexivity |]. cbn.
  split; [apply set_status_twice |]. repeat split.
Qed.

(** the points the pipeline upserts for the chunks of a document are in
    the collection afterwards *)
Lemma stored_points (documentId userId : jsstring)
  (normalizedText : jsstring) (fresh : nat) (old : list (Point Vec)) i c :
  let chunks := chunkDocument normalizedText fresh in
  nth_error chunks i = Some c ->
  In {| pt_id := id c; pt_vector := embedder env (content c);
        pt_payload := chunk_payload documentId userId c i |}
     (fold_left (fun acc pt => upsert_point pt acc)
        (map (fun d : VectorDocument Vec =>
                {| pt_id := vd_id d; pt_vector := embedding d;
                   pt_payload := payload_of d |})
           (mapi (fun (chunk : DocumentChunk) (i : nat) =>
                    {| vd_id := id chunk; vd_content := content chunk;
                       embedding :=
                         nth i (embedBatch env (map content chunks))
                           (embedder env []);
                       vd_metadata :=
                         {| documentId := documentId; userId := userId;
                            vm_chunkIndex := Z.of_nat i; documentType := None;
                            vm_section := section (metadata chunk);
                            vm_pageNumber := pageNumber (metadata chunk);
                            isCorpus := None |} |}) chunks)) old).
Proof.
  intros chunks Hc.
  match goal with
  | |- In _ (fold_left _ (map ?mk0 (mapi ?f0 _)) _) =>
      set (mk := mk0); set (f := f0)
  end.
  apply upsert_all_in.
  - rewrite map_map. unfold mapi. rewrite map_mapi_from. cbn.
    rewrite mapi_from_map. apply chunkDocument_ids_NoDup.
  - assert (Hd : nth_error (mapi f chunks) i = Some (f c i))
      by (unfold mapi; now rewrite (mapi_from_nth f _ 0 i Hc)).
    apply (map_nth_error mk) in Hd. apply nth_error_In in Hd.
    assert (Heq : mk (f c i)
                  = {| pt_id := id c; pt_vector := embedder env (content c);
                       pt_payload := chunk_payload documentId userId c i |}).
    { unfold mk, f. cbn. f_equal.
      unfold embedBatch. rewrite map_map.
      apply nth_error_nth.
      exact (map_nth_error (fun x => embedder env (content x)) i chunks Hc). }
    rewrite <- Heq. exact Hd.
Qed.

(** X13: when no generation provider is configured and everything else
    works, every ingestion of a document with text fails at the summary
    step: [ingestDocument] returns the failure result with the message of
    [chat] and sets the status to [failed], but the chunk rows and the
    vectors of the document are already stored and stay stored (the
    points are in the collection, searchable); no usage event is
    recorded. *)
Theorem X13_ingest_without_provider (documentId userId : jsstring)
  (fileBuffer : Buffer) (fileType filename : jsstring) (w : World Vec)
  (doc : ProcessedDocument) :
  has_supabase_env env = true ->
  has_qdrant_client env = true ->
  (forall n, qdrant_fault_at env n = None) ->
  groq_client env = None ->
  gemini_client env = None ->
  extractText (pdf_parser env) (docx_parser env) (utf8_decoder env)
    fileBuffer fileType filename = Ok doc ->
  chunkDocument (normalizeText (text doc)) (uuid_calls w) <> [] ->
  let chunks := chunkDocument (normalizeText (text doc)) (uuid_calls w) in
  exists w',
    ingestDocument env documentId userId fileBuffer fileType filename w
    = (Ok {| ir_documentId := documentId; chunksCreated := 0;
             status := ingest_failed;
             error := Some (js "No LLM provider configured. Set GROQ_API_KEY or GOOGLE_GEMINI_API_KEY") |},
       w')
    /\ documents w' = set_status documentId failed (documents w)
    /\ (exists points,
          collection w' = Some points
          /\ forall i c, nth_error chunks i = Some c ->
               In {| pt_id := id c; pt_vector := embedder env (content c);
                     pt_payload := chunk_payload documentId userId c i |}
                  points)
    /\ (exists rows,
          document_chunks w' = document_chunks w ++ rows
          /\ map chunk_content rows = map content chunks)
    /\ usage_tracking w' = usage_tracking w
    /\ llm_calls w' = llm_calls w.
Proof.
  intros Hsupa Hq Hfault Hgroq Hgemini Hextract Hne chunks.
  unfold ingestDocument, bind, createServiceClient, try_catch.
  rewrite Hsupa. cbn [Date_now ret].
  unfold ingest_body, bind, update_status, modify, lift, get, bump_uuid.
  rewrite Hextract. cbn [set_documents uuid_calls].
  fold chunks.
  destruct (length chunks =? 0)%nat eqn:Hlen.
  { apply Nat.eqb_eq in Hlen. apply length_zero_iff_nil in Hlen.
    exfalso. exact (Hne Hlen). }
  unfold upsertVectors, initialize, bind, qdrant_request, get, modify, ret.
  unfold chat. rewrite Hq, Hgroq, Hgemini. cbn. rewrite !Hfault.
  destruct (collection w) as [old |] eqn:Hcol; cbn; rewrite ?Hfault; cbn;
    (eexists; split; [reflexivity |]; cbn;
     split; [apply set_status_twice |];
     split; [eexists; split; [reflexivity |];
             intros i c Hc;
             apply (@stored_points documentId userId
                      (normalizeText (text doc)) (uuid_calls w) _ i c Hc) |];
     split; [eexists; split; [reflexivity |];
             unfold mapi; rewrite map_mapi_from; cbn; apply mapi_from_map |];
     split; reflexivity).
Qed.

(** X14: when the Supabase environment and the vector index are
    configured, no request to the index fails, the generation provider
    answers, the text is extracted and it yields at least one chunk, then
    [ingestDocument] returns the [completed] result with the number of
    chunks, and afterwards: the collection holds, for the chunk at each
    index i, a point with the chunk's identifier, the embedding of its
    content and a payload with its content, the document, the user, the
    index i and the chunk's section; [document_chunks] has gained one row
    per chunk, in order, with indices 0, 1, 2, ...; every row of the
    document has status [completed] and the normalised text as raw text;
    one usage event [document_upload] of the user and one request to the
    generation provider were added. *)
Theorem X14_ingest_success (documentId userId : jsstring)
  (fileBuffer : Buffer) (fileType filename : jsstring) (w : World Vec)
  (doc : ProcessedDocument) :
  has_supabase_env env = true ->
  has_qdrant_client env = true ->
  (forall n, qdrant_fault_at env n = None) ->
  llm_answers env ->
  extractText (pdf_parser env) (docx_parser env) (utf8_decoder env)
    fileBuffer fileType filename = Ok doc ->
  chunkDocument (normalizeText (text doc)) (uuid_calls w) <> [] ->
  let chunks := chunkDocument (normalizeText (text doc)) (uuid_calls w) in
  exists w',
    ingestDocument env documentId userId fileBuffer fileType filename w
    = (Ok {| ir_documentId := documentId;
             chunksCreated := Z.of_nat (length chunks);
             status := ingest_completed; error := None |}, w')
    /\ (exists points,
          collection w' = Some points
          /\ forall i c, nth_error chunks i = Some c ->
               In {| pt_id := id c; pt_vector := embedder env (content c);
                     pt_payload := chunk_payload documentId userId c i |}
                  points)
    /\ (exists rows,
          document_chunks w' = document_chunks w ++ rows
          /\ map chunk_content rows = map content chunks
          /\ map chunk_index rows = map Z.of_nat (seq 0 (length chunks)))
    /\ (forall row, In row (documents w') -> doc_id row = documentId ->
          doc_status row = completed
          /\ raw_text row = Some (normalizeText (text doc)))
    /\ (exists u,
          usage_tracking w' = usage_tracking w ++ [u]
          /\ u_user_id u = userId /\ action_type u = js "document_upload")
    /\ (exists call, llm_calls w' = llm_calls w ++ [call]).
Proof.
  intros Hsupa Hq Hfault Hllm Hextract Hne chunks.
  unfold ingestDocument, bind, createServiceClient, try_catch.
  rewrite Hsupa. cbn [Date_now ret].
  unfold ingest_body, bind, update_status, modify, lift, get, bump_uuid.
  rewrite Hextract. cbn [set_documents uuid_calls].
  fold chunks.
  destruct (length chunks =? 0)%nat eqn:Hlen.
  { apply Nat.eqb_eq in Hlen. apply length_zero_iff_nil in Hlen.
    exfalso. exact (Hne Hlen). }
  unfold upsertVectors, initialize, bind, qdrant_request, get, modify, ret.
  rewrite Hq. cbn. rewrite !Hfault.
  destruct (collection w) as [old |] eqn:Hcol; cbn; rewrite ?Hfault; cbn;
    match goal with
    | |- context [chat env ?m ?w0] =>
        destruct (Hllm m w0) as [response Hchat]; rewrite Hchat
    end; cbn;
    (eexists; split; [reflexivity |]; cbn;
     split; [eexists; split; [reflexivity |];
             intros i c Hc;
             apply (@stored_points documentId userId
                      (normalizeText (text doc)) (uuid_calls w) _ i c Hc) |];
     split; [eexists; split; [reflexivity |]; split;
             [ unfold mapi; rewrite map_mapi_from; cbn; apply mapi_from_map
             | unfold mapi; rewrite map_mapi_from; cbn;
               apply (mapi_from_index Z.of_nat chunks 0) ] |];
     split; [ intros row Hin Hid; apply in_map_iff in Hin;
              destruct Hin as (row0 & <- & Hin0);
              apply in_map_iff in Hin0; destruct Hin0 as (row1 & <- & _);
              cbn in Hid |- *;
              destruct (eqb (doc_id row1) documentId) eqn:E;
              [ cbn in Hid |- *; rewrite E; cbn; split; reflexivity
              | cbn in Hid |- *; rewrite E in *; cbn;
                rewrite Hid, eqb_refl in E; discriminate E ] |];
     split; [eexists; split; [reflexivity | split; reflexivity] |];
     eexists; reflexivity).
Qed.

End Pipeline.

(** X10 at a concrete input: the Supabase environment is set. *)
Lemma X10_ingestDocument_outcome_witness :
  exists r w',
    ingestDocument (demo_env no_results (parsed_as lease_text))
      (js "doc-1") (js "user-1") [] (js "pdf") (js "lease.pdf") demo_world
    = (Ok r, w')
    /\ ir_documentId r = js "doc-1".
Proof.
  destruct (proj2 (@X10_ingestDocument_outcome unit
                     (demo_env no_results (parsed_as lease_text))
                     (js "doc-1") (js "user-1") [] (js "pdf")
                     (js "lease.pdf") demo_world) eq_refl)
    as (r & w' & Hrun & Hid & _).
  exists r, w'. split; assumption.
Defined.

(** X11 at a concrete input: a one-section PDF, no vector index. *)
Lemma X11_ingest_without_vector_index_witness :
  exists w' rows,
    ingestDocument (offline_env (parsed_as lease_text))
      (js "doc-1") (js "user-1") [] (js "pdf") (js "lease.pdf") demo_world
    = (Ok {| ir_documentId := js "doc-1"; chunksCreated := 0;
             status := ingest_failed;
             error := Some (js "Qdrant client not configured") |}, w')
    /\ document_chunks w' = rows
    /\ map chunk_content rows = [lease_text].
Proof.
  assert (Hne : chunkDocument (normalizeText lease_text) 0 <> [])
    by (vm_compute; discriminate).
  destruct (@X11_ingest_without_vector_index unit
              (offline_env (parsed_as lease_text))
              (js "doc-1") (js "user-1") [] (js "pdf") (js "lease.pdf")
              demo_world
              {| text := lease_text; pages := 1;
                 doc_metadata := {| title := None; author := None;
                                    creationDate := None |} |}
              eq_refl eq_refl eq_refl Hne)
    as (w' & rows & Hrun & Hrows & Hcontent & _).
  exists w', rows. split; [exact Hrun |]. split; [exact Hrows |].
  rewrite Hcontent. vm_compute. reflexivity.
Defined.

(** X12 at a concrete input: an image, which is not a supported type. *)
Lemma X12_ingest_extraction_failure_witness :
  exists w',
    ingestDocument (demo_env no_results failing_pdfParse)
      (js "doc-1") (js "user-1") [] (js "image/png") (js "scan.png")
      demo_world
    = (Ok {| ir_documentId := js "doc-1"; chunksCreated := 0;
             status := ingest_failed;
             error := Some (js "Unsupported file type: image/png") |}, w')
    /\ document_chunks w' = [] /\ llm_calls w' = [].
Proof.
  destruct (@X12_ingest_extraction_failure unit
              (demo_env no_results failing_pdfParse)
              (js "doc-1") (js "user-1") [] (js "image/png") (js "scan.png")
              demo_world (js "Unsupported file type: image/png")
              eq_refl eq_refl)
    as (w' & Hrun & _ & Hchunks & _ & _ & _ & Hllm & _).
  exists w'. repeat split; assumption.
Defined.

(** X13 at a concrete input: a one-section PDF, no API key. *)
Lemma X13_ingest_without_provider_witness :
  exists w' points,
    ingestDocument (mute_env (parsed_as lease_text))
      (js "doc-1") (js "user-1") [] (js "pdf") (js "lease.pdf") demo_world
    = (Ok {| ir_documentId := js "doc-1"; chunksCreated := 0;
             status := ingest_failed;
             error := Some (js "No LLM provider configured. Set GROQ_API_KEY or GOOGLE_GEMINI_API_KEY") |},
       w')
    /\ collection w' = Some points
    /\ map doc_status (documents w') = [failed].
Proof.
  assert (Hne : chunkDocument (normalizeText lease_text) 0 <> [])
    by (vm_compute; discriminate).
  destruct (@X13_ingest_without_provider unit
              (mute_env (parsed_as lease_text))
              (js "doc-1") (js "user-1") [] (js "pdf") (js "lease.pdf")
              demo_world
              {| text := lease_text; pages := 1;
                 doc_metadata := {| title := None; author := None;
                                    creationDate := None |} |}
              eq_refl eq_refl (fun _ => eq_refl) eq_refl eq_refl eq_refl Hne)
    as (w' & Hrun & Hdocs & (points & Hcol & _) & _).
  exists w', points. split; [exact Hrun |]. split; [exact Hcol |].
  rewrite Hdocs. reflexivity.
Defined.

(** X14 at a concrete input: a one-section PDF, everything configured. *)
Lemma X14_ingest_success_witness :
  exists w' points,
    ingestDocument (demo_env no_results (parsed_as lease_text))
      (js "doc-1") (js "user-1") [] (js "pdf") (js "lease.pdf") demo_world
    = (Ok {| ir_documentId := js "doc-1"; chunksCreated := 1;
             status := ingest_completed; error := None |}, w')
    /\ collection w' = Some points
    /\ In {| pt_id := 0; pt_vector := tt;
             pt_payload :=
               demo_payload lease_text
                 (Some (js "Section 1: Payment is due within 30 days.")) |}
          points.
Proof.
  assert (Hne : chunkDocument (normalizeText lease_text) 0 <> [])
    by (vm_compute; discriminate).
  destruct (@X14_ingest_success unit
              (demo_env no_results (parsed_as lease_text))
              (js "doc-1") (js "user-1") [] (js "pdf") (js "lease.pdf")
              demo_world
              {| text := lease_text; pages := 1;
                 doc_metadata := {| title := None; author := None;
                                    creationDate := None |} |}
              eq_refl eq_refl (fun _ => eq_refl) (demo_llm_answers _ _)
              eq_refl Hne)
    as (w' & Hrun & (points & Hcol & Hpts) & _).
  exists w', points. split; [exact Hrun |]. split; [exact Hcol |].
  apply (Hpts 0%nat
           {| id := 0; content := lease_text; chunkIndex := 0;
              metadata :=
                {| section := Some (js "Section 1: Payment is due within 30 days.");
                   clauseNumber := Some (js "1"); pageNumber := None;
                   startChar := 0; endChar := 41 |} |}).
  vm_compute. reflexivity.
Defined.

End IngestProofs.

(* ================================================================== *)
(** ** Theorems: queries, the vector index and the generation provider *)
(* ================================================================== *)

Module QueryProofs.

Import Processor Rag Spec Shape ChunkerProofs PipelineProofs IngestProofs.
Import VectorAdmin.

Lemma eqb_eq (a b : jsstring) : eqb a b = true <-> a = b.
Proof.
  split.
  - revert b. induction a as [| x a IH]; intros [| y b]; simpl;
      try discriminate.
    + reflexivity.
    + intros H. apply andb_true_iff in H. destruct H as [Hx Hab].
      apply N.eqb_eq in Hx. subst y. f_equal. now apply IH.
  - intros ->. apply eqb_refl.
Qed.

Lemma total_lower (scores : list Q) (lo : Q) :
  (forall x, In x scores -> lo <= x) ->
  lo * inject_Z (Z.of_nat (length scores)) <= total scores.
Proof.
  induction scores as [| x rest IH]; intros H.
  - simpl. rewrite Qmult_0_r. apply Qle_refl.
  - cbn [length total]. rewrite Nat2Z.inj_succ. unfold Z.succ.
    rewrite inject_Z_plus.
    setoid_replace (lo * (inject_Z (Z.of_nat (length rest)) + inject_Z 1))
      with (lo + lo * inject_Z (Z.of_nat (length rest))) by ring.
    apply Qplus_le_compat.
    + apply H. now left.
    + apply IH. intros y Hy. apply H. now right.
Qed.

Lemma mean_lower (scores : list Q) (lo : Q) :
  scores <> [] -> (forall x, In x scores -> lo <= x) -> lo <= mean scores.
Proof.
  intros Hne H. unfold mean.
  assert (Hpos : 0 < inject_Z (Z.of_nat (length scores))).
  { destruct scores; [contradiction |].
    change 0 with (inject_Z 0). rewrite <- Zlt_Qlt. simpl. lia. }
  apply Qle_shift_div_l; [exact Hpos |].
  now apply total_lower.
Qed.

Section Pipeline.

Variable Vec : Type.
Variable env : Env Vec.

(** X15: whatever [query] does, it never changes the documents, the chunk
    rows or the status log.  A query that throws has stored nothing: no
    query row and no usage event.  A query that returns with no citation
    (the zero-result path) has stored nothing either and has called no
    generation provider.  A query that returns with citations has added
    exactly one query row and one usage event, and the stored row records
    the user, the question, and the answer, citations, confidence and
    token count that were returned. *)
Theorem X15_query_persistence (userId queryText : jsstring)
  (options : QueryOptions) (w w' : World Vec) (res : Result RAGQueryResult) :
  query env userId queryText options w = (res, w') ->
  documents w' = documents w
  /\ document_chunks w' = document_chunks w
  /\ documents_updates w' = documents_updates w
  /\ match res with
     | Throw _ =>
         queries w' = queries w /\ usage_tracking w' = usage_tracking w
     | Ok r =>
         (citations r = [] /\ queries w' = queries w
          /\ usage_tracking w' = usage_tracking w
          /\ llm_calls w' = llm_calls w)
         \/ (citations r <> []
             /\ exists row u,
                  queries w' = queries w ++ [row]
                  /\ usage_tracking w' = usage_tracking w ++ [u]
                  /\ q_user_id row = userId
                  /\ query_text row = queryText
                  /\ response_text row = answer r
                  /\ q_citations row = citations r
                  /\ confidence_score row = confidence r
                  /\ tokens_used row = tokensUsed r
                  /\ u_user_id u = userId
                  /\ action_type u = js "query")
     end.
Proof.
  unfold query, bind. cbn [Date_now].
  match goal with
  | |- context [search env ?v ?l ?f ?w0] =>
      destruct (search env v l f w0) as [[rs | e] w1] eqn:Hsearch;
      apply search_quiet in Hsearch;
      destruct Hsearch as [(Hd & Hc & Hq & Hu & Hl) Hllm];
      cbn in Hd, Hc, Hq, Hu, Hl, Hllm
  end.
  2:{ intros H; injection H as <- <-. repeat split; assumption. }
  destruct rs as [| r0 rs'].
  { cbn. intros H; injection H as <- <-. cbn.
    repeat split; try assumption. left. repeat split; assumption. }
  cbn [length Nat.eqb].
  unfold createServiceClient, answerWithContext.
  destruct (has_supabase_env env).
  - destruct (truthy (opt_documentId options)) as [d |];
      cbn [ret select_single bind get];
      match goal with
      | |- context [chat env ?m ?w0] =>
          destruct (chat env m w0) as [[resp | e] w2] eqn:Hchat;
          apply chat_frame in Hchat;
          destruct Hchat as ((Hd' & Hc' & Hq' & Hu' & Hl') & _)
      end;
      cbn; intros H; injection H as <- <-; cbn;
      repeat split; try congruence;
      right; (split; [discriminate |]); do 2 eexists;
      (split; [rewrite Hq', Hq; reflexivity |]);
      (split; [rewrite Hu', Hu; reflexivity |]);
      repeat split.
  - destruct (truthy (opt_documentId options)) as [d |]; cbn [throw ret].
    + intros H; injection H as <- <-. repeat split; assumption.
    + match goal with
      | |- context [chat env ?m ?w0] =>
          destruct (chat env m w0) as [[resp | e] w2] eqn:Hchat;
          apply chat_frame in Hchat;
          destruct Hchat as ((Hd' & Hc' & Hq' & Hu' & Hl') & _)
      end;
      cbn; intros H; injection H as <- <-; repeat split; congruence.
Qed.

(** X16: when the Supabase environment is missing and the vector search
    of a query returns results, [query] throws the error of
    [createServiceClient] and stores nothing.  With a document identifier
    it throws at the lookup of the document's title, before any
    generation provider is called; without one it throws only when the
    query is to be stored, after the provider has been called and has
    answered: the answer is generated and then lost. *)
Theorem X16_query_without_store (userId queryText : jsstring)
  (options : QueryOptions) (w w2 : World Vec) (rs : list SearchResult) :
  has_supabase_env env = false ->
  llm_answers env ->
  search_of_query env userId queryText options (tick env w) = (Ok rs, w2) ->
  rs <> [] ->
  exists w',
    query env userId queryText options w
    = (Throw (js "Missing Supabase environment variables"), w')
    /\ queries w' = queries w
    /\ usage_tracking w' = usage_tracking w
    /\ (forall d, truthy (opt_documentId options) = Some d ->
        llm_calls w' = llm_calls w)
    /\ (truthy (opt_documentId options) = None ->
        exists call, llm_calls w' = llm_calls w ++ [call]).
Proof.
  intros Hsupa Hllm Hsearch Hrs.
  assert (Hquiet := Hsearch). unfold search_of_query in Hquiet.
  apply search_quiet in Hquiet.
  destruct Hquiet as [(Hd & Hc & Hq & Hu & Hl) Hcalls].
  unfold tick in Hd, Hc, Hq, Hu, Hl, Hcalls. cbn in Hd, Hc, Hq, Hu, Hl, Hcalls.
  unfold query, bind. unfold search_of_query, tick in Hsearch.
  cbn [Date_now snd] in *.
  rewrite Hsearch.
  destruct rs as [| r0 rs']; [contradiction |].
  cbn [length Nat.eqb].
  unfold createServiceClient. rewrite Hsupa.
  unfold answerWithContext.
  destruct (truthy (opt_documentId options)) as [d |].
  - cbn. eexists. split; [reflexivity |].
    split; [exact Hq |]. split; [exact Hu |].
    split; [intros d0 _; exact Hcalls | discriminate].
  - cbn [ret].
    match goal with
    | |- context [chat env ?m ?w0] =>
        destruct (Hllm m w0) as [response Hchat]; rewrite Hchat
    end.
    cbn. eexists. split; [reflexivity |]. cbn.
    split; [exact Hq |]. split; [exact Hu |].
    split; [discriminate |].
    intros _. eexists. rewrite Hcalls. reflexivity.
Qed.

(** X17: the results of the vector search of a query are the ranking the
    index computes for the limit [topK] (5 by default) under exactly these
    conditions: when a non-empty document identifier is given, the one
    condition that the payload's [documentId] equals it, and no condition
    on the user; otherwise the one condition that the payload's [userId]
    equals the user's identifier; and no condition at all when that
    identifier is the empty string. *)
Theorem X17_query_search_scope (userId queryText : jsstring)
  (options : QueryOptions) (w w' : World Vec) (rs : list SearchResult) :
  search_of_query env userId queryText options w = (Ok rs, w') ->
  exists conditions,
    rs = map to_SearchResult
           (qdrant_ranking env (default [] (collection w'))
              (embedder env queryText) (default 5%Z (topK options)) conditions)
    /\ (forall d, truthy (opt_documentId options) = Some d ->
        conditions = [(js "documentId", d)])
    /\ (truthy (opt_documentId options) = None -> userId <> [] ->
        conditions = [(js "userId", userId)])
    /\ (truthy (opt_documentId options) = None -> userId = [] ->
        conditions = []).
Proof.
  unfold search_of_query, search, initialize, bind, qdrant_request, get,
    modify, ret, throw.
  destruct (has_qdrant_client env); cbn; [| discriminate].
  assert (Hconds :
    exists conditions,
      filterConditions
        match truthy (opt_documentId options) with
        | Some d => {| f_documentId := Some d; f_userId := None;
                       f_documentType := None |}
        | None => {| f_documentId := None; f_userId := Some userId;
                     f_documentType := None |}
        end = conditions
      /\ (forall d, truthy (opt_documentId options) = Some d ->
          conditions = [(js "documentId", d)])
      /\ (truthy (opt_documentId options) = None -> userId <> [] ->
          conditions = [(js "userId", userId)])
      /\ (truthy (opt_documentId options) = None -> userId = [] ->
          conditions = [])).
  { eexists. split; [reflexivity |].
    destruct (truthy (opt_documentId options)) as [d |] eqn:E.
    - assert (Hd : truthy (Some d) = Some d).
      { destruct (opt_documentId options) as [[| c r] |]; simpl in E;
          try discriminate. injection E as <-. reflexivity. }
      unfold filterConditions. cbn [f_documentId f_userId f_documentType].
      rewrite Hd. cbn.
      split; [intros d' H; injection H as <-; reflexivity |].
      split; discriminate.
    - unfold filterConditions. cbn [f_documentId f_userId f_documentType].
      split; [discriminate |].
      split; intros _ Hu.
      + destruct userId; [contradiction | reflexivity].
      + subst userId. reflexivity. }
  destruct Hconds as (conditions & Hc & H1 & H2 & H3).
  rewrite Hc. intros H. exists conditions.
  destruct (qdrant_fault_at env (qdrant_requests w)); cbn in H;
    [discriminate |].
  destruct (collection w); cbn in H.
  - destruct (qdrant_fault_at env (S (qdrant_requests w))); cbn in H;
      [discriminate |].
    injection H as <- <-. cbn. repeat split; assumption.
  - destruct (qdrant_fault_at env (S (qdrant_requests w))); cbn in H;
      [discriminate |].
    destruct (qdrant_fault_at env (S (S (qdrant_requests w)))); cbn in H;
      [discriminate |].
    injection H as <- <-. cbn. repeat split; assumption.
Qed.

(** X18: what [upsertVectors] stores, [search] gives back: a hit on a
    point whose payload was built from a vector document has that
    document's content and metadata, unchanged; in particular a hit on
    the point the pipeline stored for the chunk at index i of a document
    carries the chunk's content, the document, the user, the index i and
    the chunk's section.  A hit on a point without payload has empty
    content, empty identifiers and chunk index 0. *)
Theorem X18_payload_round_trip (doc : VectorDocument Vec) (n : nat) (s : Q)
  (documentId userId : jsstring) (c : DocumentChunk) (i : nat) :
  to_SearchResult {| sp_id := n; sp_score := s;
                     sp_payload := Some (payload_of doc) |}
  = {| sr_id := n; sr_content := vd_content doc; score := s;
       sr_metadata := vd_metadata doc |}
  /\ to_SearchResult {| sp_id := n; sp_score := s;
                        sp_payload :=
                          Some (chunk_payload documentId userId c i) |}
     = {| sr_id := n; sr_content := content c; score := s;
          sr_metadata :=
            {| Rag.documentId := documentId; Rag.userId := userId;
               vm_chunkIndex := Z.of_nat i; documentType := None;
               vm_section := section (metadata c);
               vm_pageNumber := pageNumber (metadata c);
               isCorpus := None |} |}
  /\ to_SearchResult {| sp_id := n; sp_score := s; sp_payload := None |}
     = {| sr_id := n; sr_content := []; score := s;
          sr_metadata :=
            {| Rag.documentId := []; Rag.userId := []; vm_chunkIndex := 0;
               documentType := None; vm_section := None;
               vm_pageNumber := None; isCorpus := None |} |}.
Proof.
  split; [| split; reflexivity].
  destruct doc as [a b e m]. destruct m. reflexivity.
Qed.

(** *** what upsert and search do to the collection *)

Lemma upsert_point_from (pt q : Point Vec) pts :
  In q (upsert_point pt pts) -> q = pt \/ In q pts.
Proof.
  induction pts as [| a rest IH]; simpl.
  - intros [<- | []]. now left.
  - destruct (Nat.eqb (pt_id a) (pt_id pt)).
    + intros [<- | Hin]; [now left | right; now right].
    + intros [<- | Hin]; [right; now left |].
      destruct (IH Hin) as [-> | H]; [now left | right; now right].
Qed.

Lemma upsert_all_from (pts old : list (Point Vec)) q :
  In q (fold_left (fun acc pt => upsert_point pt acc) pts old) ->
  In q pts \/ In q old.
Proof.
  revert old. induction pts as [| a rest IH]; intros old Hin; simpl in *.
  - now right.
  - destruct (IH _ Hin) as [H | H]; [left; now right |].
    destruct (upsert_point_from _ _ _ H) as [-> | H'];
      [left; now left | now right].
Qed.

Lemma upsert_all_keeps (pts old : list (Point Vec)) q :
  In q old -> ~ In (pt_id q) (map (@pt_id Vec) pts) ->
  In q (fold_left (fun acc pt => upsert_point pt acc) pts old).
Proof.
  revert old. induction pts as [| a rest IH]; intros old Hin Hnot; simpl.
  - exact Hin.
  - apply IH.
    + apply upsert_point_keeps; [| exact Hin].
      intros E. apply Hnot. left. now symmetry.
    + intros H. apply Hnot. now right.
Qed.

(** X19: when [upsertVectors] returns, the collection exists and holds
    the point of every vector document passed (their identifiers being
    distinct), keeps every point it held before whose identifier is not
    one of theirs, and holds nothing else: upserting the vectors of one
    document never drops or alters the points of another. *)
Theorem X19_upsertVectors_effect (docs : list (VectorDocument Vec))
  (w w' : World Vec) :
  upsertVectors env docs w = (Ok tt, w') ->
  let point := fun doc => {| pt_id := vd_id doc; pt_vector := embedding doc;
                             pt_payload := payload_of doc |} in
  exists after,
    collection w' = Some after
    /\ (NoDup (map (@vd_id Vec) docs) ->
        forall doc, In doc docs -> In (point doc) after)
    /\ (forall pt, In pt (default [] (collection w)) ->
        ~ In (pt_id pt) (map (@vd_id Vec) docs) -> In pt after)
    /\ (forall pt, In pt after ->
        In pt (map point docs) \/ In pt (default [] (collection w))).
Proof.
  intros Hrun point.
  assert (Hafter : collection w'
                   = Some (fold_left (fun acc pt => upsert_point pt acc)
                             (map point docs) (default [] (collection w)))).
  { revert Hrun.
    unfold upsertVectors, initialize, bind, qdrant_request, get, modify, ret,
      throw.
    destruct (has_qdrant_client env); cbn; [| discriminate].
    destruct (qdrant_fault_at env (qdrant_requests w)); cbn; [discriminate |].
    destruct (collection w); cbn.
    - destruct (qdrant_fault_at env (S (qdrant_requests w))); cbn;
        [discriminate |].
      intros H; injection H as <-. reflexivity.
    - destruct (qdrant_fault_at env (S (qdrant_requests w))); cbn;
        [discriminate |].
      destruct (qdrant_fault_at env (S (S (qdrant_requests w)))); cbn;
        [discriminate |].
      intros H; injection H as <-. reflexivity. }
  eexists. split; [exact Hafter |].
  split; [| split].
  - intros Hnd doc Hin. apply upsert_all_in.
    + rewrite map_map. exact Hnd.
    + now apply in_map.
  - intros pt Hin Hnot. apply upsert_all_keeps; [exact Hin |].
    rewrite map_map. exact Hnot.
  - intros pt Hin. now apply upsert_all_from.
Qed.

(** X20: [search] throws without sending a request when the vector index
    is not configured.  When it returns, it has created the collection if
    there was none (two requests to the index when it existed, three when
    it had to be created) and has not changed the points of an existing
    one; its results are the ranking of those points for the given
    vector, the given limit, 5 when none is given, and the conditions of
    the filter. *)
Theorem X20_search_effect (v : Vec) (limit : option Z) (filter : SearchFilter)
  (w : World Vec) :
  (has_qdrant_client env = false ->
   search env v limit filter w
   = (Throw (js "Qdrant client not configured"), w))
  /\ (forall rs w',
        search env v limit filter w = (Ok rs, w') ->
        collection w' = Some (default [] (collection w))
        /\ rs = map to_SearchResult
                  (qdrant_ranking env (default [] (collection w)) v
                     (default 5%Z limit) (filterConditions filter))
        /\ qdrant_requests w'
           = (qdrant_requests w
              + match collection w with Some _ => 2 | None => 3 end)%nat).
Proof.
  unfold search, initialize, bind, qdrant_request, get, modify, ret, throw.
  split; [intros ->; reflexivity |].
  intros rs w'.
  destruct (has_qdrant_client env); cbn; [| discriminate].
  destruct (qdrant_fault_at env (qdrant_requests w)); cbn; [discriminate |].
  destruct (collection w) as [pts |] eqn:Hcol; cbn.
  - destruct (qdrant_fault_at env (S (qdrant_requests w))); cbn;
      [discriminate |].
    intros H; injection H as <- <-. cbn.
    repeat split. lia.
  - destruct (qdrant_fault_at env (S (qdrant_requests w))); cbn;
      [discriminate |].
    destruct (qdrant_fault_at env (S (S (qdrant_requests w)))); cbn;
      [discriminate |].
    intros H; injection H as <- <-. cbn. repeat split. lia.
Qed.

(** X21: when the vector search of a query returns a non-empty list and
    the later steps succeed, the confidence [query] returns lies between
    -1 and 1 if every score does, as cosine scores do, and between 0 and
    1 if every score does. *)
Theorem X21_confidence_bounds (userId queryText : jsstring)
  (options : QueryOptions) (w w2 : World Vec) (rs : list SearchResult) :
  has_supabase_env env = true ->
  llm_answers env ->
  search_of_query env userId queryText options (tick env w) = (Ok rs, w2) ->
  rs <> [] ->
  exists r w',
    query env userId queryText options w = (Ok r, w')
    /\ ((forall x, In x rs -> - (1) <= score x <= 1) ->
        - (1) <= confidence r <= 1)
    /\ ((forall x, In x rs -> 0 <= score x <= 1) ->
        0 <= confidence r <= 1).
Proof.
  intros Hsupa Hllm Hsearch Hrs.
  destruct (@query_with_results Vec env userId queryText options w w2 rs
              Hsupa Hllm Hsearch Hrs)
    as (response & elapsed & w' & Hq).
  do 2 eexists. split; [exact Hq |]. cbn [confidence].
  assert (Hlow : forall lo, lo <= 1 ->
            (forall x, In x rs -> lo <= score x <= 1) ->
            lo <= Qmin (avgScore rs) 1 <= 1).
  { intros lo Hlo Hall. split; [| apply Q.le_min_r].
    apply Q.min_glb; [| exact Hlo].
    rewrite avgScore_mean. apply mean_lower.
    - destruct rs; [contradiction | discriminate].
    - intros x Hx. apply in_map_iff in Hx. destruct Hx as (r & <- & Hr).
      now apply Hall. }
  split; apply Hlow; discriminate.
Qed.

(** *** deleting vectors *)

Variable collection_not_found : jsstring.

Lemma delete_by_effect (field : Payload -> option jsstring)
  (value : jsstring) (w : World Vec) :
  (has_qdrant_client env = false ->
   delete_by env collection_not_found field value w
   = (Throw (js "Qdrant client not configured"), w))
  /\ (forall r w',
        delete_by env collection_not_found field value w = (r, w') ->
        quiet w w')
  /\ (forall w',
        delete_by env collection_not_found field value w = (Ok tt, w') ->
        exists before after,
          collection w = Some before /\ collection w' = Some after
          /\ forall pt, In pt after <->
               In pt before /\ field (pt_payload pt) <> Some value).
Proof.
  unfold delete_by, bind, qdrant_request, get, modify, throw.
  split; [intros ->; reflexivity |].
  destruct (has_qdrant_client env); cbn.
  2:{ split; [intros r w' H; injection H as _ <-; repeat split |].
      intros w' H. discriminate. }
  destruct (qdrant_fault_at env (qdrant_requests w)); cbn.
  { split; [intros r w' H; injection H as _ <-; repeat split |].
    intros w' H. discriminate. }
  destruct (collection w) as [before |]; cbn.
  2:{ split; [intros r w' H; injection H as _ <-; repeat split |].
      intros w' H. discriminate. }
  split; [intros r w' H; injection H as _ <-; repeat split |].
  intros w' H. injection H as <-. cbn.
  do 2 eexists. split; [reflexivity |]. split; [reflexivity |].
  intros pt. unfold delete_matching. rewrite filter_In.
  split; intros [Hin Hp]; (split; [exact Hin |]).
  - intros E. rewrite E, eqb_refl in Hp. discriminate.
  - destruct (field (pt_payload pt)) as [v |]; [| reflexivity].
    destruct (eqb v value) eqn:E; [| reflexivity].
    apply eqb_eq in E. subst v. exfalso. apply Hp. reflexivity.
Qed.

(** X23: [deleteDocument] throws without sending a request when the
    vector index is not configured; whatever its outcome, it never
    touches the metadata store or a generation provider; and when it
    returns, the collection holds exactly the points it held before whose
    payload does not carry the document's identifier.  [deleteByUserId]
    behaves the same way with the user's identifier. *)
Theorem X23_deleteDocument_effect (documentId userId : jsstring)
  (w : World Vec) :
  ((has_qdrant_client env = false ->
    deleteDocument env collection_not_found documentId w
    = (Throw (js "Qdrant client not configured"), w))
   /\ (forall r w',
         deleteDocument env collection_not_found documentId w = (r, w') ->
         quiet w w')
   /\ (forall w',
         deleteDocument env collection_not_found documentId w = (Ok tt, w') ->
         exists before after,
           collection w = Some before /\ collection w' = Some after
           /\ forall pt, In pt after <->
                In pt before
                /\ p_documentId (pt_payload pt) <> Some documentId))
  /\ ((has_qdrant_client env = false ->
       deleteByUserId env collection_not_found userId w
       = (Throw (js "Qdrant client not configured"), w))
      /\ (forall r w',
            deleteByUserId env collection_not_found userId w = (r, w') ->
            quiet w w')
      /\ (forall w',
            deleteByUserId env collection_not_found userId w = (Ok tt, w') ->
            exists before after,
              collection w = Some before /\ collection w' = Some after
              /\ forall pt, In pt after <->
                   In pt before
                   /\ p_userId (pt_payload pt) <> Some userId)).
Proof.
  split.
  - apply (delete_by_effect p_documentId documentId w).
  - apply (delete_by_effect p_userId userId w).
Qed.

End Pipeline.

(** X15 at a concrete input: the demo query with two results. *)
Lemma X15_query_persistence_witness :
  documents
    (snd (query (demo_env two_results failing_pdfParse) (js "user-1")
            demo_question demo_options demo_world))
  = [demo_document].
Proof.
  exact (proj1 (@X15_query_persistence unit
                  (demo_env two_results failing_pdfParse) (js "user-1")
                  demo_question demo_options demo_world _ _
                  (surjective_pairing _))).
Defined.

(** X16 at a concrete input: the demo query, which names no document. *)
Lemma X16_query_without_store_witness :
  exists w' call,
    query storeless_env (js "user-1") demo_question demo_options demo_world
    = (Throw (js "Missing Supabase environment variables"), w')
    /\ queries w' = [] /\ llm_calls w' = [call].
Proof.
  assert (Hne : two_search_results <> []) by discriminate.
  assert (Hllm : llm_answers storeless_env)
    by (intros messages w; eexists; reflexivity).
  destruct (@X16_query_without_store unit storeless_env (js "user-1")
              demo_question demo_options demo_world
              (after_search storeless_env) two_search_results
              eq_refl Hllm eq_refl Hne)
    as (w' & Hrun & Hq & _ & _ & Hcall).
  destruct (Hcall eq_refl) as [call Hcalls].
  exists w', call. split; [exact Hrun |]. split; [exact Hq | exact Hcalls].
Defined.

(** X17 at a concrete input: the demo query, which names no document. *)
Lemma X17_query_search_scope_witness :
  exists conditions,
    two_search_results
    = map to_SearchResult (two_results [] tt 5%Z conditions)
    /\ conditions = [(js "userId", js "user-1")].
Proof.
  destruct (@X17_query_search_scope unit
              (demo_env two_results failing_pdfParse) (js "user-1")
              demo_question demo_options
              (tick (demo_env two_results failing_pdfParse) demo_world)
              (after_search (demo_env two_results failing_pdfParse))
              two_search_results eq_refl)
    as (conditions & Hrs & _ & Hu & _).
  exists conditions. split; [exact Hrs |].
  apply Hu; [reflexivity | discriminate].
Defined.

(** X19 at a concrete input: a vector of a third document is added to a
    collection that holds one point of each of two documents. *)
Lemma X19_upsertVectors_effect_witness :
  exists after,
    collection
      (snd (upsertVectors (demo_env no_results failing_pdfParse)
              [new_vector] indexed_world)) = Some after
    /\ (forall pt, In pt two_documents -> In pt after).
Proof.
  destruct (@X19_upsertVectors_effect unit
              (demo_env no_results failing_pdfParse) [new_vector]
              indexed_world _ eq_refl)
    as (after & Hafter & _ & Hkeep & _).
  exists after. split; [exact Hafter |].
  intros pt Hin. apply Hkeep; [exact Hin |].
  destruct Hin as [<- | [<- | []]]; cbn; intros [H | []]; discriminate H.
Defined.

(** X21 at a concrete input: scores 3/4 and -1/4. *)
Lemma X21_confidence_bounds_witness :
  exists r w',
    query (demo_env two_results failing_pdfParse) (js "user-1") demo_question
      demo_options demo_world = (Ok r, w')
    /\ - (1) <= confidence r <= 1.
Proof.
  assert (Hne : two_search_results <> []) by discriminate.
  destruct (@X21_confidence_bounds unit
              (demo_env two_results failing_pdfParse) (js "user-1")
              demo_question demo_options demo_world
              (after_search (demo_env two_results failing_pdfParse))
              two_search_results eq_refl (demo_llm_answers _ _) eq_refl Hne)
    as (r & w' & Hq & Hcos & _).
  exists r, w'. split; [exact Hq |].
  apply Hcos.
  intros x [<- | [<- | []]]; split; discriminate.
Defined.

(** X23 at a concrete input: the vectors of one of two documents are
    deleted. *)
Lemma X23_deleteDocument_effect_witness :
  exists after,
    collection
      (snd (deleteDocument (demo_env no_results failing_pdfParse) []
              (js "doc-1") indexed_world)) = Some after
    /\ forall pt, In pt after ->
         p_documentId (pt_payload pt) <> Some (js "doc-1").
Proof.
  destruct (@X23_deleteDocument_effect unit
              (demo_env no_results failing_pdfParse) [] (js "doc-1") []
              indexed_world) as ((_ & _ & H) & _).
  destruct (H _ eq_refl) as (before & after & _ & Hafter & Hiff).
  exists after. split; [exact Hafter |].
  intros pt Hin. apply Hiff in Hin. apply Hin.
Defined.

End QueryProofs.

(* ================================================================== *)
(** ** Theorems: the options of the generation provider *)
(* ================================================================== *)

Module LlmProofs.

Import Rag Spec Shape Llm.

Section Chat.

Import PrimFloat.

#[local] Set Warnings "-inexact-float".

Variable Vec : Type.
Variable groqClient :
  option (list LLMMessage -> Z -> float
          -> Result (option jsstring * option Z)).
Variable geminiClient : option (jsstring -> Z -> float -> Result jsstring).

Local Abbreviation chat := (@Llm.chat Vec groqClient geminiClient).

(** X22: [chat] uses the provider its options name, whether or not the
    other one is configured, and without a named provider Groq when it is
    configured and Gemini only when Groq is not.  It throws before any
    request when the provider it would use has no client (a named one:
    "... client not initialized"; none named and none configured: "No LLM
    provider configured ...").  A failure of the request is the failure
    of [chat]: there is no second attempt on the other provider.  A
    response of Gemini reports 0 tokens used.  In every case [chat] leaves
    the metadata store and the vector index untouched and makes at most
    one request.  With no options, and clients that answer as those of the
    environment at the default token limit 2048 and temperature 0.3, it is
    the [chat] the pipeline calls. *)
Theorem X22_chat_provider_choice (messages : list LLMMessage)
  (options : ChatOptions) (w w' : World Vec) (res : Result LLMResponse) :
  chat messages options w = (res, w') ->
  llm_only messages w w'
  /\ match res with
     | Ok response =>
         llm_calls w' = llm_calls w ++ [messages]
         /\ match opt_provider options with
            | Some p => provider response = p
            | None =>
                (provider response = groq /\ groqClient <> None)
                \/ (provider response = gemini /\ groqClient = None)
            end
         /\ (provider response = groq -> groqClient <> None)
         /\ (provider response = gemini ->
             geminiClient <> None /\ llm_tokensUsed response = 0%Z)
     | Throw e =>
         (llm_calls w' = llm_calls w
          /\ ((opt_provider options = None /\ groqClient = None
               /\ geminiClient = None
               /\ e = js "No LLM provider configured. Set GROQ_API_KEY or GOOGLE_GEMINI_API_KEY")
              \/ (opt_provider options = Some groq /\ groqClient = None
                  /\ e = js "Groq client not initialized")
              \/ (opt_provider options = Some gemini /\ geminiClient = None
                  /\ e = js "Gemini client not initialized")))
         \/ (llm_calls w' = llm_calls w ++ [messages]
             /\ request_failed groqClient geminiClient messages options e)
     end
  /\ (forall env : Env Vec,
        at_defaults groqClient geminiClient env -> options = no_options ->
        Rag.chat env messages w = (res, w')).
Proof.
  intros Hrun.
  unfold Llm.chat, getDefaultProvider, chatWithGroq, chatWithGemini, bind,
    record_llm_call, modify, lift, ret, throw in Hrun.
  assert (Hframe : forall calls,
            llm_only messages w
              {| documents := documents w;
                 document_chunks := document_chunks w;
                 queries := queries w; usage_tracking := usage_tracking w;
                 documents_updates := documents_updates w;
                 collection := collection w;
                 qdrant_requests := qdrant_requests w;
                 llm_calls := calls; clock_reads := clock_reads w;
                 uuid_calls := uuid_calls w |} <->
            (calls = llm_calls w \/ calls = llm_calls w ++ [messages])).
  { intros calls. unfold llm_only, same_store. cbn. tauto. }
  assert (Hsame : llm_only messages w w).
  { unfold llm_only, same_store. tauto. }
  destruct options as [[[|] |] maxTokens temperature]; cbn in Hrun |- *.
  - (* Groq is named *)
    destruct groqClient as [create |] eqn:Hg.
    + destruct (create messages _ _) as [response | e] eqn:Hc;
        injection Hrun as <- <-; cbn.
      * split; [apply Hframe; now right |].
        split; [| intros env _ H; discriminate H].
        split; [reflexivity |]. split; [reflexivity |].
        split; [discriminate | discriminate].
      * split; [apply Hframe; now right |].
        split; [| intros env _ H; discriminate H].
        right. split; [reflexivity |]. left. exists create.
        split; [reflexivity |]. split; [discriminate | exact Hc].
    + injection Hrun as <- <-.
      split; [exact Hsame |].
      split; [| intros env _ H; discriminate H].
      left. split; [reflexivity |]. right. left. repeat split.
  - (* Gemini is named *)
    destruct geminiClient as [generateContent |] eqn:Hm.
    + destruct (generateContent _ _ _) as [text | e] eqn:Hc;
        injection Hrun as <- <-; cbn.
      * split; [apply Hframe; now right |].
        split; [| intros env _ H; discriminate H].
        split; [reflexivity |]. split; [reflexivity |].
        split; [discriminate |]. intros _. split; [discriminate | reflexivity].
      * split; [apply Hframe; now right |].
        split; [| intros env _ H; discriminate H].
        right. split; [reflexivity |]. right. exists generateContent.
        split; [reflexivity |]. split; [now left | exact Hc].
    + injection Hrun as <- <-.
      split; [exact Hsame |].
      split; [| intros env _ H; discriminate H].
      left. split; [reflexivity |]. right. right. repeat split.
  - (* no provider is named *)
    assert (Hdefault : forall env : Env Vec,
              at_defaults groqClient geminiClient env ->
              {| opt_provider := None; opt_maxTokens := maxTokens;
                 opt_temperature := temperature |} = no_options ->
              Rag.chat env messages w = (res, w')).
    { intros env [Hg Hm] Hopt. injection Hopt as -> ->.
      unfold Rag.chat, bind, record_llm_call, modify, lift, ret, throw.
      rewrite Hg, Hm. rewrite <- Hrun.
      destruct groqClient as [create |]; cbn; [reflexivity |].
      destruct geminiClient as [generateContent |]; reflexivity. }
    split; [| split; [| exact Hdefault]]; clear Hdefault.
    + destruct groqClient as [create |]; cbn in Hrun.
      * destruct (create messages _ _); injection Hrun as <- <-;
          apply Hframe; now right.
      * destruct geminiClient as [generateContent |]; cbn in Hrun.
        -- destruct (generateContent _ _ _); injection Hrun as <- <-;
             apply Hframe; now right.
        -- injection Hrun as <- <-. exact Hsame.
    + destruct groqClient as [create |] eqn:Hg; cbn in Hrun.
      * destruct (create messages _ _) as [response | e] eqn:Hc;
          injection Hrun as <- <-; cbn.
        -- split; [reflexivity |].
           split; [left; split; [reflexivity | discriminate] |].
           split; [discriminate | discriminate].
        -- right. split; [reflexivity |]. left. exists create.
           split; [reflexivity |]. split; [discriminate | exact Hc].
      * destruct geminiClient as [generateContent |] eqn:Hm; cbn in Hrun.
        -- destruct (generateContent _ _ _) as [text | e] eqn:Hc;
             injection Hrun as <- <-; cbn.
           ++ split; [reflexivity |].
              split; [right; split; reflexivity |].
              split; [discriminate |].
              intros _. split; [discriminate | reflexivity].
           ++ right. split; [reflexivity |]. right. exists generateContent.
              split; [reflexivity |].
              split; [right; split; reflexivity | exact Hc].
        -- injection Hrun as <- <-.
           left. split; [reflexivity |]. left. repeat split.
Qed.

End Chat.

(** X22 at a concrete input: both providers are configured and the
    options name Gemini. *)
Lemma X22_chat_provider_choice_witness :
  exists response w',
    Llm.chat answering_groq answering_gemini [] gemini_named demo_world
    = (Ok response, w')
    /\ provider response = gemini /\ llm_tokensUsed response = 0%Z.
Proof.
  assert (E : Llm.chat answering_groq answering_gemini [] gemini_named
                demo_world
              = (Ok {| llm_content := js "The rent is due monthly.";
                       llm_tokensUsed := 0; provider := gemini |},
                 snd (record_llm_call [] demo_world))) by reflexivity.
  destruct (@X22_chat_provider_choice unit answering_groq answering_gemini
              _ _ _ _ _ E) as (_ & (_ & Hp & _ & Hm) & _).
  do 2 eexists. split; [exact E |].
  split; [exact Hp | exact (proj2 (Hm Hp))].
Defined.

End LlmProofs.

(* ================================================================== *)
(** ** Theorems: hashing, tokens and similarity *)
(* ================================================================== *)

Module HashProofs.

Import Embeddings Spec Shape EmbeddingProofs PipelineProofs QueryProofs.

Lemma to_int32_range z : (- 2 ^ 31 <= to_int32 z < 2 ^ 31)%Z.
Proof.
  unfold to_int32.
  pose proof (Z.mod_pos_bound (z + 2 ^ 31) (2 ^ 32) ltac:(lia)). lia.
Qed.

(** X24: for every string, [stringHash] is a 32-bit signed integer, and
    the array index computed from it, [Math.abs(hash) % 384], is below
    384: the embedding array is only ever written within its bounds and
    keeps its 384 components. *)
Theorem X24_stringHash_int32 (str : jsstring) :
  (- 2 ^ 31 <= stringHash str < 2 ^ 31)%Z
  /\ (index_of (stringHash str) < EMBEDDING_DIMENSION)%nat.
Proof.
  split.
  - unfold stringHash.
    apply (ChunkerProofs.fold_left_invariant
             (fun h => (- 2 ^ 31 <= h < 2 ^ 31)%Z)).
    + lia.
    + intros h c _. unfold stringHash_step, bitxor. apply to_int32_range.
  - unfold index_of, EMBEDDING_DIMENSION.
    pose proof (Z.mod_pos_bound (Z.abs (stringHash str)) (Z.of_nat 384)
                  ltac:(lia)). lia.
Qed.

(** *** tokens *)

Lemma split_ws_go_pieces (P : N -> Prop) s in_ws cur :
  Forall P cur -> Forall P s ->
  Forall (Forall P) (split_ws_go in_ws cur s).
Proof.
  revert in_ws cur. induction s as [| c t IH]; intros in_ws cur Hcur Hs; simpl.
  - constructor; [now apply Forall_rev | constructor].
  - inversion Hs as [| ? ? Hc Ht]; subst.
    destruct (is_space c) eqn:E.
    + destruct in_ws.
      * now apply IH.
      * constructor; [now apply Forall_rev |].
        apply IH; [constructor | exact Ht].
    + apply IH; [now constructor | exact Ht].
Qed.

Lemma split_ws_go_no_space s in_ws cur :
  Forall (fun c => is_space c = false) cur ->
  Forall (Forall (fun c => is_space c = false)) (split_ws_go in_ws cur s).
Proof.
  revert in_ws cur. induction s as [| c t IH]; intros in_ws cur Hcur; simpl.
  - constructor; [now apply Forall_rev | constructor].
  - destruct (is_space c) eqn:E.
    + destruct in_ws.
      * now apply IH.
      * constructor; [now apply Forall_rev |]. apply IH. constructor.
    + apply IH. now constructor.
Qed.

(** X25: for every text, every token the embedding works on is a
    non-empty string of lower-case ASCII letters and digits: no token
    holds white space, a capital, punctuation or a code unit outside
    ASCII. *)
Theorem X25_tokens_are_words (text : jsstring) :
  Forall (fun w => w <> [] /\ forallb word_unit w = true) (tokenize text).
Proof.
  unfold tokenize. apply Forall_forall. intros w Hw.
  apply filter_In in Hw. destruct Hw as [Hin Hlen].
  split.
  - intros ->. discriminate Hlen.
  - pose proof (@split_ws_go_pieces (fun c => keep c = true)
                  (filter keep (toLowerCase text)) false []) as Hk.
    pose proof (@split_ws_go_no_space (filter keep (toLowerCase text)) false [])
      as Hs.
    assert (Hkeep : Forall (fun c => keep c = true)
                      (filter keep (toLowerCase text))).
    { apply Forall_forall. intros c Hc. apply filter_In in Hc. tauto. }
    specialize (Hk (Forall_nil _) Hkeep). specialize (Hs (Forall_nil _)).
    rewrite Forall_forall in Hk, Hs.
    specialize (Hk w Hin). specialize (Hs w Hin).
    apply forallb_forall. intros c Hc.
    rewrite Forall_forall in Hk, Hs.
    specialize (Hk c Hc). specialize (Hs c Hc). cbn beta in Hk, Hs.
    unfold keep in Hk. unfold word_unit. rewrite Hs in Hk.
    now rewrite orb_false_r in Hk.
Qed.

(** *** word frequencies *)

Lemma eqb_sym a b : eqb a b = eqb b a.
Proof.
  destruct (eqb a b) eqn:E.
  - apply eqb_eq in E. subst. symmetry. apply eqb_refl.
  - destruct (eqb b a) eqn:E'; [| reflexivity].
    apply eqb_eq in E'. subst. rewrite eqb_refl in E. discriminate.
Qed.

Lemma freq_of_bump word x m :
  freq_of word (bump x m)
  = (freq_of word m + (if eqb x word then 1 else 0))%Z.
Proof.
  unfold freq_of. induction m as [| [w f] rest IH]; simpl.
  - destruct (eqb x word); reflexivity.
  - destruct (eqb w x) eqn:Ewx; simpl.
    + apply eqb_eq in Ewx. subst w.
      destruct (eqb x word); [reflexivity | lia].
    + destruct (eqb w word) eqn:Eww.
      * apply eqb_eq in Eww. subst w.
        rewrite eqb_sym, Ewx. lia.
      * exact IH.
Qed.

Lemma bump_keys x m :
  map fst (bump x m)
  = if existsb (fun w => eqb w x) (map fst m) then map fst m
    else map fst m ++ [x].
Proof.
  induction m as [| [w f] rest IH]; simpl; [reflexivity |].
  destruct (eqb w x) eqn:E; simpl; [reflexivity |].
  rewrite IH. destruct (existsb _ _); reflexivity.
Qed.

Lemma bump_NoDup x m : NoDup (map fst m) -> NoDup (map fst (bump x m)).
Proof.
  intros H. rewrite bump_keys.
  destruct (existsb (fun w => eqb w x) (map fst m)) eqn:E; [exact H |].
  apply NoDup_app; [exact H | repeat constructor; intros [] |].
  intros w Hw Hin. destruct Hin as [Heq | []]. subst w.
  assert (Hex : existsb (fun w0 => eqb w0 x) (map fst m) = true).
  { apply existsb_exists. exists x. split; [exact Hw | apply eqb_refl]. }
  congruence.
Qed.

Lemma bump_positive x m :
  Forall (fun e => (1 <= snd e)%Z) m ->
  Forall (fun e => (1 <= snd e)%Z) (bump x m).
Proof.
  induction 1 as [| [w f] r Hw Hr IH]; simpl.
  - repeat constructor. simpl. lia.
  - destruct (eqb w x); constructor; simpl in *; try assumption; lia.
Qed.

Lemma freq_of_entry word f m :
  NoDup (map fst m) -> In (word, f) m -> freq_of word m = f.
Proof.
  unfold freq_of. induction m as [| [w g] rest IH]; intros Hnd Hin;
    [destruct Hin |].
  simpl in Hnd. inversion Hnd as [| ? ? Hnot Hnd']; subst.
  simpl. destruct Hin as [Heq | Hin].
  - injection Heq as -> ->. now rewrite eqb_refl.
  - destruct (eqb w word) eqn:E.
    + apply eqb_eq in E. subst w. exfalso. apply Hnot.
      apply in_map_iff. exists (word, f). split; [reflexivity | exact Hin].
    + now apply IH.
Qed.

(** The invariant of the loop that fills [wordFreq]. *)
Lemma wordFreq_inv words :
  NoDup (map fst (wordFreq words))
  /\ Forall (fun e => (1 <= snd e)%Z) (wordFreq words)
  /\ forall word, freq_of word (wordFreq words) = occurrences word words.
Proof.
  unfold wordFreq.
  assert (H : forall m acc,
    NoDup (map fst m) ->
    Forall (fun e => (1 <= snd e)%Z) m ->
    (forall word, freq_of word m = occurrences word acc) ->
    NoDup (map fst (fold_left (fun m word => bump word m) words m))
    /\ Forall (fun e => (1 <= snd e)%Z)
         (fold_left (fun m word => bump word m) words m)
    /\ forall word,
         freq_of word (fold_left (fun m word => bump word m) words m)
         = occurrences word (acc ++ words)).
  { induction words as [| x rest IH]; intros m acc Hnd Hpos Hf.
    - simpl. rewrite app_nil_r. repeat split; assumption.
    - simpl.
      replace (acc ++ x :: rest) with ((acc ++ [x]) ++ rest)
        by (rewrite <- app_assoc; reflexivity).
      apply IH; [now apply bump_NoDup | now apply bump_positive |].
      intros word. rewrite freq_of_bump, Hf. unfold occurrences.
      rewrite filter_app, length_app. simpl.
      destruct (eqb x word); simpl; lia. }
  apply (H [] []); [constructor | constructor |]. intros word. reflexivity.
Qed.

(** X26: for every list of words, the frequency map [hashEmbedding]
    builds has exactly one entry for each distinct word of the list, and
    the frequency of a word is the number of its occurrences in the list,
    at least 1. *)
Theorem X26_wordFreq_counts (words : list jsstring) :
  NoDup (map fst (wordFreq words))
  /\ (forall word freq, In (word, freq) (wordFreq words) ->
        freq = occurrences word words /\ (1 <= freq)%Z /\ In word words)
  /\ (forall word, In word words ->
        In (word, occurrences word words) (wordFreq words)).
Proof.
  destruct (wordFreq_inv words) as (Hnd & Hge & Hf).
  split; [exact Hnd |].
  assert (Hpos : forall word,
            (1 <= occurrences word words)%Z <-> In word words).
  { intros word. unfold occurrences. split.
    - intros H.
      destruct (filter (fun w0 => eqb w0 word) words) as [| w r] eqn:E;
        [simpl in H; lia |].
      assert (Hw : In w (filter (fun w0 => eqb w0 word) words))
        by (rewrite E; now left).
      apply filter_In in Hw. destruct Hw as [Hw Heq].
      apply eqb_eq in Heq. now subst.
    - intros H.
      assert (Hw : In word (filter (fun w0 => eqb w0 word) words))
        by (apply filter_In; split; [exact H | apply eqb_refl]).
      destruct (filter (fun w0 => eqb w0 word) words);
        [destruct Hw | simpl; lia]. }
  split.
  - intros word freq Hin.
    assert (Heq : freq = occurrences word words).
    { rewrite <- Hf. symmetry. now apply freq_of_entry. }
    rewrite Forall_forall in Hge. pose proof (Hge _ Hin) as Hone.
    simpl in Hone. split; [exact Heq |]. split; [exact Hone |].
    apply Hpos. now rewrite <- Heq.
  - intros word Hin.
    apply Hpos in Hin. rewrite <- Hf in Hin |- *.
    unfold freq_of in *.
    destruct (find (fun entry => eqb (fst entry) word) (wordFreq words))
      as [[w f] |] eqn:E; [| lia].
    apply find_some in E. destruct E as [Hw Heq]. simpl in Heq.
    apply eqb_eq in Heq. now subst.
Qed.

(** *** case and punctuation *)

Lemma lower_unit_twice c : flat_map lower_unit (lower_unit c) = lower_unit c.
Proof.
  assert (E : lower_unit c
              = if is_upper c then [(c + 32)%N]
                else if N.eqb c 8490 then [107%N]
                else if N.eqb c 304 then [105%N; 775%N] else [c])
    by reflexivity.
  rewrite E. clear E.
  destruct (is_upper c) eqn:Hu.
  - assert (Hc : (65 <= c <= 90)%N).
    { unfold is_upper, in_range in Hu. apply andb_true_iff in Hu.
      destruct Hu as [Hge Hle]. apply N.leb_le in Hge, Hle. lia. }
    assert (H1 : is_upper (c + 32) = false).
    { unfold is_upper, in_range. apply andb_false_iff. right.
      apply N.leb_gt. lia. }
    assert (H2 : N.eqb (c + 32) 8490 = false) by (apply N.eqb_neq; lia).
    assert (H3 : N.eqb (c + 32) 304 = false) by (apply N.eqb_neq; lia).
    cbn [flat_map]. rewrite app_nil_r. unfold lower_unit.
    now rewrite H1, H2, H3.
  - destruct (N.eqb c 8490) eqn:Hk; [reflexivity |].
    destruct (N.eqb c 304) eqn:Hi; [reflexivity |].
    cbn [flat_map]. rewrite app_nil_r. unfold lower_unit.
    now rewrite Hu, Hk, Hi.
Qed.

Lemma toLowerCase_twice s : toLowerCase (toLowerCase s) = toLowerCase s.
Proof.
  unfold toLowerCase. induction s as [| c t IH]; [reflexivity |].
  cbn [flat_map]. rewrite flat_map_app, IH, lower_unit_twice. reflexivity.
Qed.

(** X27: the embedding does not see case or punctuation: a text and its
    lower-case form have the same embedding, and so have two texts that
    differ by one code unit that is neither an ASCII letter or digit nor
    white space, nor has such a lower-case form (a comma, a full stop, an
    apostrophe, an accented letter). *)
Theorem X27_embed_ignores_case_and_punctuation (text before after : jsstring)
  (c : N) :
  embed (toLowerCase text) = embed text
  /\ (filter keep (lower_unit c) = [] ->
      embed (before ++ c :: after) = embed (before ++ after)).
Proof.
  unfold embed, hashEmbedding, tokenize. split.
  - now rewrite toLowerCase_twice.
  - intros Hc.
    assert (H : filter keep (toLowerCase (before ++ c :: after))
                = filter keep (toLowerCase (before ++ after))).
    { unfold toLowerCase. rewrite !flat_map_app. cbn [flat_map].
      rewrite !filter_app, Hc. reflexivity. }
    now rewrite H.
Qed.

(** X27 at a concrete input: a comma. *)
Lemma X27_embed_ignores_case_and_punctuation_witness :
  embed (js "rent, due") = embed (js "rent due").
Proof.
  exact (proj2 (X27_embed_ignores_case_and_punctuation
                  [] (js "rent") (js " due") 44%N) eq_refl).
Defined.

End HashProofs.

Module CosineProofs.

Import Embeddings Spec Shape TestQuery.
Import PrimFloat.

#[local] Set Warnings "-inexact-float".
Local Open Scope float_scope.

(** The product of two binary64 numbers does not depend on their order. *)
Lemma mul_comm (x y : float) : x * y = y * x.
Proof.
  apply FloatAxioms.Prim2SF_inj. rewrite !FloatAxioms.mul_spec.
  unfold FloatAxioms.SF64mul, SpecFloat.SFmul.
  destruct (FloatOps.Prim2SF x) as [sx | sx | | sx mx ex],
           (FloatOps.Prim2SF y) as [sy | sy | | sy my ey];
    try reflexivity; try (now rewrite xorb_comm).
  now rewrite xorb_comm, Pos.mul_comm, Z.add_comm.
Qed.

Lemma cosine_loop_exchanged (a b : list float) (s : Sums) :
  fold_left cosine_step (combine b a) (exchanged s)
  = exchanged (fold_left cosine_step (combine a b) s).
Proof.
  revert b s. induction a as [| x a IH]; intros [| y b] s; try reflexivity.
  cbn [combine fold_left]. rewrite <- IH. f_equal.
  destruct s as [d na nb]. unfold exchanged, cosine_step. cbn.
  now rewrite (mul_comm y x).
Qed.

(** When both arrays are the same one, the three accumulators hold the
    sum of its squares. *)
Lemma cosine_loop_self (a : list float) (n : float) :
  fold_left cosine_step (combine a a)
    {| dotProduct := n; normA := n; normB := n |}
  = let n' := fold_left (fun sum val => sum + val * val) a n in
    {| dotProduct := n'; normA := n'; normB := n' |}.
Proof.
  revert n. induction a as [| x a IH]; intros n; [reflexivity |].
  cbn [combine fold_left]. unfold cosine_step at 2. cbn [dotProduct normA normB].
  apply IH.
Qed.

(** X28: in binary64 arithmetic [cosineSimilarity] gives the same number
    for two arrays in either order; it is 0 when the arrays differ in
    length; and the similarity of an array with itself is the sum [n] of
    its squares divided by [sqrt n * sqrt n] (0 when that product equals
    0), which is not always 1 and can exceed it: it is the number just
    above 1 for the array [[0.1; 0.7]] and for the embedding of a text. *)
Theorem X28_cosineSimilarity_symmetric (a b : list float) :
  cosineSimilarity a b = cosineSimilarity b a
  /\ (length a <> length b -> cosineSimilarity a b = 0)
  /\ cosineSimilarity a a
     = (let n := sum_squares a in
        if sqrt n * sqrt n =? 0 then 0 else n / (sqrt n * sqrt n))
  /\ cosineSimilarity [0.1; 0.7] [0.1; 0.7] = 1.0000000000000002
  /\ (let v := embed (js "Payment is due within 30 days.") in
      cosineSimilarity v v = 1.0000000000000002)
  /\ cosineSimilarity [3; 4] [3; 4] = 1.
Proof.
  split; [| split; [| split]].
  - unfold cosineSimilarity. rewrite (Nat.eqb_sym (length b) (length a)).
    destruct (length a =? length b)%nat; [| reflexivity]. cbn [negb].
    pose proof (cosine_loop_exchanged a b
                  {| dotProduct := 0; normA := 0; normB := 0 |}) as E.
    change (exchanged {| dotProduct := 0; normA := 0; normB := 0 |})
      with {| dotProduct := 0; normA := 0; normB := 0 |} in E.
    rewrite E. cbn [exchanged dotProduct normA normB].
    set (s := fold_left cosine_step (combine a b) _).
    now rewrite (mul_comm (sqrt (normB s)) (sqrt (normA s))).
  - intros H. unfold cosineSimilarity.
    apply Nat.eqb_neq in H. now rewrite H.
  - unfold cosineSimilarity. rewrite Nat.eqb_refl. cbn [negb].
    rewrite cosine_loop_self. reflexivity.
  - vm_compute. repeat split.
Qed.

End CosineProofs.
